(** * wsi/slide.py: file-name codec, slide conversion, coordinate mapping and
      work partitioning

    A shallow embedding of [src/wsi/slide.py].  Python [int] is [Z], [str]
    is [string], [float] is IEEE-754 binary64 as specified by the standard
    library's [SpecFloat] (precision 53, [emax] 1024), exceptions are an
    error result, and the file system together with the slide library is an
    explicit world that the conversion functions thread through. *)

From Stdlib Require Import ZArith List Bool String Ascii Lia.
From Stdlib Require Import QArith Qround Qpower Lqa.
From Stdlib Require Import DecimalString DecimalZ.
From Stdlib Require Import Floats Uint63.
Import ListNotations.

Local Open Scope string_scope.
Local Open Scope Z_scope.

(* ================================================================== *)
(** * Exceptions and results *)

(** The exceptions that the modelled functions raise or catch. *)
Inductive exn : Type :=
| AttributeError      (* attribute lookup on [None] *)
| IndexError          (* [glob.glob(...)[0]] on an empty list *)
| ZeroDivisionError
| OverflowError
| ValueError
| OpenSlideError      (* raised by [openslide.open_slide] *)
| FileNotFoundError.  (* raised by [openslide.open_slide] *)

Inductive result (A : Type) : Type :=
| Ok (a : A)
| Raise (e : exn).
Arguments Ok {A} a.
Arguments Raise {A} e.

Definition bind {A B} (r : result A) (k : A -> result B) : result B :=
  match r with
  | Ok a => k a
  | Raise e => Raise e
  end.

Declare Scope res_scope.
Delimit Scope res_scope with res.
Notation "x <- c ;; k" := (bind c (fun x => k))
  (at level 61, c at next level, right associativity) : res_scope.
Notation "' p <- c ;; k" := (bind c (fun x => match x with p => k end))
  (at level 61, p pattern, c at next level, right associativity) : res_scope.

Fixpoint mapM {A B} (f : A -> result B) (l : list A) : result (list B) :=
  match l with
  | [] => Ok []
  | a :: l' => (b <- f a ;; bs <- mapM f l' ;; Ok (b :: bs))%res
  end.

(** [range(a, b)] *)
Definition range (a b : Z) : list Z :=
  map (fun k => a + Z.of_nat k) (seq 0 (Z.to_nat (b - a))).

(* ================================================================== *)
(** * Strings: [str], [zfill] *)

(** [str(n)] for an [int]. *)
Definition str (n : Z) : string := NilZero.string_of_int (Z.to_int n).

(** [int(s)] on a decimal string, as callers apply it to parsed groups. *)
Definition int_of_str (s : string) : option Z :=
  option_map Z.of_int (NilZero.int_of_string s).

Fixpoint zeros (k : nat) : string :=
  match k with
  | O => ""
  | S k' => String "0" (zeros k')
  end.

(** [s.zfill(width)]: pad with zeros on the left, after a leading sign. *)
Definition zfill (width : nat) (s : string) : string :=
  if (width <=? String.length s)%nat then s
  else
    let pad := zeros (width - String.length s) in
    match s with
    | String c r =>
        if (Ascii.eqb c "+" || Ascii.eqb c "-")%bool
        then String c (pad ++ r)
        else pad ++ s
    | EmptyString => pad
    end.

(* ================================================================== *)
(** * Module constants *)

Definition os_sep : string := "/".
Definition BASE_DIR : string := ".." ++ os_sep ++ "data".
Definition TRAIN_PREFIX : string := "TUPAC-TR-".
Definition SRC_TRAIN_DIR : string := BASE_DIR ++ os_sep ++ "training_slides".
Definition SRC_TRAIN_EXT : string := "svs".
Definition DEST_TRAIN_SUFFIX : string := "".
Definition DEST_TRAIN_EXT : string := "png".
Definition SCALE_FACTOR_default : Z := 32.
Definition DEST_TRAIN_DIR : string := BASE_DIR ++ os_sep ++ "training_" ++ DEST_TRAIN_EXT.
Definition THUMBNAIL_SIZE : Z := 300.
Definition THUMBNAIL_EXT : string := "jpg".
Definition DEST_TRAIN_THUMBNAIL_DIR : string :=
  BASE_DIR ++ os_sep ++ "training_thumbnail_" ++ THUMBNAIL_EXT.
Definition FILTER_SUFFIX : string := "".
Definition FILTER_RESULT_TEXT : string := "filtered".
Definition FILTER_DIR : string := BASE_DIR ++ os_sep ++ "filter_" ++ DEST_TRAIN_EXT.
Definition FILTER_THUMBNAIL_DIR : string :=
  BASE_DIR ++ os_sep ++ "filter_thumbnail_" ++ THUMBNAIL_EXT.
Definition TILE_SUMMARY_SUFFIX : string := "tile_summary".

(* ================================================================== *)
(** * Regular expressions: the fragment [re.match] is used with *)

(** The items the pattern of the file-name parser is built from: a greedy
    dot-star, a capturing group around a greedy dot-star, and a literal
    character (the escaped dot is the literal dot). *)
Inductive re_item : Type :=
| Dot_star
| Group_dot_star
| Char (c : ascii).

(** The dot matches any character except a newline. *)
Definition is_newline (c : ascii) : bool := Ascii.eqb c "010".

(** Greedy dot-star followed by the continuation [k]: the longest run of
    non-newline characters after which [k] succeeds, found by giving
    characters back one at a time. *)
Fixpoint greedy {G} (k : string -> option G) (s : string) : option (string * G) :=
  match s with
  | EmptyString => option_map (pair EmptyString) (k EmptyString)
  | String c s' =>
      if is_newline c then option_map (pair EmptyString) (k s)
      else
        match greedy k s' with
        | Some (cap, g) => Some (String c cap, g)
        | None => option_map (pair EmptyString) (k s)
        end
  end.

(** [re.match(p, s)]: backtracking match anchored at the start of [s] (the
    end is not anchored); the result is the list of captured groups. *)
Fixpoint re_match (p : list re_item) (s : string) : option (list string) :=
  match p with
  | [] => Some []
  | Char c :: p' =>
      match s with
      | String c' s' => if Ascii.eqb c c' then re_match p' s' else None
      | EmptyString => None
      end
  | Dot_star :: p' => option_map snd (greedy (re_match p') s)
  | Group_dot_star :: p' =>
      match greedy (re_match p') s with
      | Some (cap, gs) => Some (cap :: gs)
      | None => None
      end
  end.

Definition dimensions_pattern : list re_item :=
  [Dot_star; Char "-"; Group_dot_star; Char "x"; Group_dot_star; Char "-";
   Group_dot_star; Char "x"; Group_dot_star; Char "."; Dot_star].

(** [m.group(i)] for [i >= 1]. *)
Definition group (gs : list string) (i : nat) : result string :=
  match nth_error gs (i - 1) with
  | Some g => Ok g
  | None => Raise IndexError
  end.

Definition parse_dimensions_from_training_image_filename (filename : string)
  : result (string * string * string * string) :=
  match re_match dimensions_pattern filename with
  | None => Raise AttributeError
  | Some m =>
      (large_w <- group m 1 ;;
       large_h <- group m 2 ;;
       small_w <- group m 3 ;;
       small_h <- group m 4 ;;
       Ok (large_w, large_h, small_w, small_h))%res
  end.

(* ================================================================== *)
(** * Floating point

    A Python [float] is an IEEE-754 binary64 number; the arithmetic is the
    standard library's specification of it, rounding to nearest, ties to
    even. *)

Definition float : Type := spec_float.

Definition float_mul (x y : float) : float := SFmul prec emax x y.
Definition float_add (x y : float) : float := SFadd prec emax x y.

(** [float(n)] as done implicitly for an [int] operand of mixed
    arithmetic: correctly rounded, [OverflowError] when out of range. *)
Definition float_of_int (n : Z) : result float :=
  match binary_normalize prec emax n 0 false with
  | S754_infinity _ => Raise OverflowError
  | f => Ok f
  end.

(** An integer as an unrounded mantissa with exponent 0. *)
Definition raw_int (n : Z) : float :=
  match n with
  | Z0 => S754_zero false
  | Zpos p => S754_finite false p 0
  | Zneg p => S754_finite true p 0
  end.

(** [a / b] on two [int]s: the correctly rounded quotient. *)
Definition int_truediv (a b : Z) : result float :=
  if b =? 0 then Raise ZeroDivisionError
  else
    match SFdiv prec emax (raw_int a) (raw_int b) with
    | S754_infinity _ => Raise OverflowError
    | f => Ok f
    end.

Definition is_zero (x : float) : bool :=
  match x with
  | S754_zero _ => true
  | _ => false
  end.

(** [x / y] on two [float]s. *)
Definition float_truediv (x y : float) : result float :=
  if is_zero y then Raise ZeroDivisionError else Ok (SFdiv prec emax x y).

(** Mixed arithmetic: the [int] operand is converted first. *)
Definition float_div_int (x : float) (n : Z) : result float :=
  (y <- float_of_int n ;; float_truediv x y)%res.
Definition float_mul_int (x : float) (n : Z) : result float :=
  (y <- float_of_int n ;; Ok (float_mul x y))%res.
Definition int_mul_float (n : Z) (x : float) : result float :=
  (y <- float_of_int n ;; Ok (float_mul y x))%res.
Definition float_add_int (x : float) (n : Z) : result float :=
  (y <- float_of_int n ;; Ok (float_add x y))%res.

Definition signed (s : bool) (m : positive) : Z :=
  if s then Zneg m else Zpos m.

(** [math.floor(x)] *)
Definition math_floor (x : float) : result Z :=
  match x with
  | S754_zero _ => Ok 0
  | S754_infinity _ => Raise OverflowError
  | S754_nan => Raise ValueError
  | S754_finite s m e => Ok (Z.shiftl (signed s m) e)
  end.

(** [int(x)]: truncation towards zero. *)
Definition int_of_float (x : float) : result Z :=
  match x with
  | S754_zero _ => Ok 0
  | S754_infinity _ => Raise OverflowError
  | S754_nan => Raise ValueError
  | S754_finite s m e =>
      let a := Z.shiftl (Zpos m) e in
      Ok (if s then - a else a)
  end.

(** [round(x)] with one argument: the nearest [int], ties to even. *)
Definition py_round (x : float) : result Z :=
  match x with
  | S754_zero _ => Ok 0
  | S754_infinity _ => Raise OverflowError
  | S754_nan => Raise ValueError
  | S754_finite s m e =>
      if 0 <=? e then Ok (Z.shiftl (signed s m) e)
      else
        let q := Z.shiftl (signed s m) e in
        let r := signed s m - Z.shiftl q (- e) in
        let half := Z.shiftl 1 (- e - 1) in
        Ok (if r <? half then q
            else if half <? r then q + 1
            else if Z.even q then q else q + 1)
  end.

(* ================================================================== *)
(** * Coordinate mapping and work partitioning *)

Definition small_to_large_mapping (SCALE_FACTOR : Z)
    (small_pixel large_dimensions : Z * Z) : result (Z * Z) :=
  let '(small_x, small_y) := small_pixel in
  let '(large_w, large_h) := large_dimensions in
  (large_x <-
     (a <- int_truediv large_w SCALE_FACTOR ;;
      b <- int_truediv large_w SCALE_FACTOR ;;
      d <- math_floor b ;;
      c <- float_div_int a d ;;
      p <- float_mul_int c (SCALE_FACTOR * small_x) ;;
      py_round p) ;;
   large_y <-
     (a <- int_truediv large_h SCALE_FACTOR ;;
      b <- int_truediv large_h SCALE_FACTOR ;;
      d <- math_floor b ;;
      c <- float_div_int a d ;;
      p <- float_mul_int c (SCALE_FACTOR * small_y) ;;
      py_round p) ;;
   Ok (large_x, large_y))%res.

(** The task list built by [multiprocess_training_slides_to_images] from
    the number of training slides and [multiprocessing.cpu_count()]. *)
Definition multiprocess_tasks (num_train_images cpu_count : Z)
  : result (list (Z * Z)) :=
  let num_processes := cpu_count in
  let num_processes :=
    if num_processes >? num_train_images then num_train_images
    else num_processes in
  (images_per_process <- int_truediv num_train_images num_processes ;;
   mapM (fun num_process =>
           start_index <-
             (t <- int_mul_float (num_process - 1) images_per_process ;;
              float_add_int t 1) ;;
           end_index <- int_mul_float num_process images_per_process ;;
           start_index <- int_of_float start_index ;;
           end_index <- int_of_float end_index ;;
           Ok (start_index, end_index))
        (range 1 (num_processes + 1)))%res.

(* ================================================================== *)
(** * The world: slide files, image files, directories

    Only what the code observes is kept: which slide files exist and whether
    the slide library can read them, the image files written so far with
    their sizes, the directories known to exist, and which target sizes the
    imaging library's [resize] accepts.  Console output is not modelled. *)

Record Image : Type := { size : Z * Z; mode : string }.

Record Slide : Type :=
  { dimensions : Z * Z;
    level_dimensions : list (Z * Z);
    get_best_level_for_downsample : Z -> nat }.

Record World : Type :=
  { slide_files : list (string * option Slide);
      (* path -> [Some] slide the library reads, [None] when it rejects *)
    files : list (string * Image);
    dirs : list string;
    resize_ok : Z * Z -> bool }.

Fixpoint lookup {A} (k : string) (l : list (string * A)) : option A :=
  match l with
  | [] => None
  | (k', a) :: l' => if String.eqb k k' then Some a else lookup k l'
  end.

(** Writing a file replaces the content of an existing path in place and
    appends a new one at the end of the listing. *)
Fixpoint write_file {A} (k : string) (a : A) (l : list (string * A))
  : list (string * A) :=
  match l with
  | [] => [(k, a)]
  | (k', a') :: l' =>
      if String.eqb k k' then (k, a) :: l' else (k', a') :: write_file k a l'
  end.

(** The state-and-exception monad of the code that touches the world. *)
Definition M (A : Type) : Type := World -> World * result A.

Definition ret {A} (a : A) : M A := fun w => (w, Ok a).
Definition lift {A} (r : result A) : M A := fun w => (w, r).
Definition bindM {A B} (c : M A) (k : A -> M B) : M B :=
  fun w =>
    match c w with
    | (w', Ok a) => k a w'
    | (w', Raise e) => (w', Raise e)
    end.

Declare Scope world_scope.
Delimit Scope world_scope with world.
Notation "x <- c ;; k" := (bindM c (fun x => k))
  (at level 61, c at next level, right associativity) : world_scope.
Notation "c ;;; k" := (bindM c (fun _ => k))
  (at level 61, right associativity) : world_scope.

(** [openslide.open_slide(filename)] *)
Definition openslide_open_slide (filename : string) : M Slide :=
  fun w =>
    match lookup filename (slide_files w) with
    | None => (w, Raise FileNotFoundError)
    | Some None => (w, Raise OpenSlideError)
    | Some (Some slide) => (w, Ok slide)
    end.

(** [os.path.exists(path)] *)
Definition os_path_exists (path : string) : M bool :=
  fun w =>
    (w, Ok (existsb (String.eqb path) (dirs w)
            || existsb (fun f => String.eqb path (fst f)) (files w)
            || existsb (fun f => String.eqb path (fst f)) (slide_files w))%bool).

(** [os.makedirs(path)] *)
Definition os_makedirs (path : string) : M unit :=
  fun w =>
    ({| slide_files := slide_files w; files := files w;
        dirs := path :: dirs w; resize_ok := resize_ok w |}, Ok tt).

(** [img.save(path)] *)
Definition image_save (img : Image) (path : string) : M unit :=
  fun w =>
    ({| slide_files := slide_files w; files := write_file path img (files w);
        dirs := dirs w; resize_ok := resize_ok w |}, Ok tt).

(** [img.resize(size, PIL.Image.BILINEAR)] *)
Definition image_resize (img : Image) (new_size : Z * Z) : M Image :=
  fun w =>
    if resize_ok w new_size
    then (w, Ok {| size := new_size; mode := mode img |})
    else (w, Raise ValueError).

(** [slide.read_region((0, 0), level, size)]: an RGBA image of that size. *)
Definition read_region (slide : Slide) (level : nat) (sz : Z * Z) : Image :=
  {| size := sz; mode := "RGBA" |}.

(** [img.convert(mode)] *)
Definition image_convert (img : Image) (m : string) : Image :=
  {| size := size img; mode := m |}.

(** [os.path.dirname(path)] *)
Fixpoint split_last_sep (s : string) : option (string * string) :=
  match s with
  | EmptyString => None
  | String c r =>
      match split_last_sep r with
      | Some (h, t) => Some (String c h, t)
      | None => if Ascii.eqb c "/" then Some (String c EmptyString, r) else None
      end
  end.

Fixpoint all_sep (s : string) : bool :=
  match s with
  | EmptyString => true
  | String c r => Ascii.eqb c "/" && all_sep r
  end.

Fixpoint rstrip_sep (s : string) : string :=
  match s with
  | EmptyString => EmptyString
  | String c r =>
      let r' := rstrip_sep r in
      match r' with
      | EmptyString => if Ascii.eqb c "/" then EmptyString else String c EmptyString
      | _ => String c r'
      end
  end.

Definition os_path_dirname (path : string) : string :=
  match split_last_sep path with
  | None => ""
  | Some (head, _) => if all_sep head then head else rstrip_sep head
  end.

(** [glob.glob(dir + os.sep + pre + "*" + suf)] over the image files: the
    paths, in listing order, of the files of [dir] whose name starts with
    [pre] and goes on with something that ends with [suf]. *)
Fixpoint strip_prefix (pre s : string) : option string :=
  match pre, s with
  | EmptyString, _ => Some s
  | String a pre', String b s' =>
      if Ascii.eqb a b then strip_prefix pre' s' else None
  | String _ _, EmptyString => None
  end.

Fixpoint ends_with (suf s : string) : bool :=
  String.eqb suf s ||
  match s with
  | EmptyString => false
  | String _ s' => ends_with suf s'
  end.

Fixpoint has_char (c : ascii) (s : string) : bool :=
  match s with
  | EmptyString => false
  | String c' s' => Ascii.eqb c c' || has_char c s'
  end.

Definition fnmatch_star (pre suf name : string) : bool :=
  match strip_prefix pre name with
  | Some rest => ends_with suf rest
  | None => false
  end.

Definition glob_star {A} (dir pre suf : string) (l : list (string * A))
  : list string :=
  map fst
    (filter (fun f =>
               match strip_prefix (dir ++ os_sep) (fst f) with
               | Some name => negb (has_char "/" name) && fnmatch_star pre suf name
               | None => false
               end) l).

Definition glob_images (dir pre suf : string) : M (list string) :=
  fun w => (w, Ok (glob_star dir pre suf (files w))).

(** [l[0]] *)
Definition first_of {A} (l : list A) : result A :=
  match l with
  | [] => Raise IndexError
  | a :: _ => Ok a
  end.

(* ================================================================== *)
(** * Paths *)

(** [str(v)] for an optional [int] argument. *)
Definition str_opt (v : option Z) : string :=
  match v with
  | Some n => str n
  | None => "None"
  end.

Definition is_None {A} (v : option A) : bool :=
  match v with
  | None => true
  | Some _ => false
  end.

Definition get_training_slide_path (slide_number : Z) : string :=
  let padded_sl_num := zfill 3 (str slide_number) in
  SRC_TRAIN_DIR ++ os_sep ++ TRAIN_PREFIX ++ padded_sl_num ++ "." ++ SRC_TRAIN_EXT.

Definition get_training_image_path (SCALE_FACTOR : Z) (slide_number : Z)
    (large_w large_h small_w small_h : option Z) : M string :=
  let padded_sl_num := zfill 3 (str slide_number) in
  if (is_None large_w && is_None large_h && is_None small_w && is_None small_h)%bool
  then
    (found <- glob_images DEST_TRAIN_DIR (TRAIN_PREFIX ++ padded_sl_num)
                ("." ++ DEST_TRAIN_EXT) ;;
     lift (first_of found))%world
  else
    ret (DEST_TRAIN_DIR ++ os_sep ++ TRAIN_PREFIX ++ padded_sl_num ++ "-"
         ++ str SCALE_FACTOR ++ "x-" ++ DEST_TRAIN_SUFFIX ++ str_opt large_w
         ++ "x" ++ str_opt large_h ++ "-" ++ str_opt small_w ++ "x"
         ++ str_opt small_h ++ "." ++ DEST_TRAIN_EXT).

Definition get_training_thumbnail_path (SCALE_FACTOR : Z) (slide_number : Z)
    (large_w large_h small_w small_h : option Z) : M string :=
  let padded_sl_num := zfill 3 (str slide_number) in
  if (is_None large_w && is_None large_h && is_None small_w && is_None small_h)%bool
  then
    (found <- glob_images DEST_TRAIN_THUMBNAIL_DIR (TRAIN_PREFIX ++ padded_sl_num)
                ("." ++ THUMBNAIL_EXT) ;;
     lift (first_of found))%world
  else
    ret (DEST_TRAIN_THUMBNAIL_DIR ++ os_sep ++ TRAIN_PREFIX ++ padded_sl_num
         ++ "-" ++ str SCALE_FACTOR ++ "x-" ++ DEST_TRAIN_SUFFIX
         ++ str_opt large_w ++ "x" ++ str_opt large_h ++ "-" ++ str_opt small_w
         ++ "x" ++ str_opt small_h ++ "." ++ THUMBNAIL_EXT).

Definition get_filter_image_filename (slide_number filter_number : Z)
    (filter_name_info : string) (thumbnail : bool) : string :=
  let ext := if thumbnail then THUMBNAIL_EXT else DEST_TRAIN_EXT in
  let padded_sl_num := zfill 3 (str slide_number) in
  let padded_fi_num := zfill 3 (str filter_number) in
  TRAIN_PREFIX ++ padded_sl_num ++ "-" ++ padded_fi_num ++ "-" ++ FILTER_SUFFIX
  ++ filter_name_info ++ "." ++ ext.

Definition ensure_dir (dir : string) : M unit :=
  (e <- os_path_exists dir ;;
   if e : bool then ret tt else os_makedirs dir)%world.

Definition get_filter_image_path (slide_number filter_number : Z)
    (filter_name_info : string) : M string :=
  let dir := FILTER_DIR in
  (ensure_dir dir ;;;
   ret (dir ++ os_sep
        ++ get_filter_image_filename slide_number filter_number filter_name_info false))%world.

Definition get_filter_thumbnail_path (slide_number filter_number : Z)
    (filter_name_info : string) : M string :=
  let dir := FILTER_THUMBNAIL_DIR in
  (ensure_dir dir ;;;
   ret (dir ++ os_sep
        ++ get_filter_image_filename slide_number filter_number filter_name_info true))%world.

Definition get_tile_summary_image_filename (SCALE_FACTOR : Z) (slide_number : Z)
    (thumbnail : bool) : M string :=
  let ext := if thumbnail then THUMBNAIL_EXT else DEST_TRAIN_EXT in
  let padded_sl_num := zfill 3 (str slide_number) in
  (training_img_path <-
     get_training_image_path SCALE_FACTOR slide_number None None None None ;;
   dims <- lift (parse_dimensions_from_training_image_filename training_img_path) ;;
   let '(large_w, large_h, small_w, small_h) := dims in
   ret (TRAIN_PREFIX ++ padded_sl_num ++ "-" ++ str SCALE_FACTOR ++ "x-"
        ++ large_w ++ "x" ++ large_h ++ "-" ++ small_w ++ "x" ++ small_h ++ "-"
        ++ TILE_SUMMARY_SUFFIX ++ "." ++ ext))%world.





Definition get_filter_image_result (SCALE_FACTOR : Z) (slide_number : Z)
  : M string :=
  let padded_sl_num := zfill 3 (str slide_number) in
  (training_img_path <-
     get_training_image_path SCALE_FACTOR slide_number None None None None ;;
   dims <- lift (parse_dimensions_from_training_image_filename training_img_path) ;;
   let '(large_w, large_h, small_w, small_h) := dims in
   ret (FILTER_DIR ++ os_sep ++ TRAIN_PREFIX ++ padded_sl_num ++ "-"
        ++ str SCALE_FACTOR ++ "x-" ++ FILTER_SUFFIX ++ large_w ++ "x" ++ large_h
        ++ "-" ++ small_w ++ "x" ++ small_h ++ "-" ++ FILTER_RESULT_TEXT ++ "."
        ++ DEST_TRAIN_EXT))%world.

Definition get_filter_thumbnail_result (SCALE_FACTOR : Z) (slide_number : Z)
  : M string :=
  let padded_sl_num := zfill 3 (str slide_number) in
  (training_img_path <-
     get_training_image_path SCALE_FACTOR slide_number None None None None ;;
   dims <- lift (parse_dimensions_from_training_image_filename training_img_path) ;;
   let '(large_w, large_h, small_w, small_h) := dims in
   ret (FILTER_THUMBNAIL_DIR ++ os_sep ++ TRAIN_PREFIX ++ padded_sl_num ++ "-"
        ++ str SCALE_FACTOR ++ "x-" ++ FILTER_SUFFIX ++ large_w ++ "x" ++ large_h
        ++ "-" ++ small_w ++ "x" ++ small_h ++ "-" ++ FILTER_RESULT_TEXT ++ "."
        ++ THUMBNAIL_EXT))%world.

(* ================================================================== *)
(** * Opening and converting slides *)

(** [open_slide]: both exceptions of the slide library become [None]. *)
Definition open_slide (filename : string) : M (option Slide) :=
  fun w =>
    match openslide_open_slide filename w with
    | (w', Ok slide) => (w', Ok (Some slide))
    | (w', Raise OpenSlideError) => (w', Ok None)
    | (w', Raise FileNotFoundError) => (w', Ok None)
    | (w', Raise e) => (w', Raise e)
    end.

(** Attribute access on a value that may be [None]. *)
Definition attr {A B} (o : option A) (f : A -> B) : result B :=
  match o with
  | Some a => Ok (f a)
  | None => Raise AttributeError
  end.

(** [l[i]] *)
Definition index {A} (l : list A) (i : nat) : result A :=
  match nth_error l i with
  | Some a => Ok a
  | None => Raise IndexError
  end.

Definition save_thumbnail (pil_img : Image) (size_ : Z) (path : string) : M unit :=
  let '(w, h) := size pil_img in
  (mw <- lift (a <- int_truediv (size_ * w) (Z.max w h) ;; py_round a)%res ;;
   mh <- lift (a <- int_truediv (size_ * h) (Z.max w h) ;; py_round a)%res ;;
   let max_size := (mw, mh) in
   img <- image_resize pil_img max_size ;;
   let dir := os_path_dirname path in
   ensure_dir dir ;;;
   image_save img path)%world.

Definition training_slide_to_image (SCALE_FACTOR : Z) (slide_number : Z) : M unit :=
  let slide_filepath := get_training_slide_path slide_number in
  (slide <- open_slide slide_filepath ;;
   dims <- lift (attr slide dimensions) ;;
   let '(large_w, large_h) := dims in
   new_w <- lift (a <- int_truediv large_w SCALE_FACTOR ;; math_floor a)%res ;;
   new_h <- lift (a <- int_truediv large_h SCALE_FACTOR ;; math_floor a)%res ;;
   level <- lift (attr slide (fun sl => get_best_level_for_downsample sl SCALE_FACTOR)) ;;
   level_dims <- lift (l <- attr slide level_dimensions ;; index l level)%res ;;
   sl <- lift (attr slide (fun sl => sl)) ;;
   let whole_slide_image := read_region sl level level_dims in
   let whole_slide_image := image_convert whole_slide_image "RGB" in
   img <- image_resize whole_slide_image (new_w, new_h) ;;
   img_path <- get_training_image_path SCALE_FACTOR slide_number
                 (Some large_w) (Some large_h) (Some new_w) (Some new_h) ;;
   ensure_dir DEST_TRAIN_DIR ;;;
   image_save img img_path ;;;
   thumbnail_path <- get_training_thumbnail_path SCALE_FACTOR slide_number
                       (Some large_w) (Some large_h) (Some new_w) (Some new_h) ;;
   save_thumbnail img THUMBNAIL_SIZE thumbnail_path)%world.

(** [glob.glob1(dir, "*" + suf)] over the slide files: names that do not
    start with a dot. *)
Definition starts_with_dot (s : string) : bool :=
  match s with
  | String c _ => Ascii.eqb c "."
  | EmptyString => false
  end.

Definition glob1_star {A} (dir suf : string) (l : list (string * A)) : list string :=
  filter (fun name => negb (starts_with_dot name) && ends_with suf name)
    (flat_map (fun f =>
                 match strip_prefix (dir ++ os_sep) (fst f) with
                 | Some name => if has_char "/" name then [] else [name]
                 | None => []
                 end) l).

Definition get_num_training_slides : M Z :=
  fun w =>
    (w, Ok (Z.of_nat (List.length
                        (glob1_star SRC_TRAIN_DIR ("." ++ SRC_TRAIN_EXT) (slide_files w))))).

(** [for x in l: body(x)] *)
Fixpoint for_each {A} (l : list A) (body : A -> M unit) : M unit :=
  match l with
  | [] => ret tt
  | a :: l' => (body a ;;; for_each l' body)%world
  end.

Definition training_slide_range_to_images (SCALE_FACTOR : Z) (start_ind end_ind : Z)
  : M (Z * Z) :=
  (for_each (range start_ind (end_ind + 1))
            (fun slide_num => training_slide_to_image SCALE_FACTOR slide_num) ;;;
   ret (start_ind, end_ind))%world.

Definition singleprocess_training_slides_to_images (SCALE_FACTOR : Z) : M unit :=
  (num_train_images <- get_num_training_slides ;;
   training_slide_range_to_images SCALE_FACTOR 1 num_train_images ;;;
   ret tt)%world.

Definition demo_slide : Slide :=
  {| dimensions := (49920, 108288);
     level_dimensions := [(49920, 108288); (12480, 27072); (3120, 6768)];
     get_best_level_for_downsample := fun _ => 2%nat |}.
Definition demo_world : World :=
  {| slide_files := [("../data/training_slides/TUPAC-TR-005.svs", Some demo_slide);
                     ("../data/training_slides/TUPAC-TR-006.svs", None)];
     files := []; dirs := [];
     resize_ok := fun sz => (1 <=? fst sz) && (1 <=? snd sz) |}.

(* ================================================================== *)
(** * Strings: basic facts *)

Lemma append_assoc (a b c : string) : (a ++ b) ++ c = a ++ (b ++ c).
Proof. induction a as [|x a IH]; simpl; [reflexivity | now rewrite IH]. Qed.

Lemma append_nil_r (a : string) : a ++ "" = a.
Proof. induction a as [|x a IH]; simpl; [reflexivity | now rewrite IH]. Qed.

(** Every character is accepted by the dot. *)
Fixpoint no_newline (s : string) : bool :=
  match s with
  | EmptyString => true
  | String c s' => negb (is_newline c) && no_newline s'
  end.

Definition is_digit (c : ascii) : bool :=
  match c with
  | "0" | "1" | "2" | "3" | "4" | "5" | "6" | "7" | "8" | "9" => true
  | _ => false
  end%char.

Fixpoint all_digits (s : string) : bool :=
  match s with
  | EmptyString => true
  | String c s' => is_digit c && all_digits s'
  end.

Lemma no_newline_app (a b : string) :
  no_newline (a ++ b) = no_newline a && no_newline b.
Proof.
  induction a as [|x a IH]; simpl; [reflexivity|].
  now rewrite IH, andb_assoc.
Qed.

Lemma is_digit_not_newline (c : ascii) : is_digit c = true -> is_newline c = false.
Proof.
  destruct c as [[] [] [] [] [] [] [] []]; simpl; intros H;
    solve [reflexivity | discriminate H].
Qed.

Lemma all_digits_no_newline (s : string) : all_digits s = true -> no_newline s = true.
Proof.
  induction s as [|c s IH]; simpl; [reflexivity|].
  intros H. apply andb_true_iff in H as [Hc Hs].
  now rewrite (is_digit_not_newline _ Hc), IH.
Qed.

Lemma all_digits_uint (d : Decimal.uint) :
  all_digits (NilEmpty.string_of_uint d) = true.
Proof. induction d; simpl; auto. Qed.

Lemma all_digits_str (n : Z) : 0 <= n -> all_digits (str n) = true.
Proof.
  intros Hn. unfold str.
  destruct n as [|p|p]; [reflexivity | | lia].
  simpl. unfold NilZero.string_of_uint.
  destruct (Pos.to_uint p) eqn:E; try reflexivity; rewrite <- E;
    apply all_digits_uint.
Qed.

Lemma no_newline_str (n : Z) : no_newline (str n) = true.
Proof.
  destruct n as [|p|p]; [reflexivity | | ].
  - apply all_digits_no_newline, all_digits_str. lia.
  - unfold str. simpl. unfold NilZero.string_of_uint.
    destruct (Pos.to_uint p) eqn:E; try reflexivity; rewrite <- E;
      apply all_digits_no_newline, all_digits_uint.
Qed.

Lemma no_newline_zeros (k : nat) : no_newline (zeros k) = true.
Proof. induction k; simpl; auto. Qed.

Lemma no_newline_zfill (w : nat) (s : string) :
  no_newline s = true -> no_newline (zfill w s) = true.
Proof.
  intros H. unfold zfill.
  destruct (w <=? String.length s)%nat; [exact H|].
  destruct s as [|c r]; [apply no_newline_zeros|].
  simpl in H. apply andb_true_iff in H as [Hc Hr].
  destruct (Ascii.eqb c "+" || Ascii.eqb c "-")%bool; simpl.
  - now rewrite Hc, no_newline_app, no_newline_zeros, Hr.
  - now rewrite no_newline_app, no_newline_zeros; simpl; rewrite Hc, Hr.
Qed.

Lemma int_of_str_str (n : Z) : int_of_str (str n) = Some n.
Proof.
  unfold int_of_str, str.
  destruct n as [|p|p]; [reflexivity | | ].
  - rewrite NilZero.isi.
    + simpl. f_equal. exact (DecimalZ.of_to (Zpos p)).
    + simpl. intros [= E]. now apply (DecimalPos.Unsigned.to_uint_nonnil p).
    + discriminate.
  - rewrite NilZero.isi.
    + simpl. f_equal. exact (DecimalZ.of_to (Zneg p)).
    + discriminate.
    + simpl. intros [= E]. now apply (DecimalPos.Unsigned.to_uint_nonnil p).
Qed.

(* ================================================================== *)
(** * The matcher: soundness, completeness, greedy choice *)


(** The literal characters of a pattern, in order. *)
Fixpoint lits (p : list re_item) : list ascii :=
  match p with
  | [] => []
  | Char c :: p' => c :: lits p'
  | _ :: p' => lits p'
  end.

(** [l] is a subsequence of the characters of [s]. *)
Fixpoint subseqb (l : list ascii) (s : string) {struct s} : bool :=
  match l, s with
  | [], _ => true
  | _ :: _, EmptyString => false
  | c :: l', String c' s' =>
      if Ascii.eqb c c' then subseqb l' s' else subseqb l s'
  end.

Section Greedy.
Context {G : Type} (k : string -> option G).

Lemma greedy_sound (s cap : string) (g : G) :
  greedy k s = Some (cap, g) ->
  exists rest, s = cap ++ rest /\ no_newline cap = true /\ k rest = Some g.
Proof.
  revert cap g. induction s as [|c s IH]; intros cap g; simpl.
  - destruct (k "") eqn:E; simpl; intros [= <- <-].
    exists "". auto.
  - destruct (is_newline c) eqn:Hc.
    + destruct (k (String c s)) eqn:E; simpl; intros [= <- <-].
      exists (String c s). auto.
    + destruct (greedy k s) as [[cap' g']|] eqn:Eg.
      * intros [= <- <-]. destruct (IH _ _ eq_refl) as (rest & -> & Hn & Hk).
        exists rest. simpl. now rewrite Hc, Hn.
      * destruct (k (String c s)) eqn:E; simpl; intros [= <- <-].
        exists (String c s). auto.
Qed.

Lemma greedy_none (s : string) :
  (forall u v, s = u ++ v -> k v = None) -> greedy k s = None.
Proof.
  induction s as [|c s IH]; intros H; simpl.
  - now rewrite (H "" "" eq_refl).
  - rewrite (H "" (String c s) eq_refl). simpl.
    rewrite IH.
    + now destruct (is_newline c).
    + intros u v ->. apply (H (String c u) v). reflexivity.
Qed.

(** The greedy choice: a cut after which the continuation succeeds is the
    one taken when the continuation fails on everything further right. *)
Lemma greedy_longest (cap : string) (c : ascii) (r : string) (g : G) :
  no_newline cap = true ->
  k (String c r) = Some g ->
  (forall u v, r = u ++ v -> k v = None) ->
  greedy k (cap ++ String c r) = Some (cap, g).
Proof.
  intros Hn Hk Hfail. induction cap as [|x cap IH]; simpl.
  - rewrite Hk, (greedy_none _ Hfail). simpl. now destruct (is_newline c).
  - simpl in Hn. apply andb_true_iff in Hn as [Hx Hn].
    apply negb_true_iff in Hx. now rewrite Hx, (IH Hn).
Qed.

End Greedy.



Lemma subseqb_cons_tail (s : string) :
  (forall l c, subseqb l s = true -> subseqb l (String c s) = true) /\
  (forall a l, subseqb (a :: l) s = true -> subseqb l s = true).
Proof.
  induction s as [|x s [IHc IHt]].
  - split.
    + intros [|a l] c H; [reflexivity | discriminate H].
    + intros a l H. discriminate H.
  - assert (Ht : forall a l, subseqb (a :: l) (String x s) = true ->
                             subseqb l (String x s) = true).
    { intros a l H. simpl in H. apply IHc.
      destruct (Ascii.eqb a x); [exact H | exact (IHt _ _ H)]. }
    split; [|exact Ht].
    intros [|a l] c H; [reflexivity|].
    change (subseqb (a :: l) (String c (String x s)))
      with (if Ascii.eqb a c then subseqb l (String x s)
            else subseqb (a :: l) (String x s)).
    destruct (Ascii.eqb a c); [exact (Ht _ _ H) | exact H].
Qed.

Lemma subseqb_app_l (l : list ascii) (u s : string) :
  subseqb l s = true -> subseqb l (u ++ s) = true.
Proof.
  intros H. induction u as [|x u IH]; simpl; [exact H|].
  now apply (proj1 (subseqb_cons_tail _)).
Qed.

(** A match needs the literal characters of the pattern, in order. *)
Lemma re_match_subseq (p : list re_item) :
  forall s gs, re_match p s = Some gs -> subseqb (lits p) s = true.
Proof.
  induction p as [|[| |c] p IH]; intros s gs; simpl.
  - intros _. now destruct s.
  - destruct (greedy (re_match p) s) as [[cap g]|] eqn:E; simpl; intros [= <-].
    destruct (greedy_sound _ _ _ _ E) as (rest & -> & _ & Hk).
    apply subseqb_app_l. eauto.
  - destruct (greedy (re_match p) s) as [[cap g]|] eqn:E; intros [= <-].
    destruct (greedy_sound _ _ _ _ E) as (rest & -> & _ & Hk).
    apply subseqb_app_l. eauto.
  - destruct s as [|c' s]; [discriminate|]. simpl.
    destruct (Ascii.eqb c c'); [|discriminate]. eauto.
Qed.

Lemma re_match_fails_right (p : list re_item) (r : string) :
  subseqb (lits p) r = false ->
  forall u v, r = u ++ v -> re_match p v = None.
Proof.
  intros H u v ->. destruct (re_match p v) as [gs|] eqn:E; [|reflexivity].
  apply re_match_subseq in E. apply (subseqb_app_l _ u) in E. congruence.
Qed.

(** One step of the parser: a capturing or plain dot-star takes exactly
    [cap] when the rest starts the continuation and the literals still to be
    matched do not fit in what follows. *)
Lemma group_step (p : list re_item) (cap : string) (c : ascii) (r : string)
    (gs : list string) :
  no_newline cap = true ->
  re_match p (String c r) = Some gs ->
  subseqb (lits p) r = false ->
  re_match (Group_dot_star :: p) (cap ++ String c r) = Some (cap :: gs).
Proof.
  intros Hn Hk Hs. simpl.
  erewrite greedy_longest;
    [reflexivity | assumption | eassumption | now apply re_match_fails_right].
Qed.

Lemma star_step (p : list re_item) (cap : string) (c : ascii) (r : string)
    (gs : list string) :
  no_newline cap = true ->
  re_match p (String c r) = Some gs ->
  subseqb (lits p) r = false ->
  re_match (Dot_star :: p) (cap ++ String c r) = Some gs.
Proof.
  intros Hn Hk Hs. simpl.
  erewrite greedy_longest;
    [reflexivity | assumption | eassumption | now apply re_match_fails_right].
Qed.

Lemma re_match_last_star (s : string) : re_match [Dot_star] s = Some [].
Proof.
  simpl. induction s as [|c s IH]; simpl; [reflexivity|].
  destruct (is_newline c); [reflexivity|].
  destruct (greedy (fun _ => Some []) s) as [[cap g]|]; [|discriminate].
  simpl in *. congruence.
Qed.

Lemma has_char_digits (c : ascii) (d : string) :
  all_digits d = true -> is_digit c = false -> has_char c d = false.
Proof.
  intros Hd Hc. induction d as [|x d IH]; simpl; [reflexivity|].
  simpl in Hd. apply andb_true_iff in Hd as [Hx Hd].
  rewrite (IH Hd), orb_false_r.
  destruct (Ascii.eqb_spec c x) as [->|]; congruence.
Qed.

(** Characters that cannot be the next literal are skipped. *)
Lemma subseqb_skip (c : ascii) (l : list ascii) (d r : string) :
  has_char c d = false ->
  subseqb (c :: l) (d ++ r) = subseqb (c :: l) r.
Proof.
  induction d as [|x d IH]; simpl; [reflexivity|].
  intros H. apply orb_false_iff in H as [Hx Hd].
  now rewrite Hx, (IH Hd).
Qed.

Lemma subseqb_skip_digits (c : ascii) (l : list ascii) (d r : string) :
  all_digits d = true -> is_digit c = false ->
  subseqb (c :: l) (d ++ r) = subseqb (c :: l) r.
Proof. intros Hd Hc. apply subseqb_skip, has_char_digits; assumption. Qed.

Lemma re_match_char (c : ascii) (p : list re_item) (s : string) :
  re_match (Char c :: p) (String c s) = re_match p s.
Proof. simpl. now rewrite Ascii.eqb_refl. Qed.

Lemma subseqb_eq (c : ascii) (l : list ascii) (s : string) :
  subseqb (c :: l) (String c s) = subseqb l s.
Proof. simpl. now rewrite Ascii.eqb_refl. Qed.

Lemma subseqb_neq (c x : ascii) (l : list ascii) (s : string) :
  Ascii.eqb c x = false -> subseqb (c :: l) (String x s) = subseqb (c :: l) s.
Proof. intros H. simpl. now rewrite H. Qed.

Lemma subseqb_tail_false (a : ascii) (l : list ascii) (s : string) :
  subseqb l s = false -> subseqb (a :: l) s = false.
Proof.
  intros H. destruct (subseqb (a :: l) s) eqn:E; [|reflexivity].
  apply (proj2 (subseqb_cons_tail s)) in E. congruence.
Qed.

Ltac skip_chars :=
  repeat first
    [ rewrite subseqb_skip_digits by (assumption || reflexivity)
    | rewrite subseqb_eq
    | rewrite subseqb_neq by reflexivity ].

(** The parser on a name that ends with the dimension suffix, some text [X]
    and an extension [E]: the first three groups are the three numbers and
    the fourth is the last number together with [X]. *)
Lemma parse_dimension_suffix (P LW LH SW SH X E : string) :
  no_newline P = true ->
  all_digits LW = true -> all_digits LH = true ->
  all_digits SW = true -> all_digits SH = true ->
  no_newline X = true ->
  subseqb ["x"; "."]%char (X ++ String "." E) = false ->
  subseqb ["."]%char E = false ->
  parse_dimensions_from_training_image_filename
    (P ++ "-" ++ LW ++ "x" ++ LH ++ "-" ++ SW ++ "x" ++ SH ++ X ++ "." ++ E)
  = Ok (LW, LH, SW, SH ++ X).
Proof.
  intros HP HLW HLH HSW HSH HX C2 C3.
  assert (C1 : subseqb ["-"; "x"; "."]%char (X ++ String "." E) = false)
    by now apply subseqb_tail_false.
  unfold parse_dimensions_from_training_image_filename, dimensions_pattern.
  cbn [append].
  assert (H4 : re_match [Group_dot_star; Char "."; Dot_star]
                 (SH ++ X ++ String "." E) = Some [SH ++ X]).
  { rewrite <- append_assoc. apply group_step.
    - rewrite no_newline_app, HX, (all_digits_no_newline _ HSH). reflexivity.
    - rewrite re_match_char. apply re_match_last_star.
    - exact C3. }
  assert (H3 : re_match [Group_dot_star; Char "x"; Group_dot_star; Char ".";
                         Dot_star]
                 (SW ++ String "x" (SH ++ X ++ String "." E))
               = Some [SW; SH ++ X]).
  { apply group_step.
    - now apply all_digits_no_newline.
    - rewrite re_match_char. exact H4.
    - cbn [lits]. skip_chars. exact C2. }
  assert (H2 : re_match [Group_dot_star; Char "-"; Group_dot_star; Char "x";
                         Group_dot_star; Char "."; Dot_star]
                 (LH ++ String "-" (SW ++ String "x" (SH ++ X ++ String "." E)))
               = Some [LH; SW; SH ++ X]).
  { apply group_step.
    - now apply all_digits_no_newline.
    - rewrite re_match_char. exact H3.
    - cbn [lits]. skip_chars. exact C1. }
  assert (H1 : re_match [Group_dot_star; Char "x"; Group_dot_star; Char "-";
                         Group_dot_star; Char "x"; Group_dot_star; Char ".";
                         Dot_star]
                 (LW ++ String "x" (LH ++ String "-"
                    (SW ++ String "x" (SH ++ X ++ String "." E))))
               = Some [LW; LH; SW; SH ++ X]).
  { apply group_step.
    - now apply all_digits_no_newline.
    - rewrite re_match_char. exact H2.
    - cbn [lits]. skip_chars. exact C1. }
  rewrite (star_step _ P "-"%char _ [LW; LH; SW; SH ++ X]);
    [reflexivity | exact HP | | ].
  - rewrite re_match_char. exact H1.
  - cbn [lits]. skip_chars. exact C1.
Qed.

(* ================================================================== *)
(** * The codec: encoding a path, decoding it again *)

Lemma no_newline_padded (n : Z) : no_newline (zfill 3 (str n)) = true.
Proof. apply no_newline_zfill, no_newline_str. Qed.

Lemma training_image_path_with_dimensions (s n lw lh sw sh : Z) (w : World) :
  get_training_image_path s n (Some lw) (Some lh) (Some sw) (Some sh) w
  = (w, Ok ((DEST_TRAIN_DIR ++ os_sep ++ TRAIN_PREFIX ++ zfill 3 (str n) ++ "-"
             ++ str s ++ "x")
            ++ "-" ++ str lw ++ "x" ++ str lh ++ "-" ++ str sw ++ "x" ++ str sh
            ++ "" ++ "." ++ DEST_TRAIN_EXT)).
Proof.
  unfold get_training_image_path, ret. cbn [is_None andb str_opt].
  do 2 f_equal. rewrite !append_assoc. reflexivity.
Qed.

(** The path encoded from four positive dimensions is parsed to their
    decimal strings. *)
Lemma parse_encoded_training_path (s n lw lh sw sh : Z) (w : World) :
  0 < lw -> 0 < lh -> 0 < sw -> 0 < sh ->
  exists path,
    get_training_image_path s n (Some lw) (Some lh) (Some sw) (Some sh) w
    = (w, Ok path)
    /\ parse_dimensions_from_training_image_filename path
       = Ok (str lw, str lh, str sw, str sh).
Proof.
  intros Hlw Hlh Hsw Hsh.
  eexists. split; [apply training_image_path_with_dimensions|].
  rewrite parse_dimension_suffix; try (apply all_digits_str; lia);
    try reflexivity.
  - now rewrite append_nil_r.
  - rewrite !no_newline_app, no_newline_padded, no_newline_str. reflexivity.
Qed.

(** C1. Codec round trip: for positive [s], [lw], [lh], [sw], [sh] and any
    slide number, the path that [get_training_image_path] builds with
    [SCALE_FACTOR = s] is decoded by
    [parse_dimensions_from_training_image_filename] to exactly the four
    dimensions: the groups are their decimal strings, which read back as the
    four integers. *)
Theorem codec_round_trip (s n lw lh sw sh : Z) (w : World) :
  0 < s -> 0 < lw -> 0 < lh -> 0 < sw -> 0 < sh ->
  exists path,
    get_training_image_path s n (Some lw) (Some lh) (Some sw) (Some sh) w
    = (w, Ok path)
    /\ parse_dimensions_from_training_image_filename path
       = Ok (str lw, str lh, str sw, str sh)
    /\ (int_of_str (str lw), int_of_str (str lh),
        int_of_str (str sw), int_of_str (str sh))
       = (Some lw, Some lh, Some sw, Some sh).
Proof.
  intros Hs Hlw Hlh Hsw Hsh.
  destruct (parse_encoded_training_path s n lw lh sw sh w Hlw Hlh Hsw Hsh)
    as (path & Hpath & Hparse).
  exists path. split; [exact Hpath|]. split; [exact Hparse|].
  now rewrite !int_of_str_str.
Qed.

Lemma codec_round_trip_witness :
  exists path,
    get_training_image_path 32 5 (Some 49920) (Some 108288) (Some 1560)
      (Some 3384) demo_world = (demo_world, Ok path)
    /\ parse_dimensions_from_training_image_filename path
       = Ok (str 49920, str 108288, str 1560, str 3384)
    /\ (int_of_str (str 49920), int_of_str (str 108288),
        int_of_str (str 1560), int_of_str (str 3384))
       = (Some 49920, Some 108288, Some 1560, Some 3384).
Proof.
  apply (codec_round_trip 32 5 49920 108288 1560 3384 demo_world); lia.
Defined.

(** A world in which slide 5 has been converted. *)
Definition converted_world : World :=
  fst (training_slide_to_image 32 5 demo_world).

Lemma filter_image_result_shape (s n : Z) (w : World) (tpath LW LH SW SH : string) :
  get_training_image_path s n None None None None w = (w, Ok tpath) ->
  parse_dimensions_from_training_image_filename tpath = Ok (LW, LH, SW, SH) ->
  get_filter_image_result s n w
  = (w, Ok ((FILTER_DIR ++ os_sep ++ TRAIN_PREFIX ++ zfill 3 (str n) ++ "-"
             ++ str s ++ "x")
            ++ "-" ++ LW ++ "x" ++ LH ++ "-" ++ SW ++ "x" ++ SH
            ++ ("-" ++ FILTER_RESULT_TEXT) ++ "." ++ DEST_TRAIN_EXT)).
Proof.
  intros Hg Hp. unfold get_filter_image_result, bindM, lift, ret.
  rewrite Hg, Hp. do 2 f_equal. rewrite !append_assoc. reflexivity.
Qed.

(** C6 (as the code behaves). On the name that [get_filter_image_result]
    derives from an encoded training image, the parser returns the large
    width, the large height and the small width, and as fourth value the
    small height followed by the text ["-filtered"]. *)
Theorem filter_result_name_decoding (s n lw lh sw sh : Z) (w : World)
    (tpath : string) :
  0 < s -> 0 < lw -> 0 < lh -> 0 < sw -> 0 < sh ->
  get_training_image_path s n (Some lw) (Some lh) (Some sw) (Some sh) w
  = (w, Ok tpath) ->
  get_training_image_path s n None None None None w = (w, Ok tpath) ->
  exists fpath,
    get_filter_image_result s n w = (w, Ok fpath)
    /\ parse_dimensions_from_training_image_filename fpath
       = Ok (str lw, str lh, str sw, str sh ++ "-" ++ FILTER_RESULT_TEXT).
Proof.
  intros Hs Hlw Hlh Hsw Hsh Henc Hglob.
  destruct (parse_encoded_training_path s n lw lh sw sh w Hlw Hlh Hsw Hsh)
    as (path & Hpath & Hparse).
  rewrite Henc in Hpath. injection Hpath as <-.
  eexists. split; [exact (filter_image_result_shape _ _ _ _ _ _ _ _ Hglob Hparse)|].
  rewrite parse_dimension_suffix; try (apply all_digits_str; lia);
    try reflexivity.
  rewrite !no_newline_app, no_newline_padded, no_newline_str. reflexivity.
Qed.

Lemma filter_result_name_decoding_witness :
  exists fpath,
    get_filter_image_result 32 5 converted_world = (converted_world, Ok fpath)
    /\ parse_dimensions_from_training_image_filename fpath
       = Ok (str 49920, str 108288, str 1560, str 3384 ++ "-" ++ FILTER_RESULT_TEXT).
Proof.
  apply (filter_result_name_decoding 32 5 49920 108288 1560 3384
           converted_world
           "../data/training_png/TUPAC-TR-005-32x-49920x108288-1560x3384.png");
    try lia; reflexivity.
Defined.

(** C6, counterexample to the claim as stated: for slide 5 of size 49920 x
    108288 converted at scale 32, the fourth value parsed from the filter
    result name is not the small height 3384. *)
Lemma filter_result_name_counterexample :
  get_filter_image_result 32 5 converted_world
  = (converted_world,
     Ok "../data/filter_png/TUPAC-TR-005-32x-49920x108288-1560x3384-filtered.png")
  /\ parse_dimensions_from_training_image_filename
       "../data/filter_png/TUPAC-TR-005-32x-49920x108288-1560x3384-filtered.png"
     <> Ok (str 49920, str 108288, str 1560, str 3384).
Proof. split; [reflexivity | discriminate]. Qed.






(* ================================================================== *)
(** * Slides that cannot be opened *)

(** The slide file is missing, or the slide library rejects it. *)
Definition cannot_be_opened (w : World) (path : string) : Prop :=
  lookup path (slide_files w) = None \/ lookup path (slide_files w) = Some None.






(* ================================================================== *)
(** * The partition of the slides among the processes *)

(** C3 (as the code behaves). Five slides on two processes: the first
    process gets slides 1 to 2 and the second slides 3 to 5. *)
Theorem partition_five_two :
  multiprocess_tasks 5 2 = Ok [(1, 2); (3, 5)].
Proof. vm_compute. reflexivity. Qed.

(** C3, counterexample to the claim as stated. *)
Lemma partition_five_two_counterexample :
  multiprocess_tasks 5 2 <> Ok [(1, 3); (4, 5)].
Proof. vm_compute. discriminate. Qed.

(* ================================================================== *)
(** * Floating point: what rounding does

    The values of floats are rationals.  The lemmas below follow the
    rounding of [SpecFloat] through its shifts and say where the result
    lies relative to the exact value. *)

Definition bpow (e : Z) : Q := (2 ^ e)%Q.
Definition F2Q (m e : Z) : Q := (inject_Z m * bpow e)%Q.

Lemma bpow_pos (e : Z) : (0 < bpow e)%Q.
Proof. apply Qpower_0_lt. reflexivity. Qed.

Lemma bpow_plus (a b : Z) : (bpow (a + b) == bpow a * bpow b)%Q.
Proof. apply Qpower_plus. discriminate. Qed.

Lemma bpow_succ (e : Z) : (bpow (e + 1) == 2 * bpow e)%Q.
Proof. rewrite bpow_plus. unfold bpow at 2. simpl. ring. Qed.

Lemma bpow_Z (e : Z) : 0 <= e -> (bpow e == inject_Z (2 ^ e))%Q.
Proof. intros H. unfold bpow. now rewrite Zpower_Qpower. Qed.

Lemma bpow_le (a b : Z) : a <= b -> (bpow a <= bpow b)%Q.
Proof.
  intros H. replace b with (a + (b - a)) by ring. rewrite bpow_plus.
  assert (1 <= bpow (b - a))%Q.
  { rewrite bpow_Z by lia. change 1%Q with (inject_Z 1). rewrite <- Zle_Qle.
    pose proof (Z.pow_pos_nonneg 2 (b - a)). lia. }
  pose proof (bpow_pos a). nra.
Qed.

Lemma bpow_lt (a b : Z) : a < b -> (bpow a < bpow b)%Q.
Proof.
  intros H. replace b with (a + 1 + (b - a - 1)) by ring.
  pose proof (bpow_le (a + 1) (a + 1 + (b - a - 1)) ltac:(lia)).
  rewrite bpow_succ in H0 at 1. pose proof (bpow_pos a). lra.
Qed.

(** [x] lies in the slot of width [2^e] that starts at [m * 2^e], at the
    place that [l] tells. *)
Definition located (x : Q) (m e : Z) (l : location) : Prop :=
  match l with
  | loc_Exact => (x == F2Q m e)%Q
  | loc_Inexact Lt => (F2Q m e < x /\ 2 * x < F2Q (2 * m + 1) e)%Q
  | loc_Inexact Eq => (2 * x == F2Q (2 * m + 1) e)%Q
  | loc_Inexact Gt => (F2Q (2 * m + 1) e < 2 * x /\ x < F2Q (m + 1) e)%Q
  end.

Ltac push_inject :=
  repeat (rewrite inject_Z_plus in * || rewrite inject_Z_mult in *);
  change (inject_Z 0) with 0%Q in *;
  change (inject_Z 1) with 1%Q in *;
  change (inject_Z 2) with 2%Q in *.

Lemma shr_1_located (x : Q) (mrs : shr_record) (e : Z) :
  0 <= shr_m mrs ->
  located x (shr_m mrs) e (loc_of_shr_record mrs) ->
  located x (shr_m (shr_1 mrs)) (e + 1) (loc_of_shr_record (shr_1 mrs))
  /\ 0 <= shr_m (shr_1 mrs).
Proof.
  destruct mrs as [m r s]. cbn [shr_m]. intros Hm H.
  pose proof (bpow_pos e) as HB. pose proof (bpow_succ e) as HS.
  destruct m as [|[p|p|]|p]; try lia; destruct r, s;
    cbn [shr_1 shr_m loc_of_shr_record orb located] in *;
    (split; [|lia]);
    unfold F2Q in *; rewrite ?HS;
    try change (Z.pos p~1) with (2 * Z.pos p + 1)%Z in *;
    try change (Z.pos p~0) with (2 * Z.pos p)%Z in *;
    push_inject; nra.
Qed.

Lemma iter_shr_1_located (p : positive) :
  forall (x : Q) (mrs : shr_record) (e : Z),
    0 <= shr_m mrs ->
    located x (shr_m mrs) e (loc_of_shr_record mrs) ->
    located x (shr_m (iter_pos shr_1 p mrs)) (e + Z.pos p)
      (loc_of_shr_record (iter_pos shr_1 p mrs))
    /\ 0 <= shr_m (iter_pos shr_1 p mrs).
Proof.
  induction p as [p IH|p IH|]; intros x mrs e Hm H; cbn [iter_pos].
  - destruct (shr_1_located x mrs e Hm H) as [H1 Hm1].
    destruct (IH _ _ _ Hm1 H1) as [H2 Hm2].
    destruct (IH _ _ _ Hm2 H2) as [H3 Hm3].
    replace (e + Z.pos p~1) with (e + 1 + Z.pos p + Z.pos p) by lia. auto.
  - destruct (IH _ _ _ Hm H) as [H2 Hm2].
    destruct (IH _ _ _ Hm2 H2) as [H3 Hm3].
    replace (e + Z.pos p~0) with (e + Z.pos p + Z.pos p) by lia. auto.
  - now apply shr_1_located.
Qed.

Lemma loc_of_shr_record_of_loc (m : Z) (l : location) :
  loc_of_shr_record (shr_record_of_loc m l) = l /\
  shr_m (shr_record_of_loc m l) = m.
Proof. destruct l as [|[]]; split; reflexivity. Qed.

(** Shifting right by [n] places keeps the place of [x]. *)
Lemma shr_located (x : Q) (m e n : Z) (l : location) :
  0 <= m -> located x m e l ->
  located x (shr_m (fst (shr (shr_record_of_loc m l) e n)))
    (snd (shr (shr_record_of_loc m l) e n))
    (loc_of_shr_record (fst (shr (shr_record_of_loc m l) e n)))
  /\ 0 <= shr_m (fst (shr (shr_record_of_loc m l) e n))
  /\ snd (shr (shr_record_of_loc m l) e n) = e + Z.max 0 n.
Proof.
  intros Hm H. destruct (loc_of_shr_record_of_loc m l) as [El Em].
  destruct n as [|p|p]; cbn [shr fst snd].
  - rewrite El, Em. repeat split; auto; lia.
  - destruct (iter_shr_1_located p x (shr_record_of_loc m l) e) as [H1 H2].
    + now rewrite Em.
    + now rewrite El, Em.
    + repeat split; auto; lia.
  - rewrite El, Em. repeat split; auto; lia.
Qed.

Lemma fexp_eq (e : Z) : fexp prec emax e = Z.max (e - 53) (-1074).
Proof. reflexivity. Qed.

Lemma digits2_pos_bounds (p : positive) :
  2 ^ (Z.pos (digits2_pos p) - 1) <= Z.pos p < 2 ^ Z.pos (digits2_pos p).
Proof.
  induction p as [p IH|p IH|]; cbn [digits2_pos].
  - rewrite Pos2Z.inj_succ. replace (Z.succ (Z.pos (digits2_pos p)) - 1)
      with (Z.succ (Z.pos (digits2_pos p) - 1)) by lia.
    rewrite !Z.pow_succ_r by lia. lia.
  - rewrite Pos2Z.inj_succ. replace (Z.succ (Z.pos (digits2_pos p)) - 1)
      with (Z.succ (Z.pos (digits2_pos p) - 1)) by lia.
    rewrite !Z.pow_succ_r by lia. lia.
  - simpl. lia.
Qed.

Lemma Zdigits2_nonneg (m : Z) : 0 <= Zdigits2 m.
Proof. destruct m; simpl; lia. Qed.

Lemma Zdigits2_bounds (m : Z) :
  0 < m -> 2 ^ (Zdigits2 m - 1) <= m < 2 ^ Zdigits2 m.
Proof. destruct m as [|p|p]; try lia. intros _. apply digits2_pos_bounds. Qed.

Lemma Zdigits2_succ_le (m : Z) : 0 <= m -> m + 1 <= 2 ^ Zdigits2 m.
Proof.
  intros H. destruct (Z.eq_dec m 0) as [->|]; [simpl; lia|].
  pose proof (Zdigits2_bounds m). lia.
Qed.

Lemma Zdigits2_le (m k : Z) : 0 <= m -> 0 <= k -> m < 2 ^ k -> Zdigits2 m <= k.
Proof.
  intros Hm Hk H. destruct (Z.eq_dec m 0) as [->|]; [simpl; lia|].
  pose proof (Zdigits2_bounds m ltac:(lia)) as [Hl _].
  destruct (Z_le_gt_dec (Zdigits2 m) k) as [|Hgt]; [assumption|].
  assert (2 ^ k <= 2 ^ (Zdigits2 m - 1)) by (apply Z.pow_le_mono_r; lia). lia.
Qed.

Lemma Zdigits2_pow2 (k : Z) : 0 <= k -> Zdigits2 (2 ^ k) = k + 1.
Proof.
  intros Hk. pose proof (Z.pow_pos_nonneg 2 k ltac:(lia) Hk) as Hp.
  pose proof (Zdigits2_bounds _ Hp) as [Hl Hu].
  pose proof (Zdigits2_nonneg (2 ^ k)).
  assert (k < Zdigits2 (2 ^ k)) by (apply (Z.pow_lt_mono_r_iff 2); lia).
  destruct (Z_le_gt_dec (Zdigits2 (2 ^ k)) (k + 1)) as [|Hgt]; [lia|].
  assert (2 ^ (k + 1) <= 2 ^ (Zdigits2 (2 ^ k) - 1)) by (apply Z.pow_le_mono_r; lia).
  rewrite Z.pow_add_r in H1 by lia. lia.
Qed.

Lemma F2Q_lt_inv (m n e : Z) : (F2Q m e < F2Q n e)%Q -> m < n.
Proof.
  unfold F2Q. intros H. pose proof (bpow_pos e).
  rewrite Zlt_Qlt. apply Qmult_lt_r in H; assumption.
Qed.

Lemma F2Q_le (m n e : Z) : m <= n -> (F2Q m e <= F2Q n e)%Q.
Proof.
  unfold F2Q. intros H. pose proof (bpow_pos e).
  apply Qmult_le_compat_r; [now rewrite <- Zle_Qle | lra].
Qed.

Lemma F2Q_shift (m e k : Z) : 0 <= k -> (F2Q (m * 2 ^ k) e == F2Q m (e + k))%Q.
Proof.
  intros Hk. unfold F2Q. rewrite inject_Z_mult, bpow_plus, (bpow_Z k Hk). ring.
Qed.

Lemma F2Q_pow2 (e k : Z) : 0 <= k -> (F2Q (2 ^ k) e == bpow (e + k))%Q.
Proof.
  intros Hk. unfold F2Q. rewrite bpow_plus, (bpow_Z k Hk). ring.
Qed.

(** The slot of [x] starts at or after [m * 2^e] and ends before the next. *)
Lemma located_bounds (x : Q) (m e : Z) (l : location) :
  located x m e l -> (F2Q m e <= x < F2Q (m + 1) e)%Q.
Proof.
  pose proof (bpow_pos e).
  destruct l as [|[]]; unfold located, F2Q in *; push_inject; intros; nra.
Qed.

Lemma round_nearest_even_located (x : Q) (m e : Z) (l : location) :
  located x m e l ->
  m <= round_nearest_even m l <= m + 1
  /\ (2 * (F2Q (round_nearest_even m l) e - x) <= bpow e)%Q
  /\ (2 * (x - F2Q (round_nearest_even m l) e) <= bpow e)%Q.
Proof.
  pose proof (bpow_pos e).
  destruct l as [|[]]; cbn [round_nearest_even located];
    try destruct (Z.even m); unfold F2Q; push_inject; intros;
    (split; [lia|]); nra.
Qed.

Lemma shr_nonpos (mrs : shr_record) (e n : Z) : n <= 0 -> shr mrs e n = (mrs, e).
Proof. destruct n; try reflexivity. lia. Qed.

(** What [binary_round_aux] returns for a non-negative mantissa: the value
    [x] located by [(mx, ex, lx)] is placed on the grid of exponent [e1],
    the exponent of its binade, and rounded there to the nearest, ties to
    even. *)
Lemma binary_round_aux_spec (x : Q) (mx ex : Z) (lx : location) :
  0 <= mx -> located x mx ex lx ->
  exists m1 l1,
    let e1 := Z.max ex (fexp prec emax (Zdigits2 mx + ex)) in
    located x m1 e1 l1 /\ 0 <= m1 /\
    (fexp prec emax (Zdigits2 mx + ex) <= ex -> m1 = mx /\ l1 = lx) /\
    match binary_round_aux prec emax false mx ex lx with
    | S754_zero s => s = false /\ round_nearest_even m1 l1 = 0
    | S754_finite s m e =>
        s = false
        /\ (F2Q (Z.pos m) e == F2Q (round_nearest_even m1 l1) e1)%Q
        /\ e <= emax - prec /\ e1 <= e <= e1 + 1
    | S754_infinity s =>
        s = false /\ emax - prec <= e1 /\ 0 < round_nearest_even m1 l1
    | S754_nan => False
    end.
Proof.
  intros Hm H. unfold binary_round_aux, shr_fexp.
  set (d := Zdigits2 mx). set (n := fexp prec emax (d + ex) - ex).
  destruct (shr_located x mx ex n lx Hm H) as (H1 & Hm1 & He1).
  assert (Hkeep : n <= 0 -> shr (shr_record_of_loc mx lx) ex n
                             = (shr_record_of_loc mx lx, ex))
    by apply shr_nonpos.
  destruct (shr (shr_record_of_loc mx lx) ex n) as [mrs' e'].
  cbn [fst snd] in H1, Hm1, He1.
  set (m1 := shr_m mrs') in *. set (l1 := loc_of_shr_record mrs') in *.
  exists m1, l1. cbn zeta.
  assert (Ee : e' = Z.max ex (fexp prec emax (d + ex))) by (unfold n in He1; lia).
  rewrite <- Ee.
  split; [exact H1|]. split; [exact Hm1|]. split.
  { intros Hle. assert (Hn : n <= 0) by (unfold n; lia).
    specialize (Hkeep Hn). injection Hkeep as -> _. unfold m1, l1.
    destruct (loc_of_shr_record_of_loc mx lx). auto. }
  clear Hkeep.
  destruct (round_nearest_even_located x m1 e' l1 H1) as (Hm2 & _).
  set (m2 := round_nearest_even m1 l1) in *.
  pose proof (fexp_eq (d + ex)) as Hf.
  pose proof (Zdigits2_nonneg mx) as Hd. fold d in Hd.
  (* the mantissa on the grid has at most 53 bits *)
  set (K := Z.max 0 (d + ex - e')).
  assert (HK : 0 <= K <= 53) by (unfold K; lia).
  assert (Hm1K : m1 < 2 ^ K).
  { apply located_bounds in H1. apply located_bounds in H.
    pose proof (F2Q_le (mx + 1) (2 ^ d) ex (Zdigits2_succ_le mx Hm)) as Hle.
    rewrite (F2Q_pow2 ex d Hd) in Hle.
    apply (F2Q_lt_inv m1 (2 ^ K) e').
    rewrite (F2Q_pow2 e' K) by lia.
    pose proof (bpow_le (ex + d) (e' + K) ltac:(unfold K; lia)).
    lra. }
  set (n2 := fexp prec emax (Zdigits2 m2 + e') - e').
  assert (Hn2 : n2 <= 0 \/ (n2 = 1 /\ m2 = 2 ^ 53)).
  { pose proof (fexp_eq (Zdigits2 m2 + e')) as Hf2. fold n2.
    destruct (Z_lt_le_dec m2 (2 ^ K)) as [Hlt|Hge].
    - left. pose proof (Zdigits2_le m2 K ltac:(lia) ltac:(lia) Hlt). unfold n2. lia.
    - assert (E2 : m2 = 2 ^ K) by lia.
      pose proof (Zdigits2_pow2 K ltac:(lia)) as Hd2. rewrite <- E2 in Hd2.
      destruct (Z.eq_dec K 53) as [EK|NK].
      + destruct (Z_le_gt_dec n2 0); [now left|]. right. split.
        * unfold n2. lia.
        * now rewrite E2, EK.
      + left. unfold n2. lia. }
  destruct Hn2 as [Hn2|[Hn2 E2]].
  - rewrite (shr_nonpos _ _ _ Hn2).
    destruct (loc_of_shr_record_of_loc m2 loc_Exact) as [_ ->].
    destruct m2 as [|p|p] eqn:Em2; [auto | | lia].
    destruct (e' <=? emax - prec) eqn:Ele.
    + apply Z.leb_le in Ele. repeat split; first [lia | reflexivity].
    + apply Z.leb_gt in Ele. repeat split; first [lia | reflexivity].
  - fold n2. rewrite Hn2, E2. cbn [shr shr_record_of_loc iter_pos].
    change (shr_m (shr_1 {| shr_m := 2 ^ 53; shr_r := false; shr_s := false |}))
      with (Z.pos (Z.to_pos (2 ^ 52))).
    destruct (e' + 1 <=? emax - prec) eqn:Ele.
    + apply Z.leb_le in Ele. repeat split; try lia.
      change (Z.pos (Z.to_pos (2 ^ 52))) with (2 ^ 52)%Z.
      rewrite <- (F2Q_shift (2 ^ 52) e' 1) by lia. reflexivity.
    + apply Z.leb_gt in Ele. repeat split; first [lia | reflexivity].
Qed.

(** The value of a finite float. *)
Definition SF2Q (f : spec_float) : Q :=
  match f with
  | S754_finite s m e => F2Q (signed s m) e
  | _ => 0%Q
  end.

(** [f] is what rounding the non-negative [x] to binary64 gives: a value on
    the grid of some exponent [e], within half a grid step of [x], where the
    grid is that of the binade of [x] unless [x] is kept exactly; or
    infinity, when [x] is out of range. *)
Definition rounded (x : Q) (f : spec_float) : Prop :=
  match f with
  | S754_nan => False
  | S754_infinity s => s = false /\ (bpow 970 <= x)%Q
  | S754_zero s => s = false /\ (2 * x <= bpow (-1074))%Q
  | S754_finite s p e' =>
      s = false /\ e' <= 971 /\
      exists m e,
        (F2Q (Z.pos p) e' == F2Q m e)%Q /\ 0 < m /\ -1074 <= e
        /\ (2 * (F2Q m e - x) <= bpow e)%Q
        /\ (2 * (x - F2Q m e) <= bpow e)%Q
        /\ (x < bpow (e + 53))%Q
        /\ ((F2Q m e == x)%Q \/ e = -1074 \/ (bpow (e + 52) <= x)%Q)
  end.

Lemma binary_round_aux_rounded (x : Q) (mx ex : Z) (lx : location) :
  0 <= mx -> located x mx ex lx ->
  lx = loc_Exact \/ ex <= fexp prec emax (Zdigits2 mx + ex) ->
  rounded x (binary_round_aux prec emax false mx ex lx).
Proof.
  intros Hm H Hcase.
  destruct (binary_round_aux_spec x mx ex lx Hm H) as (m1 & l1 & H1 & Hm1 & Hkeep & Hres).
  cbn zeta in *.
  pose proof (fexp_eq (Zdigits2 mx + ex)) as Hf.
  pose proof (Zdigits2_nonneg mx) as Hd.
  remember (Zdigits2 mx) as d eqn:Ed.
  remember (Z.max ex (fexp prec emax (d + ex))) as e1 eqn:Ee1.
  destruct (round_nearest_even_located x m1 e1 l1 H1) as (Hm2 & Herr1 & Herr2).
  remember (round_nearest_even m1 l1) as m2 eqn:Em2.
  pose proof (located_bounds _ _ _ _ H) as [Hlo Hhi].
  assert (Hx53 : (x < bpow (e1 + 53))%Q).
  { pose proof (Zdigits2_succ_le mx Hm) as Hs. rewrite <- Ed in Hs.
    pose proof (F2Q_le (mx + 1) (2 ^ d) ex Hs) as Hle.
    rewrite (F2Q_pow2 ex d Hd) in Hle.
    pose proof (bpow_le (ex + d) (e1 + 53) ltac:(lia)). lra. }
  assert (Hx0 : (0 <= x)%Q).
  { assert (0 <= F2Q mx ex)%Q; [|lra].
    unfold F2Q. apply Qmult_le_0_compat; [|pose proof (bpow_pos ex); lra].
    change 0%Q with (inject_Z 0). now rewrite <- Zle_Qle. }
  assert (H4 : (F2Q m2 e1 == x)%Q \/ e1 = -1074 \/ (bpow (e1 + 52) <= x)%Q).
  { destruct (Z_le_gt_dec ex (fexp prec emax (d + ex))) as [Hle|Hgt].
    - destruct (Z.eq_dec e1 (-1074)) as [|Hne]; [auto|]. right. right.
      assert (0 < mx).
      { destruct (Z.eq_dec mx 0) as [E0|]; [|lia].
        exfalso. rewrite E0 in Ed. simpl Zdigits2 in Ed. lia. }
      pose proof (Zdigits2_bounds mx H0) as [Hb _]. rewrite <- Ed in Hb.
      pose proof (F2Q_le _ _ ex Hb) as Hle2.
      rewrite (F2Q_pow2 ex (d - 1)) in Hle2 by lia.
      pose proof (bpow_le (e1 + 52) (ex + (d - 1)) ltac:(lia)). lra.
    - destruct Hcase as [->|Hc]; [|lia]. left.
      destruct (Hkeep ltac:(lia)) as [E1 E2]. rewrite Em2, E1, E2.
      cbn [round_nearest_even]. replace e1 with ex by lia.
      cbn [located] in H. now rewrite H. }
  destruct (binary_round_aux prec emax false mx ex lx) as [s|s| |s p e'];
    cbn [rounded].
  - destruct Hres as [-> E0]. split; [reflexivity|].
    rewrite E0 in *. unfold F2Q in Herr2.
    change (inject_Z 0) with 0%Q in Herr2.
    destruct H4 as [H4|[H4|H4]].
    + unfold F2Q in H4. change (inject_Z 0) with 0%Q in H4.
      pose proof (bpow_pos (-1074)). lra.
    + rewrite H4 in Herr2. lra.
    + pose proof (bpow_lt e1 (e1 + 52) ltac:(lia)). pose proof (bpow_pos e1). lra.
  - destruct Hres as (-> & He & Hpos). split; [reflexivity|].
    assert (F2Q 1 e1 <= F2Q m2 e1)%Q by (apply F2Q_le; lia).
    unfold F2Q in H0 at 1. change (inject_Z 1) with 1%Q in H0.
    pose proof (bpow_le 971 e1 ltac:(unfold emax, prec in He; lia)).
    pose proof (bpow_succ 970). change (970 + 1) with 971 in H3.
    pose proof (bpow_pos 970). lra.
  - exact Hres.
  - destruct Hres as (-> & Hv & He & He').
    split; [reflexivity|]. split; [exact He|].
    exists m2, e1. repeat split; auto; try lia.
    destruct (Z.eq_dec m2 0) as [E0|]; [|lia]. exfalso.
    rewrite E0 in Hv. unfold F2Q in Hv. change (inject_Z 0) with 0%Q in Hv.
    pose proof (bpow_pos e'). assert (0 < inject_Z (Z.pos p))%Q.
    { change 0%Q with (inject_Z 0). rewrite <- Zlt_Qlt. lia. }
    nra.
Qed.

Lemma new_location_eq (b r : Z) :
  0 <= r < b ->
  new_location b r
  = if r =? 0 then loc_Exact else loc_Inexact (2 * r ?= b).
Proof.
  intros Hr. unfold new_location, new_location_even, new_location_odd.
  destruct (Z.even b) eqn:Eb; destruct (r =? 0) eqn:E0; try reflexivity.
  f_equal.
  assert (Hodd : Z.odd b = true) by (rewrite <- Z.negb_even, Eb; reflexivity).
  apply Z.odd_spec in Hodd. destruct Hodd as [k Hk].
  destruct (2 * r + 1 ?= b) eqn:E1; destruct (2 * r ?= b) eqn:E2;
    try reflexivity;
    rewrite ?Z.compare_eq_iff, ?Z.compare_lt_iff, ?Z.compare_gt_iff in *; lia.
Qed.

Lemma inject_Z_pos (z : Z) : 0 < z -> (0 < inject_Z z)%Q.
Proof. intros H. change 0%Q with (inject_Z 0). now rewrite <- Zlt_Qlt. Qed.

Lemma inject_Z_nonneg (z : Z) : 0 <= z -> (0 <= inject_Z z)%Q.
Proof. intros H. change 0%Q with (inject_Z 0). now rewrite <- Zle_Qle. Qed.

(** Where the quotient [(q + r / b) * 2^e] lies. *)
Lemma located_div (x : Q) (n b q r e : Z) :
  0 < b -> 0 <= r < b -> n = q * b + r ->
  (x * inject_Z b == F2Q n e)%Q ->
  located x q e (new_location b r).
Proof.
  intros Hb Hr -> Hx. rewrite (new_location_eq b r Hr).
  pose proof (bpow_pos e) as HB. pose proof (inject_Z_pos b Hb) as HbQ.
  unfold F2Q in Hx. rewrite inject_Z_plus, inject_Z_mult in Hx.
  destruct (Z.eqb_spec r 0) as [->|Hne].
  - cbn [located]. unfold F2Q. change (inject_Z 0) with 0%Q in Hx.
    apply (Qmult_inj_r _ _ (inject_Z b)); [lra|]. rewrite Hx. ring.
  - assert (HrQ : (0 < inject_Z r)%Q) by (apply inject_Z_pos; lia).
    destruct (Z.compare_spec (2 * r) b) as [E|E|E]; cbn [located]; unfold F2Q;
      push_inject.
    + assert (HE : (inject_Z b == 2 * inject_Z r)%Q).
      { change 2%Q with (inject_Z 2). rewrite <- inject_Z_mult, E. reflexivity. }
      apply (Qmult_inj_r _ _ (inject_Z b)); [lra|].
      setoid_replace (2 * x * inject_Z b)%Q with (2 * (x * inject_Z b))%Q by ring.
      rewrite Hx, HE. ring.
    + assert (HE : (2 * inject_Z r < inject_Z b)%Q).
      { change 2%Q with (inject_Z 2). rewrite <- inject_Z_mult, <- Zlt_Qlt. exact E. }
      split; apply (Qmult_lt_r _ _ (inject_Z b) HbQ).
      * rewrite Hx. nra.
      * setoid_replace (2 * x * inject_Z b)%Q with (2 * (x * inject_Z b))%Q by ring.
        rewrite Hx. nra.
    + assert (HE : (inject_Z b < 2 * inject_Z r)%Q).
      { change 2%Q with (inject_Z 2). rewrite <- inject_Z_mult, <- Zlt_Qlt. exact E. }
      assert (HR : (inject_Z r < inject_Z b)%Q) by (rewrite <- Zlt_Qlt; lia).
      split; apply (Qmult_lt_r _ _ (inject_Z b) HbQ).
      * setoid_replace (2 * x * inject_Z b)%Q with (2 * (x * inject_Z b))%Q by ring.
        rewrite Hx. nra.
      * rewrite Hx. nra.
Qed.

Lemma Zdigits2_lower (m t : Z) : 0 <= t -> 2 ^ t <= m -> t < Zdigits2 m.
Proof.
  intros Ht H. pose proof (Z.pow_pos_nonneg 2 t ltac:(lia) Ht).
  pose proof (Zdigits2_bounds m ltac:(lia)) as [_ Hu].
  pose proof (Zdigits2_nonneg m).
  apply (Z.pow_lt_mono_r_iff 2); lia.
Qed.

(** Division of two positive finite numbers rounds their quotient. *)
Lemma SFdiv_rounded (m1 m2 : positive) (e1 e2 : Z) (x : Q) :
  (x * F2Q (Z.pos m2) e2 == F2Q (Z.pos m1) e1)%Q ->
  rounded x (SFdiv prec emax (S754_finite false m1 e1) (S754_finite false m2 e2)).
Proof.
  intros Hx. unfold SFdiv. cbn [xorb]. unfold SFdiv_core_binary.
  remember (Zdigits2 (Z.pos m1)) as d1 eqn:Ed1.
  remember (Zdigits2 (Z.pos m2)) as d2 eqn:Ed2.
  pose proof (fexp_eq (d1 + e1 - (d2 + e2))) as Hf.
  remember (Z.min (fexp prec emax (d1 + e1 - (d2 + e2))) (e1 - e2)) as e' eqn:Ee'.
  remember (e1 - e2 - e') as s eqn:Es.
  assert (Hs : 0 <= s) by lia.
  assert (Em' : match s with
                | Z0 => Z.pos m1
                | Z.pos _ => Z.shiftl (Z.pos m1) s
                | Z.neg _ => 0
                end = Z.pos m1 * 2 ^ s).
  { destruct s as [|p|p]; [simpl; lia | now rewrite Z.shiftl_mul_pow2 | lia]. }
  rewrite Em'.
  pose proof (Z_div_mod (Z.pos m1 * 2 ^ s) (Z.pos m2) ltac:(lia)) as Hdm.
  destruct (Z.div_eucl (Z.pos m1 * 2 ^ s) (Z.pos m2)) as [q r] eqn:Edm.
  destruct Hdm as [Hdm Hr].
  assert (Hq : 0 <= q).
  { assert (q = Z.pos m1 * 2 ^ s / Z.pos m2) by (unfold Z.div; now rewrite Edm).
    subst q. apply Z.div_pos; [|lia].
    pose proof (Z.pow_pos_nonneg 2 s ltac:(lia) Hs). lia. }
  assert (Hloc : located x q e' (new_location (Z.pos m2) r)).
  { apply (located_div x (Z.pos m1 * 2 ^ s) (Z.pos m2) q r e'); [lia | lia | lia |].
    pose proof (bpow_pos e2) as HB2.
    apply (Qmult_inj_r _ _ (bpow e2)); [lra|].
    unfold F2Q in *. rewrite inject_Z_mult, <- (bpow_Z s Hs).
    setoid_replace (x * inject_Z (Z.pos m2) * bpow e2)%Q
      with (x * (inject_Z (Z.pos m2) * bpow e2))%Q by ring.
    rewrite Hx. replace e1 with (s + e' + e2) by lia. rewrite !bpow_plus. ring. }
  apply binary_round_aux_rounded; [exact Hq | exact Hloc |]. right.
  pose proof (fexp_eq (Zdigits2 q + e')) as Hfq.
  pose proof (Zdigits2_nonneg q) as Hdq.
  destruct (Z_le_gt_dec 0 (d1 - 1 + s - d2)) as [Ht|Ht]; [|lia].
  assert (Hlow : d1 - 1 + s - d2 < Zdigits2 q).
  { apply Zdigits2_lower; [exact Ht|].
    assert (q = Z.pos m1 * 2 ^ s / Z.pos m2) by (unfold Z.div; now rewrite Edm).
    subst q. apply Z.div_le_lower_bound; [lia|].
    pose proof (Zdigits2_bounds (Z.pos m1) ltac:(lia)) as [Hl1 _].
    pose proof (Zdigits2_bounds (Z.pos m2) ltac:(lia)) as [_ Hu2].
    rewrite <- Ed1 in Hl1. rewrite <- Ed2 in Hu2.
    pose proof (Zdigits2_nonneg (Z.pos m2)) as Hd2. rewrite <- Ed2 in Hd2.
    assert (Hd1 : 1 <= d1) by (rewrite Ed1; simpl; lia).
    assert (E : 2 ^ (d1 - 1) * 2 ^ s = 2 ^ d2 * 2 ^ (d1 - 1 + s - d2)).
    { rewrite <- !Z.pow_add_r by lia. f_equal. lia. }
    pose proof (Z.pow_pos_nonneg 2 s ltac:(lia) Hs).
    pose proof (Z.pow_pos_nonneg 2 (d1 - 1 + s - d2) ltac:(lia) Ht).
    nia. }
  lia.
Qed.

(** Multiplication of two positive finite numbers rounds their product. *)
Lemma SFmul_rounded (m1 m2 : positive) (e1 e2 : Z) :
  rounded (F2Q (Z.pos m1) e1 * F2Q (Z.pos m2) e2)
    (SFmul prec emax (S754_finite false m1 e1) (S754_finite false m2 e2)).
Proof.
  unfold SFmul. cbn [xorb].
  apply binary_round_aux_rounded; [lia | | now left].
  cbn [located]. unfold F2Q. rewrite Pos2Z.inj_mul, inject_Z_mult, bpow_plus. ring.
Qed.

Lemma iter_xO (d p : positive) : Z.pos (Pos.iter xO p d) = Z.pos p * 2 ^ Z.pos d.
Proof.
  induction d as [|d IH] using Pos.peano_ind.
  - simpl. lia.
  - rewrite Pos.iter_succ, Pos2Z.inj_succ, Z.pow_succ_r by lia.
    rewrite Pos2Z.inj_xO, IH. ring.
Qed.

(** Conversion of a positive integer rounds it. *)
Lemma binary_normalize_rounded (p : positive) :
  rounded (inject_Z (Z.pos p)) (binary_normalize prec emax (Z.pos p) 0 false).
Proof.
  unfold binary_normalize, binary_round, shl_align.
  destruct (fexp prec emax (Z.pos (digits2_pos p) + 0) - 0) as [|d|d] eqn:E;
    apply binary_round_aux_rounded; try lia; try (now left);
    cbn [located]; unfold F2Q.
  - unfold bpow. simpl. ring.
  - unfold bpow. simpl. ring.
  - rewrite iter_xO, inject_Z_mult. rewrite <- (bpow_Z (Z.pos d)) by lia.
    setoid_replace (inject_Z (Z.pos p) * bpow (Z.pos d)
                    * bpow (fexp prec emax (Z.pos (digits2_pos p) + 0)))%Q
      with (inject_Z (Z.pos p)
            * (bpow (Z.pos d)
               * bpow (fexp prec emax (Z.pos (digits2_pos p) + 0))))%Q by ring.
    rewrite <- bpow_plus.
    replace (Z.pos d + fexp prec emax (Z.pos (digits2_pos p) + 0)) with 0 by lia.
    unfold bpow. simpl. ring.
Qed.

Lemma bpow_0 : (bpow 0 == 1)%Q.
Proof. reflexivity. Qed.

Lemma F2Q_0 (m : Z) : (F2Q m 0 == inject_Z m)%Q.
Proof. unfold F2Q. rewrite bpow_0. ring. Qed.

Lemma bpow_lt_inv (a b : Z) : (bpow a < bpow b)%Q -> a < b.
Proof.
  intros H. destruct (Z_lt_le_dec a b) as [|Hle]; [assumption|].
  pose proof (bpow_le b a Hle). lra.
Qed.

(** Integers lie on every grid of non-positive exponent. *)
Lemma F2Q_int (z e : Z) : e <= 0 -> (F2Q (z * 2 ^ (- e)) e == inject_Z z)%Q.
Proof.
  intros He. rewrite F2Q_shift by lia. replace (e + - e) with 0 by lia.
  apply F2Q_0.
Qed.

Lemma grid_ge (m e z : Z) (x : Q) :
  e <= 0 -> (inject_Z z <= x)%Q -> (2 * (x - F2Q m e) <= bpow e)%Q ->
  (inject_Z z <= F2Q m e)%Q.
Proof.
  intros He Hz Herr. rewrite <- (F2Q_int z e He) in *.
  destruct (Z_le_gt_dec (z * 2 ^ (- e)) m) as [Hle|Hgt]; [now apply F2Q_le|].
  exfalso. pose proof (F2Q_le (m + 1) (z * 2 ^ (- e)) e ltac:(lia)) as H.
  unfold F2Q in *. rewrite inject_Z_plus in H. change (inject_Z 1) with 1%Q in H.
  pose proof (bpow_pos e). nra.
Qed.

Lemma grid_le (m e z : Z) (x : Q) :
  e <= 0 -> (x <= inject_Z z)%Q -> (2 * (F2Q m e - x) <= bpow e)%Q ->
  (F2Q m e <= inject_Z z)%Q.
Proof.
  intros He Hz Herr. rewrite <- (F2Q_int z e He) in *.
  destruct (Z_le_gt_dec m (z * 2 ^ (- e))) as [Hle|Hgt]; [now apply F2Q_le|].
  exfalso. pose proof (F2Q_le (z * 2 ^ (- e) + 1) m e ltac:(lia)) as H.
  unfold F2Q in *. rewrite inject_Z_plus in H. change (inject_Z 1) with 1%Q in H.
  pose proof (bpow_pos e). nra.
Qed.

(** [Z.shiftl m e] is the floor of [m * 2^e]. *)
Lemma shiftl_floor (m e : Z) :
  (inject_Z (Z.shiftl m e) <= F2Q m e < inject_Z (Z.shiftl m e + 1))%Q.
Proof.
  destruct (Z_le_gt_dec 0 e) as [He|He].
  - rewrite Z.shiftl_mul_pow2 by lia. unfold F2Q.
    rewrite inject_Z_plus, inject_Z_mult, <- (bpow_Z e He).
    change (inject_Z 1) with 1%Q. lra.
  - assert (Es : Z.shiftl m e = m / 2 ^ (- e)).
    { rewrite <- (Z.opp_involutive e) at 1. rewrite Z.shiftl_opp_r.
      apply Z.shiftr_div_pow2. lia. }
    rewrite Es.
    pose proof (Z.pow_pos_nonneg 2 (- e) ltac:(lia) ltac:(lia)) as HD.
    pose proof (Z_div_mod_eq_full m (2 ^ (- e))) as Hdm.
    pose proof (Z.mod_pos_bound m (2 ^ (- e)) HD) as Hr.
    remember (m / 2 ^ (- e)) as z eqn:Ez.
    pose proof (F2Q_int z e ltac:(lia)) as Hz.
    pose proof (F2Q_int (z + 1) e ltac:(lia)) as Hz1.
    rewrite <- Hz, <- Hz1. split.
    + apply F2Q_le. lia.
    + unfold F2Q. apply Qmult_lt_compat_r; [apply bpow_pos|].
      rewrite <- Zlt_Qlt. lia.
Qed.

Lemma floor_unique (z q : Z) (x : Q) :
  (inject_Z z <= x < inject_Z (z + 1))%Q ->
  (inject_Z q <= x < inject_Z (q + 1))%Q -> z = q.
Proof.
  intros [H1 H2] [H3 H4].
  assert (z < q + 1) by (rewrite Zlt_Qlt; lra).
  assert (q < z + 1) by (rewrite Zlt_Qlt; lra). lia.
Qed.

Lemma raw_int_pos (a : Z) : 0 < a -> raw_int a = S754_finite false (Z.to_pos a) 0.
Proof. destruct a; try lia. reflexivity. Qed.

(** The quotient of two positive integers, as a rational. *)
Lemma int_truediv_rounded (a b : Z) :
  0 < a -> 0 < b ->
  match int_truediv a b with
  | Ok f => rounded (inject_Z a / inject_Z b) f
  | Raise e => e = OverflowError /\ (bpow 970 <= inject_Z a / inject_Z b)%Q
  end.
Proof.
  intros Ha Hb. unfold int_truediv.
  destruct (Z.eqb_spec b 0) as [|_]; [lia|].
  rewrite (raw_int_pos a Ha), (raw_int_pos b Hb).
  assert (H : rounded (inject_Z a / inject_Z b)
                (SFdiv prec emax (S754_finite false (Z.to_pos a) 0)
                   (S754_finite false (Z.to_pos b) 0))).
  { apply SFdiv_rounded. rewrite !F2Q_0, !Z2Pos.id by lia.
    pose proof (inject_Z_pos b Hb). field. lra. }
  destruct (SFdiv prec emax _ _) as [s|s| |s p e]; try exact H.
  split; [reflexivity | apply H].
Qed.

Lemma math_floor_finite (p : positive) (e : Z) :
  exists z, math_floor (S754_finite false p e) = Ok z
            /\ (inject_Z z <= F2Q (Z.pos p) e < inject_Z (z + 1))%Q.
Proof. eexists. split; [reflexivity|]. apply shiftl_floor. Qed.

Lemma bpow_53 : (bpow 53 == inject_Z (2 ^ 53))%Q.
Proof. apply bpow_Z. lia. Qed.

(** The floor of the float quotient of two positive integers is their
    integer quotient, as long as the dividend is below [2^53]. *)
Lemma int_truediv_floor (a b : Z) :
  0 < a < 2 ^ 53 -> 0 < b ->
  exists f, int_truediv a b = Ok f /\ math_floor f = Ok (a / b).
Proof.
  intros Ha Hb. pose proof (int_truediv_rounded a b ltac:(lia) Hb) as H.
  pose proof (inject_Z_pos b Hb) as HbQ.
  pose proof (inject_Z_pos a ltac:(lia)) as HaQ.
  remember (inject_Z a / inject_Z b)%Q as x eqn:Ex.
  assert (Hxb : (x * inject_Z b == inject_Z a)%Q) by (rewrite Ex; field; lra).
  assert (Hx53 : (x < bpow 53)%Q).
  { rewrite bpow_53. assert (inject_Z a < inject_Z (2 ^ 53))%Q by (rewrite <- Zlt_Qlt; lia).
    assert (1 <= inject_Z b)%Q by (change 1%Q with (inject_Z 1); rewrite <- Zle_Qle; lia).
    assert (0 < x)%Q by (rewrite Ex; apply Qlt_shift_div_l; lra).
    nra. }
  (* the integer quotient brackets [x] *)
  pose proof (Z_div_mod_eq_full a b) as Hdm.
  pose proof (Z.mod_pos_bound a b Hb) as Hr.
  remember (a / b) as q eqn:Eq. remember (a mod b) as r eqn:Er.
  assert (HaQ' : (inject_Z a == inject_Z b * inject_Z q + inject_Z r)%Q)
    by (rewrite <- inject_Z_mult, <- inject_Z_plus, <- Hdm; reflexivity).
  assert (Hr0 : (0 <= inject_Z r)%Q) by (apply inject_Z_nonneg; lia).
  assert (Hr1 : (inject_Z r + 1 <= inject_Z b)%Q).
  { change 1%Q with (inject_Z 1). rewrite <- inject_Z_plus, <- Zle_Qle. lia. }
  assert (Hqx : (inject_Z q <= x)%Q).
  { apply (Qmult_le_r _ _ (inject_Z b) HbQ). rewrite Hxb, HaQ'. nra. }
  assert (Hxq : (x * inject_Z b + 1 <= inject_Z (q + 1) * inject_Z b)%Q).
  { rewrite Hxb, HaQ', inject_Z_plus. change (inject_Z 1) with 1%Q. nra. }
  assert (Hxq' : (x < inject_Z (q + 1))%Q).
  { apply (Qmult_lt_r _ _ (inject_Z b) HbQ). lra. }
  destruct (int_truediv a b) as [f|ex]; [|destruct H as [_ H]].
  2:{ exfalso. pose proof (bpow_lt 53 970 ltac:(lia)). lra. }
  exists f. split; [reflexivity|].
  destruct f as [s|s| |s p e']; cbn [rounded] in H.
  - (* zero *)
    destruct H as [-> H]. cbn [math_floor]. f_equal.
    assert (Hx1 : (x < 1)%Q).
    { pose proof (bpow_lt (-1074) 0 ltac:(lia)). rewrite bpow_0 in H0.
      assert (0 < x)%Q by (rewrite Ex; apply Qlt_shift_div_l; lra). lra. }
    assert (a < b); [|rewrite Eq; symmetry; apply Z.div_small; lia].
    rewrite Zlt_Qlt. nra.
  - destruct H as [_ H]. exfalso. pose proof (bpow_lt 53 970 ltac:(lia)). lra.
  - destruct H.
  - destruct H as (-> & He' & m & e & Hv & Hm & He & Herr1 & Herr2 & Hx53' & H4).
    destruct (math_floor_finite p e') as (z & -> & Hz). f_equal.
    apply (floor_unique z q (F2Q (Z.pos p) e') Hz). rewrite Hv.
    destruct H4 as [H4|H4]; [rewrite H4; split; assumption|].
    assert (He0 : e <= 0).
    { destruct H4 as [->|H4]; [lia|].
      assert (e + 52 < 53); [|lia]. apply bpow_lt_inv. lra. }
    split; [now apply (grid_ge m e q x)|].
    pose proof (grid_le m e (q + 1) x He0 ltac:(lra) Herr1) as Hle.
    destruct (Qlt_le_dec (F2Q m e) (inject_Z (q + 1))) as [|Hge]; [assumption|].
    exfalso.
    (* rounding up to [q + 1] needs a dividend of at least [2^53] *)
    assert (Hgap : (2 <= bpow e * inject_Z b)%Q) by nra.
    destruct H4 as [->|H4].
    + assert (Hbig : (bpow 1075 <= inject_Z b)%Q).
      { pose proof (bpow_plus (-1074) 1075) as Hp. change (-1074 + 1075) with 1 in Hp.
        change (bpow 1) with 2%Q in Hp. pose proof (bpow_pos (-1074)).
        pose proof (bpow_pos 1075). nra. }
      pose proof (bpow_lt 54 1075 ltac:(lia)) as H54.
      pose proof (bpow_succ 53) as H53. change (53 + 1) with 54 in H53.
      assert (Hx1 : (1 <= 2 * x)%Q).
      { pose proof (bpow_lt (-1074) 0 ltac:(lia)) as H0. rewrite bpow_0 in H0.
        assert (1 <= inject_Z (q + 1))%Q.
        { change 1%Q with (inject_Z 1). rewrite <- Zle_Qle.
          assert (0 <= q) by (rewrite Eq; apply Z.div_pos; lia). lia. }
        pose proof (bpow_pos (-1074)). lra. }
      assert (inject_Z a < bpow 53)%Q by (rewrite bpow_53, <- Zlt_Qlt; lia).
      nra.
    + pose proof (bpow_plus e 52) as Hp. pose proof (bpow_pos e) as HBe.
      assert (H52 : (bpow 52 * 2 == bpow 53)%Q).
      { pose proof (bpow_succ 52) as H0. change (52 + 1) with 53 in H0. lra. }
      assert (inject_Z a < bpow 53)%Q by (rewrite bpow_53, <- Zlt_Qlt; lia).
      pose proof (bpow_pos 52).
      assert (bpow 52 * (bpow e * inject_Z b) <= x * inject_Z b)%Q by nra.
      nra.
Qed.

(* ================================================================== *)
(** * The conversion of one slide *)

Lemma floor_truediv (a b : Z) :
  0 < a < 2 ^ 53 -> 0 < b ->
  (f <- int_truediv a b ;; math_floor f)%res = Ok (a / b).
Proof.
  intros Ha Hb. destruct (int_truediv_floor a b Ha Hb) as (f & -> & Hf).
  exact Hf.
Qed.

Lemma thumbnail_path_with_dimensions (s n lw lh sw sh : Z) (w : World) :
  get_training_thumbnail_path s n (Some lw) (Some lh) (Some sw) (Some sh) w
  = (w, Ok ((DEST_TRAIN_THUMBNAIL_DIR ++ os_sep ++ TRAIN_PREFIX ++ zfill 3 (str n)
             ++ "-" ++ str s ++ "x")
            ++ "-" ++ str lw ++ "x" ++ str lh ++ "-" ++ str sw ++ "x" ++ str sh
            ++ "" ++ "." ++ THUMBNAIL_EXT)).
Proof.
  unfold get_training_thumbnail_path, ret. cbn [is_None andb str_opt].
  do 2 f_equal. rewrite !append_assoc. reflexivity.
Qed.

Lemma bindM_ok {A B} (c : M A) (k : A -> M B) (w w' : World) (a : A) :
  c w = (w', Ok a) -> bindM c k w = k a w'.
Proof. intros H. unfold bindM. now rewrite H. Qed.

(** The files of the world after a step that only adds directories. *)
Lemma ensure_dir_files (dir : string) (w : World) :
  files (fst (ensure_dir dir w)) = files w
  /\ slide_files (fst (ensure_dir dir w)) = slide_files w
  /\ resize_ok (fst (ensure_dir dir w)) = resize_ok w
  /\ snd (ensure_dir dir w) = Ok tt.
Proof.
  unfold ensure_dir, bindM, os_path_exists, os_makedirs, ret.
  destruct (_ || _ || _)%bool; cbn; auto.
Qed.

(** What [save_thumbnail] leaves behind: nothing new, or one file at [path]. *)
Lemma save_thumbnail_files (img : Image) (sz : Z) (path : string) (w : World) :
  files (fst (save_thumbnail img sz path w)) = files w
  \/ exists timg,
       files (fst (save_thumbnail img sz path w)) = write_file path timg (files w)
       /\ snd (save_thumbnail img sz path w) = Ok tt.
Proof.
  unfold save_thumbnail. destruct (size img) as [iw ih].
  unfold bindM, lift.
  destruct (a <- int_truediv (sz * iw) (Z.max iw ih) ;; py_round a)%res as [mw|e];
    [|now left]. cbn [fst snd].
  destruct (a <- int_truediv (sz * ih) (Z.max iw ih) ;; py_round a)%res as [mh|e];
    [|now left]. cbn [fst snd].
  unfold image_resize. destruct (resize_ok w (mw, mh)); [|now left].
  destruct (ensure_dir_files (os_path_dirname path) w) as (Hf & _ & _ & Hr).
  destruct (ensure_dir (os_path_dirname path) w) as [w1 r1]. cbn [fst snd] in *.
  subst r1. right. eexists. unfold image_save. cbn [fst snd files].
  rewrite Hf. split; reflexivity.
Qed.






(* ================================================================== *)
(** * The coordinate mapper *)

Definition not_infinity (f : float) : Prop :=
  match f with
  | S754_infinity _ => False
  | _ => True
  end.

Lemma int_truediv_not_infinity (a b : Z) (f : float) :
  int_truediv a b = Ok f -> not_infinity f.
Proof.
  unfold int_truediv. destruct (b =? 0); [discriminate|].
  destruct (SFdiv prec emax (raw_int a) (raw_int b)); intros [= <-]; exact I.
Qed.

Lemma float_of_int_not_infinity (n : Z) (f : float) :
  float_of_int n = Ok f -> not_infinity f.
Proof.
  unfold float_of_int.
  destruct (binary_normalize prec emax n 0 false); intros [= <-]; exact I.
Qed.

(** The value of a positive finite float that rounds [x >= 1] is at least 1. *)
Lemma rounded_ge_1 (x : Q) (p : positive) (e' : Z) :
  (1 <= x)%Q -> rounded x (S754_finite false p e') -> (1 <= F2Q (Z.pos p) e')%Q.
Proof.
  intros Hx (_ & _ & m & e & Hv & Hm & He & Herr1 & Herr2 & Hx53 & H4).
  rewrite Hv. destruct (Z_le_gt_dec e 0) as [He0|He0].
  - change 1%Q with (inject_Z 1). apply (grid_ge m e 1 x He0); assumption.
  - pose proof (F2Q_le 1 m e ltac:(lia)) as H. unfold F2Q in H at 1.
    change (inject_Z 1) with 1%Q in H.
    pose proof (bpow_le 0 e ltac:(lia)) as H0. rewrite bpow_0 in H0. lra.
Qed.

Lemma rounded_not_zero (x : Q) (s : bool) :
  (1 <= x)%Q -> ~ rounded x (S754_zero s).
Proof.
  intros Hx [_ H]. pose proof (bpow_lt (-1074) 0 ltac:(lia)) as H0.
  rewrite bpow_0 in H0. lra.
Qed.

Lemma quotient_ge_1 (a b : Z) : 0 < b <= a -> (1 <= inject_Z a / inject_Z b)%Q.
Proof.
  intros H. pose proof (inject_Z_pos b ltac:(lia)).
  apply Qle_shift_div_l; [assumption|]. rewrite Qmult_1_l, <- Zle_Qle. lia.
Qed.

(** The divisor of the mapper: for a dimension of at least [SCALE_FACTOR]
    the division either overflows or gives a float whose floor is positive. *)
Lemma mapper_divisor_positive (a b : Z) :
  0 < b <= a ->
  match (f <- int_truediv a b ;; math_floor f)%res with
  | Ok d => 0 < d
  | Raise e => e = OverflowError
  end.
Proof.
  intros H. pose proof (int_truediv_rounded a b ltac:(lia) ltac:(lia)) as Hr.
  pose proof (quotient_ge_1 a b H) as Hx.
  destruct (int_truediv a b) as [f|e] eqn:E; [|exact (proj1 Hr)].
  pose proof (int_truediv_not_infinity _ _ _ E) as Hni.
  destruct f as [s|s| |s p e']; cbn [bind].
  - exfalso. exact (rounded_not_zero _ _ Hx Hr).
  - destruct Hni.
  - destruct Hr.
  - assert (Es : s = false) by apply Hr. subst s.
    pose proof (rounded_ge_1 _ _ _ Hx Hr) as H1.
    destruct (math_floor_finite p e') as (z & -> & Hz1 & Hz2).
    assert (1 < z + 1); [|cbn [bind]; lia].
    rewrite Zlt_Qlt. change (inject_Z 1) with 1%Q. lra.
Qed.

Lemma float_of_int_positive (d : Z) :
  0 < d ->
  match float_of_int d with
  | Ok y => is_zero y = false
  | Raise e => e = OverflowError
  end.
Proof.
  intros Hd. unfold float_of_int.
  destruct d as [|p|p]; try lia.
  pose proof (binary_normalize_rounded p) as Hr.
  destruct (binary_normalize prec emax (Z.pos p) 0 false) as [s|s| |s q e'];
    try reflexivity.
  exfalso. apply (rounded_not_zero _ s) in Hr; [assumption|].
  change 1%Q with (inject_Z 1). rewrite <- Zle_Qle. lia.
Qed.

Definition is_ZeroDivisionError {A} (r : result A) : bool :=
  match r with
  | Raise ZeroDivisionError => true
  | _ => false
  end.

Lemma float_of_int_no_zero_division (n : Z) :
  is_ZeroDivisionError (float_of_int n) = false.
Proof.
  unfold float_of_int. now destruct (binary_normalize prec emax n 0 false).
Qed.

Lemma py_round_no_zero_division (x : float) :
  is_ZeroDivisionError (py_round x) = false.
Proof. destruct x as [s|s| |s p e]; try reflexivity. simpl. now destruct (0 <=? e). Qed.

(** One axis of the mapper, as the source writes it. *)
Definition mapped (SCALE_FACTOR large small : Z) : result Z :=
  (a <- int_truediv large SCALE_FACTOR ;;
   b <- int_truediv large SCALE_FACTOR ;;
   d <- math_floor b ;;
   c <- float_div_int a d ;;
   p <- float_mul_int c (SCALE_FACTOR * small) ;;
   py_round p)%res.

Lemma small_to_large_mapping_axes (SCALE_FACTOR x y w h : Z) :
  small_to_large_mapping SCALE_FACTOR (x, y) (w, h)
  = (large_x <- mapped SCALE_FACTOR w x ;;
     large_y <- mapped SCALE_FACTOR h y ;;
     Ok (large_x, large_y))%res.
Proof. reflexivity. Qed.

Lemma mapped_no_zero_division (SCALE_FACTOR large small : Z) :
  0 < SCALE_FACTOR <= large ->
  is_ZeroDivisionError (mapped SCALE_FACTOR large small) = false.
Proof.
  intros H. unfold mapped.
  pose proof (mapper_divisor_positive large SCALE_FACTOR H) as Hd.
  destruct (int_truediv large SCALE_FACTOR) as [f|e]; cbn [bind] in *;
    [|now subst e].
  destruct (math_floor f) as [d|e]; cbn [bind]; [|now subst e].
  unfold float_div_int. pose proof (float_of_int_positive d Hd) as Hy.
  destruct (float_of_int d) as [y|e]; cbn [bind]; [|now subst e].
  unfold float_truediv. rewrite Hy. cbn [bind].
  unfold float_mul_int.
  pose proof (float_of_int_no_zero_division (SCALE_FACTOR * small)) as Hp.
  destruct (float_of_int (SCALE_FACTOR * small)) as [z|e]; cbn [bind];
    [apply py_round_no_zero_division | exact Hp].
Qed.

(** C10. The divisors of the mapper: for large dimensions of at least a
    positive [SCALE_FACTOR], the floor that each axis divides by is positive
    whenever it is computed, and the mapping never fails with a division by
    zero; and there is an input with a dimension below [SCALE_FACTOR] for
    which the divisor is zero and the mapping fails with
    [ZeroDivisionError]. *)
Theorem mapper_divisors (SCALE_FACTOR x y w h : Z) :
  0 < SCALE_FACTOR -> SCALE_FACTOR <= w -> SCALE_FACTOR <= h ->
  (forall d, (f <- int_truediv w SCALE_FACTOR ;; math_floor f)%res = Ok d -> 0 < d)
  /\ (forall d, (f <- int_truediv h SCALE_FACTOR ;; math_floor f)%res = Ok d -> 0 < d)
  /\ small_to_large_mapping SCALE_FACTOR (x, y) (w, h) <> Raise ZeroDivisionError
  /\ (exists w0 h0 x0 y0,
        0 < w0 < SCALE_FACTOR_default
        /\ (f <- int_truediv w0 SCALE_FACTOR_default ;; math_floor f)%res = Ok 0
        /\ small_to_large_mapping SCALE_FACTOR_default (x0, y0) (w0, h0)
           = Raise ZeroDivisionError).
Proof.
  intros HS Hw Hh.
  pose proof (mapper_divisor_positive w SCALE_FACTOR ltac:(lia)) as Dw.
  pose proof (mapper_divisor_positive h SCALE_FACTOR ltac:(lia)) as Dh.
  split; [intros d E; now rewrite E in Dw|].
  split; [intros d E; now rewrite E in Dh|].
  split.
  - rewrite small_to_large_mapping_axes.
    pose proof (mapped_no_zero_division SCALE_FACTOR w x ltac:(lia)) as Zw.
    pose proof (mapped_no_zero_division SCALE_FACTOR h y ltac:(lia)) as Zh.
    destruct (mapped SCALE_FACTOR w x) as [lx|e]; cbn [bind].
    + destruct (mapped SCALE_FACTOR h y) as [ly|e]; cbn [bind]; [discriminate|].
      intros [= ->]. discriminate Zh.
    + intros [= ->]. discriminate Zw.
  - exists 31, 108288, 0, 0. repeat split; try lia; vm_compute; reflexivity.
Qed.

Lemma mapper_divisors_witness :
  (forall d, (f <- int_truediv 49920 32 ;; math_floor f)%res = Ok d -> 0 < d)
  /\ (forall d, (f <- int_truediv 108288 32 ;; math_floor f)%res = Ok d -> 0 < d)
  /\ small_to_large_mapping 32 (1560, 3384) (49920, 108288) <> Raise ZeroDivisionError
  /\ (exists w0 h0 x0 y0,
        0 < w0 < SCALE_FACTOR_default
        /\ (f <- int_truediv w0 SCALE_FACTOR_default ;; math_floor f)%res = Ok 0
        /\ small_to_large_mapping SCALE_FACTOR_default (x0, y0) (w0, h0)
           = Raise ZeroDivisionError).
Proof.
  apply (mapper_divisors 32 1560 3384 49920 108288); lia.
Defined.

Section ErrorBudget.
Local Open Scope Q_scope.

(** The arithmetic of the error budget: three roundings of relative error
    at most [u = 2^-53] keep the product within 1 of [W < 2^52]. *)
Lemma corner_error_budget (u sS Q0 W x1 F1 x2 F2 x3 : Q) :
  u == 1 # 9007199254740992 ->
  1 <= sS -> 1 <= Q0 -> 1 <= W -> W <= 4503599627370495 ->
  x1 * sS == W ->
  F1 - x1 <= x1 * u -> x1 - F1 <= x1 * u ->
  x2 * Q0 == F1 ->
  F2 - x2 <= x2 * u -> x2 - F2 <= x2 * u ->
  x3 == F2 * (sS * Q0) ->
  W - 1 < x3 < W + 1 /\ 1 < 2 * x3.
Proof.
  intros Hu HS HQ HW1 HW A1 A3a A3b A4 A5a A5b A6.
  assert (Hx1 : 0 < x1) by nra.
  assert (D1a : sS * F1 - W <= W * u) by nra.
  assert (D1b : W - sS * F1 <= W * u) by nra.
  assert (HF1 : 0 < F1) by nra.
  assert (Hx2 : 0 < x2) by nra.
  assert (E2 : x3 - sS * F1 == sS * Q0 * (F2 - x2)).
  { rewrite A6. rewrite <- A4. ring. }
  assert (E3 : sS * Q0 * (x2 * u) == sS * F1 * u).
  { rewrite <- A4. ring. }
  assert (HSQ : 0 < sS * Q0) by nra.
  assert (D2a : x3 - sS * F1 <= sS * F1 * u).
  { rewrite E2, <- E3. apply Qmult_le_l; assumption. }
  assert (D2b : sS * F1 - x3 <= sS * F1 * u).
  { assert (sS * F1 - x3 == sS * Q0 * (x2 - F2)) as -> by (rewrite A6, <- A4; ring).
    rewrite <- E3. apply Qmult_le_l; assumption. }
  assert (Wu : W * u <= (1 # 2) - u) by (rewrite Hu; lra).
  assert (Hu0 : 0 < u) by (rewrite Hu; reflexivity).
  assert (Hu1 : u < 1) by (rewrite Hu; reflexivity).
  assert (D3 : sS * F1 * u <= (W + W * u) * u) by nra.
  assert (D4 : (W + W * u) * u <= ((1 # 2) - u) * (1 + u)).
  { setoid_replace ((W + W * u) * u) with (W * u * (1 + u)) by ring. nra. }
  assert (D5 : ((1 # 2) - u) * (1 + u) < 1 # 2) by nra.
  assert (D6 : W * u <= W * (1 # 8)) by (rewrite Hu; nra).
  assert (D7 : (W + W * u) * u <= W * (1 # 8)) by (rewrite Hu in *; nra).
  repeat split; lra.
Qed.

End ErrorBudget.

Lemma bpow_m53 : (bpow (-53) == 1 # 9007199254740992)%Q.
Proof. reflexivity. Qed.

(** Rounding a value of at least 1 changes it by a relative [2^-53] at most. *)
Lemma rounded_rel_error (x : Q) (p : positive) (e' : Z) :
  (1 <= x)%Q -> rounded x (S754_finite false p e') ->
  (F2Q (Z.pos p) e' - x <= x * bpow (-53))%Q
  /\ (x - F2Q (Z.pos p) e' <= x * bpow (-53))%Q.
Proof.
  intros Hx (_ & _ & m & e & Hv & Hm & He & Herr1 & Herr2 & Hx53 & H4).
  rewrite Hv. pose proof (bpow_pos (-53)) as Hu.
  destruct H4 as [H4|[->|H4]].
  - rewrite H4. split; nra.
  - pose proof (bpow_le (-1074) (-53) ltac:(lia)). split; nra.
  - pose proof (bpow_plus (e + 52) (-52)) as Hp.
    replace (e + 52 + -52) with e in Hp by lia.
    pose proof (bpow_succ (-53)) as H52. change (-53 + 1) with (-52) in H52.
    pose proof (bpow_pos (e + 52)).
    assert (bpow e <= x * bpow (-52))%Q by (rewrite Hp; nra).
    split; nra.
Qed.

(** Rounding a value below [2^53] changes it by a half at most. *)
Lemma rounded_abs_error (x : Q) (p : positive) (e' : Z) :
  (x < bpow 53)%Q -> rounded x (S754_finite false p e') ->
  (2 * (F2Q (Z.pos p) e' - x) <= 1)%Q /\ (2 * (x - F2Q (Z.pos p) e') <= 1)%Q.
Proof.
  intros Hx (_ & _ & m & e & Hv & Hm & He & Herr1 & Herr2 & Hx53 & H4).
  rewrite Hv.
  destruct H4 as [H4|H4]; [rewrite H4; split; lra|].
  assert (He0 : e <= 0).
  { destruct H4 as [->|H4]; [lia|].
    assert (e + 52 < 53); [|lia]. apply bpow_lt_inv. lra. }
  pose proof (bpow_le e 0 He0) as H0. rewrite bpow_0 in H0. split; lra.
Qed.

Lemma float_of_int_exact (d : Z) :
  0 < d < 2 ^ 53 ->
  exists p e, float_of_int d = Ok (S754_finite false p e)
              /\ (F2Q (Z.pos p) e == inject_Z d)%Q.
Proof.
  intros Hd. unfold float_of_int. destruct d as [|pd|pd]; try lia.
  pose proof (binary_normalize_rounded pd) as Hr.
  assert (H1 : (1 <= inject_Z (Z.pos pd))%Q).
  { change 1%Q with (inject_Z 1). rewrite <- Zle_Qle. lia. }
  assert (H53 : (inject_Z (Z.pos pd) < bpow 53)%Q)
    by (rewrite bpow_53, <- Zlt_Qlt; lia).
  destruct (binary_normalize prec emax (Z.pos pd) 0 false) as [s|s| |s p e'].
  - exfalso. exact (rounded_not_zero _ _ H1 Hr).
  - exfalso. destruct Hr as [_ Hr]. pose proof (bpow_lt 53 970 ltac:(lia)). lra.
  - destruct Hr.
  - assert (Es : s = false) by apply Hr. subst s.
    exists p, e'. split; [reflexivity|].
    destruct Hr as (_ & _ & m & e & Hv & Hm & He & Herr1 & Herr2 & Hx53 & H4).
    rewrite Hv. destruct H4 as [H4|H4]; [exact H4|].
    assert (He0 : e <= 0).
    { destruct H4 as [->|H4]; [lia|].
      assert (e + 52 < 53); [|lia]. apply bpow_lt_inv. lra. }
    apply Qle_antisym.
    + apply (grid_le m e (Z.pos pd) (inject_Z (Z.pos pd)) He0); [lra | assumption].
    + apply (grid_ge m e (Z.pos pd) (inject_Z (Z.pos pd)) He0); [lra | assumption].
Qed.

(** [round] returns an integer within a half of its argument. *)
Lemma py_round_near (p : positive) (e : Z) :
  exists z, py_round (S754_finite false p e) = Ok z
            /\ (2 * (inject_Z z - F2Q (Z.pos p) e) <= 1)%Q
            /\ (2 * (F2Q (Z.pos p) e - inject_Z z) <= 1)%Q.
Proof.
  cbn [py_round signed].
  destruct (Z.leb_spec 0 e) as [He|He].
  - eexists. split; [reflexivity|].
    rewrite Z.shiftl_mul_pow2 by lia. unfold F2Q.
    rewrite inject_Z_mult, <- (bpow_Z e He). split; lra.
  - pose proof (shiftl_floor (Z.pos p) e) as [Hlo Hhi].
    remember (Z.shiftl (Z.pos p) e) as q eqn:Eq.
    assert (Eh : 2 * Z.shiftl 1 (- e - 1) = 2 ^ (- e)).
    { rewrite Z.shiftl_mul_pow2, Z.mul_1_l by lia.
      rewrite <- Z.pow_succ_r by lia. f_equal. lia. }
    assert (Es : Z.shiftl q (- e) = q * 2 ^ (- e))
      by (apply Z.shiftl_mul_pow2; lia).
    rewrite Es. remember (Z.shiftl 1 (- e - 1)) as half eqn:Ehalf.
    remember (Z.pos p - q * 2 ^ (- e)) as r eqn:Er.
    (* the value of the float, scaled to integers *)
    pose proof (F2Q_int q e ltac:(lia)) as Hq.
    pose proof (bpow_pos e) as HB.
    assert (HF : (F2Q (Z.pos p) e
                  == inject_Z q + inject_Z r * bpow e)%Q).
    { rewrite <- Hq. unfold F2Q.
      replace (Z.pos p) with (q * 2 ^ (- e) + r) by lia.
      rewrite inject_Z_plus. ring. }
    assert (HD : (inject_Z (2 * half) * bpow e == 1)%Q).
    { rewrite Eh, <- (bpow_Z (- e)) by lia. rewrite <- bpow_plus.
      replace (- e + e) with 0 by lia. apply bpow_0. }
    rewrite inject_Z_mult in HD. change (inject_Z 2) with 2%Q in HD.
    assert (Hr0 : (0 <= inject_Z r * bpow e)%Q) by lra.
    assert (Hr1 : (inject_Z r * bpow e < 1)%Q).
    { rewrite inject_Z_plus in Hhi. change (inject_Z 1) with 1%Q in Hhi. lra. }
    destruct (Z.ltb_spec r half) as [Hlt|Hge];
      [|destruct (Z.ltb_spec half r) as [Hgt|Hle]].
    + exists q. split; [reflexivity|].
      assert (inject_Z r < inject_Z half)%Q by (now rewrite <- Zlt_Qlt).
      split; nra.
    + exists (q + 1). split; [reflexivity|].
      assert (inject_Z half < inject_Z r)%Q by (now rewrite <- Zlt_Qlt).
      rewrite inject_Z_plus. change (inject_Z 1) with 1%Q. split; nra.
    + assert (Erh : r = half) by lia. rewrite Erh in HF.
      assert (2 * (inject_Z half * bpow e) == 1)%Q by lra.
      destruct (Z.even q); eexists; (split; [reflexivity|]);
        rewrite ?inject_Z_plus; change (inject_Z 1) with 1%Q; split; lra.
Qed.

Lemma rounded_comp (x y : Q) (f : float) :
  (x == y)%Q -> rounded x f -> rounded y f.
Proof.
  intros E. destruct f as [s|s| |s p e]; cbn [rounded]; try tauto.
  - now rewrite E.
  - now rewrite E.
  - intros (H1 & H2 & m & e0 & H). split; [exact H1|]. split; [exact H2|].
    exists m, e0. now rewrite <- E.
Qed.

(** One axis of the mapper at the maximal corner: below [2^52] the result
    is within one pixel of the large dimension. *)
Lemma mapped_corner (SCALE_FACTOR w : Z) :
  0 < SCALE_FACTOR -> SCALE_FACTOR <= w < 2 ^ 52 ->
  exists z, mapped SCALE_FACTOR w (w / SCALE_FACTOR) = Ok z /\ w - 1 <= z <= w + 1.
Proof.
  intros HS Hw. unfold mapped.
  remember (w / SCALE_FACTOR) as q eqn:Eq.
  assert (Hq1 : 1 <= q).
  { rewrite Eq. apply Z.div_le_lower_bound; lia. }
  assert (Hqw : SCALE_FACTOR * q <= w).
  { rewrite Eq. apply Z.mul_div_le. lia. }
  assert (Hq53 : q < 2 ^ 53) by nia.
  (* the quotient and its floor *)
  destruct (int_truediv_floor w SCALE_FACTOR ltac:(lia) HS) as (f1 & E1 & Efl).
  rewrite <- Eq in Efl.
  pose proof (int_truediv_rounded w SCALE_FACTOR ltac:(lia) HS) as Hr1.
  pose proof (int_truediv_not_infinity _ _ _ E1) as Hni1.
  rewrite E1 in Hr1 |- *. cbn [bind]. rewrite Efl. cbn [bind].
  pose proof (quotient_ge_1 w SCALE_FACTOR ltac:(lia)) as Hx1.
  remember (inject_Z w / inject_Z SCALE_FACTOR)%Q as x1 eqn:Ex1.
  pose proof (inject_Z_pos SCALE_FACTOR HS) as HSQ.
  assert (A1 : (x1 * inject_Z SCALE_FACTOR == inject_Z w)%Q)
    by (rewrite Ex1; field; lra).
  destruct f1 as [s|s| |s p1 e1];
    [exfalso; exact (rounded_not_zero _ _ Hx1 Hr1) | destruct Hni1
     | destruct Hr1 | ].
  assert (Es : s = false) by apply Hr1. subst s.
  destruct (rounded_rel_error _ _ _ Hx1 Hr1) as [A3a A3b].
  destruct (math_floor_finite p1 e1) as (z0 & Ez0 & Hz0).
  rewrite Efl in Ez0. injection Ez0 as <-.
  rewrite inject_Z_plus in Hz0. change (inject_Z 1) with 1%Q in Hz0.
  remember (F2Q (Z.pos p1) e1) as F1 eqn:EF1.
  assert (HQ1 : (1 <= inject_Z q)%Q).
  { change 1%Q with (inject_Z 1). now rewrite <- Zle_Qle. }
  (* the correction factor *)
  unfold float_div_int.
  destruct (float_of_int_exact q ltac:(lia)) as (pq & eq & Efq & Vq).
  rewrite Efq. cbn [bind]. unfold float_truediv. cbn [is_zero bind].
  remember (F1 / inject_Z q)%Q as x2 eqn:Ex2.
  assert (A4 : (x2 * inject_Z q == F1)%Q) by (rewrite Ex2; field; lra).
  assert (Hr2 : rounded x2 (SFdiv prec emax (S754_finite false p1 e1)
                              (S754_finite false pq eq))).
  { apply SFdiv_rounded. rewrite Vq, <- EF1. exact A4. }
  assert (Hx2 : (1 <= x2 < 2)%Q) by (split; nra).
  destruct (SFdiv prec emax (S754_finite false p1 e1) (S754_finite false pq eq))
    as [s|s| |s p2 e2];
    [exfalso; exact (rounded_not_zero _ _ (proj1 Hx2) Hr2)
    | exfalso; destruct Hr2 as [_ Hr2];
      pose proof (bpow_le 1 970 ltac:(lia)) as H0;
      change (bpow 1) with 2%Q in H0; lra
    | destruct Hr2 | ].
  assert (Es : s = false) by apply Hr2. subst s.
  destruct (rounded_rel_error _ _ _ (proj1 Hx2) Hr2) as [A5a A5b].
  remember (F2Q (Z.pos p2) e2) as F2 eqn:EF2.
  (* the product *)
  unfold float_mul_int.
  destruct (float_of_int_exact (SCALE_FACTOR * q) ltac:(nia)) as (pp & ep & Efp & Vp).
  rewrite Efp. cbn [bind]. unfold float_mul.
  remember (F2 * (inject_Z SCALE_FACTOR * inject_Z q))%Q as x3 eqn:Ex3.
  assert (Hr3 : rounded x3 (SFmul prec emax (S754_finite false p2 e2)
                              (S754_finite false pp ep))).
  { apply (rounded_comp (F2Q (Z.pos p2) e2 * F2Q (Z.pos pp) ep));
      [|apply SFmul_rounded].
    rewrite Vp, <- EF2, inject_Z_mult, Ex3. reflexivity. }
  assert (HSQ1 : (1 <= inject_Z SCALE_FACTOR)%Q).
  { change 1%Q with (inject_Z 1). rewrite <- Zle_Qle. lia. }
  assert (HW1 : (1 <= inject_Z w)%Q).
  { change 1%Q with (inject_Z 1). rewrite <- Zle_Qle. lia. }
  assert (HW : (inject_Z w <= 4503599627370495)%Q).
  { change 4503599627370495%Q with (inject_Z 4503599627370495).
    rewrite <- Zle_Qle. lia. }
  destruct (corner_error_budget (bpow (-53)) (inject_Z SCALE_FACTOR) (inject_Z q)
              (inject_Z w) x1 F1 x2 F2 x3 bpow_m53 HSQ1 HQ1 HW1 HW A1 A3a A3b A4
              A5a A5b ltac:(rewrite Ex3; reflexivity)) as ((B1 & B2) & B3).
  assert (H53 : (x3 < bpow 53)%Q).
  { rewrite bpow_53. change (inject_Z (2 ^ 53)) with 9007199254740992%Q. lra. }
  destruct (SFmul prec emax (S754_finite false p2 e2) (S754_finite false pp ep))
    as [s|s| |s p3 e3];
    [exfalso; destruct Hr3 as [_ Hr3];
      pose proof (bpow_le (-1074) 0 ltac:(lia)) as H0; rewrite bpow_0 in H0; lra
    | exfalso; destruct Hr3 as [_ Hr3];
      pose proof (bpow_lt 53 970 ltac:(lia)); lra
    | destruct Hr3 | ].
  assert (Es : s = false) by apply Hr3. subst s.
  destruct (rounded_abs_error _ _ _ H53 Hr3) as [A7a A7b].
  destruct (py_round_near p3 e3) as (z & -> & A8a & A8b).
  exists z. split; [reflexivity|].
  assert (inject_Z (w - 2) < inject_Z z)%Q.
  { replace (w - 2) with (w + (-2)) by lia. rewrite inject_Z_plus.
    change (inject_Z (-2)) with (-2)%Q. lra. }
  assert (inject_Z z < inject_Z (w + 2))%Q.
  { rewrite inject_Z_plus. change (inject_Z 2) with 2%Q. lra. }
  rewrite <- Zlt_Qlt in *. lia.
Qed.

(** C5 (as the code behaves). For large dimensions of at least a positive
    [SCALE_FACTOR] and below [2^52], mapping the maximal corner of the small
    image lands within one pixel of the large dimensions in each axis; and
    for the slide of size 49920 x 108288 at scale 32 the corner (1560, 3384)
    maps back to (49920, 108288) exactly. *)
Theorem mapping_boundary (SCALE_FACTOR w h : Z) :
  0 < SCALE_FACTOR ->
  SCALE_FACTOR <= w < 2 ^ 52 -> SCALE_FACTOR <= h < 2 ^ 52 ->
  (exists x' y',
     small_to_large_mapping SCALE_FACTOR (w / SCALE_FACTOR, h / SCALE_FACTOR) (w, h)
     = Ok (x', y')
     /\ Z.abs (x' - w) <= 1 /\ Z.abs (y' - h) <= 1)
  /\ small_to_large_mapping SCALE_FACTOR_default (1560, 3384) (49920, 108288)
     = Ok (49920, 108288).
Proof.
  intros HS Hw Hh. split; [|vm_compute; reflexivity].
  destruct (mapped_corner SCALE_FACTOR w HS Hw) as (x' & Ex & Hx).
  destruct (mapped_corner SCALE_FACTOR h HS Hh) as (y' & Ey & Hy).
  exists x', y'. rewrite small_to_large_mapping_axes, Ex, Ey.
  split; [reflexivity|]. lia.
Qed.

Lemma mapping_boundary_witness :
  (exists x' y',
     small_to_large_mapping 32 (49921 / 32, 108300 / 32) (49921, 108300)
     = Ok (x', y')
     /\ Z.abs (x' - 49921) <= 1 /\ Z.abs (y' - 108300) <= 1)
  /\ small_to_large_mapping SCALE_FACTOR_default (1560, 3384) (49920, 108288)
     = Ok (49920, 108288).
Proof. apply (mapping_boundary 32 49921 108300); lia. Defined.

(** C5, counterexample to the claim as stated: at scale 1000, for the large
    dimensions (8803268389620839, 8803268389620839), the maximal corner maps
    to a point two pixels off in each axis. *)
Lemma mapping_boundary_counterexample :
  1000 <= 8803268389620839
  /\ small_to_large_mapping 1000
       (8803268389620839 / 1000, 8803268389620839 / 1000)
       (8803268389620839, 8803268389620839)
     = Ok (8803268389620841, 8803268389620841)
  /\ ~ Z.abs (8803268389620841 - 8803268389620839) <= 1.
Proof. split; [lia|]. split; [vm_compute; reflexivity | lia]. Qed.

(* ================================================================== *)
(** * The partition, on every input of the domain

    The plan of every pair (number of slides, number of processes) of the
    domain is computed with the machine's binary64 arithmetic, which the
    kernel's primitive floats are; their specification relates each
    primitive operation to the [SpecFloat] operation of the model. *)

(** One task of the plan, as the loop body of the source computes it. *)
Definition task_entry (images_per_process : float) (num_process : Z)
  : result (Z * Z) :=
  (start_index <-
     (t <- int_mul_float (num_process - 1) images_per_process ;;
      float_add_int t 1) ;;
   end_index <- int_mul_float num_process images_per_process ;;
   start_index <- int_of_float start_index ;;
   end_index <- int_of_float end_index ;;
   Ok (start_index, end_index))%res.

Lemma multiprocess_tasks_entries (num_train_images cpu_count : Z) :
  multiprocess_tasks num_train_images cpu_count
  = let num_processes :=
      if cpu_count >? num_train_images then num_train_images else cpu_count in
    (images_per_process <- int_truediv num_train_images num_processes ;;
     mapM (task_entry images_per_process) (range 1 (num_processes + 1)))%res.
Proof. reflexivity. Qed.

(** Truncation of a primitive float in [1, 2^53), on machine integers. *)
Definition fast_trunc (f : PrimFloat.float) : option Uint63.int :=
  if (PrimFloat.leb 1%float f && PrimFloat.ltb f 9007199254740992%float)%bool
  then
    let (mf, ex) := PrimFloat.frshiftexp f in
    Some (Uint63.lsr (PrimFloat.normfr_mantissa mf) (Uint63.sub 2154%uint63 ex))
  else None.

Definition fast_entry (ipp : PrimFloat.float) (i : Uint63.int)
  : option (Uint63.int * Uint63.int) :=
  let s1 := PrimFloat.add (PrimFloat.mul (PrimFloat.of_uint63 (Uint63.sub i 1%uint63)) ipp)
              (PrimFloat.of_uint63 1%uint63) in
  let e1 := PrimFloat.mul (PrimFloat.of_uint63 i) ipp in
  match fast_trunc s1, fast_trunc e1 with
  | Some s, Some e => Some (s, e)
  | _, _ => None
  end.

Fixpoint fast_plan (n : nat) (ipp : PrimFloat.float) (i : Uint63.int)
  : option (list (Uint63.int * Uint63.int)) :=
  match n with
  | O => Some []
  | S n' =>
      match fast_entry ipp i with
      | Some p =>
          match fast_plan n' ipp (Uint63.add i 1%uint63) with
          | Some l => Some (p :: l)
          | None => None
          end
      | None => None
      end
  end.

Definition fast_tasks (num_train_images cpu_count : Z)
  : option (list (Uint63.int * Uint63.int)) :=
  let num_processes :=
    if cpu_count >? num_train_images then num_train_images else cpu_count in
  match int_truediv num_train_images num_processes with
  | Ok ipp =>
      if SpecFloat.valid_binary prec emax ipp
      then fast_plan (Z.to_nat num_processes) (SF2Prim ipp) 1%uint63
      else None
  | Raise _ => None
  end.

Definition to_Z2 (p : Uint63.int * Uint63.int) : Z * Z :=
  (Uint63.to_Z (fst p), Uint63.to_Z (snd p)).

Lemma SFleb_one (s : bool) (m : positive) (e : Z) :
  SFleb (Prim2SF 1%float) (S754_finite s m e) = true -> s = false /\ -52 <= e.
Proof.
  change (Prim2SF 1%float) with (S754_finite false 4503599627370496 (-52)).
  unfold SFleb, SFcompare. destruct s; [discriminate|].
  destruct (Z.compare_spec (-52) e) as [E|E|E]; intros H1;
    split; try reflexivity; try lia; discriminate H1.
Qed.

Lemma SFltb_2p53 (m : positive) (e : Z) :
  SpecFloat.valid_binary prec emax (S754_finite false m e) = true ->
  -52 <= e ->
  SFltb (S754_finite false m e) (Prim2SF 9007199254740992%float) = true -> e <= 0.
Proof.
  change (Prim2SF 9007199254740992%float) with (S754_finite false 4503599627370496 1).
  unfold SFltb, SFcompare. intros Hv He.
  destruct (Z.compare_spec e 1) as [E|E|E]; [|lia|discriminate].
  subst e. intros H. exfalso.
  cbn [SpecFloat.valid_binary bounded] in Hv. apply andb_true_iff in Hv as [Hc _].
  unfold canonical_mantissa in Hc. apply Z.eqb_eq in Hc. rewrite fexp_eq in Hc.
  pose proof (digits2_pos_bounds m) as [Hl _].
  assert (Hd : Z.pos (digits2_pos m) = 53) by lia. rewrite Hd in Hl.
  change (2 ^ (53 - 1)) with 4503599627370496 in Hl.
  destruct (Pos.compare_cont Eq m 4503599627370496) eqn:Ec; try discriminate.
  pose proof (Pos2Z.pos_lt_pos m 4503599627370496
                (proj1 (Pos.compare_lt_iff m 4503599627370496) Ec)) as Hm.
  clear - Hl Hm. lia.
Qed.

(** [fast_trunc] computes [int(f)]. *)
Lemma fast_trunc_correct (f : PrimFloat.float) (k : Uint63.int) :
  fast_trunc f = Some k -> int_of_float (Prim2SF f) = Ok (Uint63.to_Z k).
Proof.
  unfold fast_trunc.
  destruct (PrimFloat.leb 1%float f) eqn:Hle; [|discriminate].
  destruct (PrimFloat.ltb f 9007199254740992%float) eqn:Hlt; [|discriminate].
  cbn [andb]. rewrite FloatAxioms.leb_spec in Hle. rewrite FloatAxioms.ltb_spec in Hlt.
  pose proof (Prim2SF_valid f) as Hv.
  pose proof (frshiftexp_spec f) as Hfr.
  destruct (Prim2SF f) as [s|s| |s m e] eqn:Ef.
  - discriminate Hle.
  - destruct s; discriminate.
  - discriminate Hle.
  - destruct (SFleb_one _ _ _ Hle) as [-> He].
    pose proof (SFltb_2p53 _ _ Hv He Hlt) as He0.
    cbn [SpecFloat.valid_binary bounded] in Hv. apply andb_true_iff in Hv as [Hc _].
    unfold canonical_mantissa in Hc. apply Z.eqb_eq in Hc. rewrite fexp_eq in Hc.
    assert (Hd : Z.pos (digits2_pos m) = 53) by lia.
    destruct (PrimFloat.frshiftexp f) as [mf ex].
    cbn [SFfrexp] in Hfr. rewrite Hd in Hfr.
    change (prec <=? 53) with true in Hfr. cbv iota in Hfr.
    injection Hfr as Hmf Hex. change shift with 2101 in Hex. change prec with 53 in Hex.
    intros [= <-]. cbn [int_of_float]. f_equal.
    rewrite Uint63Axioms.lsr_spec, normfr_mantissa_spec, Hmf.
    cbn [SFnormfr_mantissa]. change (- prec) with (-53). cbn [Z.eqb Pos.eqb Z.of_N].
    rewrite Uint63Axioms.sub_spec.
    assert (Eex : Uint63.to_Z ex = e + 2154) by lia.
    rewrite Eex. change (Uint63.to_Z 2154%uint63) with 2154.
    replace (2154 - (e + 2154)) with (- e) by lia.
    rewrite Z.mod_small by (change wB with 9223372036854775808; lia).
    rewrite <- (Z.opp_involutive e) at 1. rewrite Z.shiftl_opp_r.
    apply Z.shiftr_div_pow2. lia.
Qed.

(** [float(n)] of a machine integer is what the primitive conversion gives;
    it never overflows. *)
Lemma float_of_int_uint63 (n : Uint63.int) :
  float_of_int (Uint63.to_Z n) = Ok (Prim2SF (PrimFloat.of_uint63 n)).
Proof.
  rewrite of_uint63_spec. unfold float_of_int.
  pose proof (Uint63.to_Z_bounded n) as Hb.
  destruct (Uint63.to_Z n) as [|p|p] eqn:E; [reflexivity| |lia].
  pose proof (binary_normalize_rounded p) as Hr.
  destruct (binary_normalize prec emax (Z.pos p) 0 false); try reflexivity.
  exfalso. destruct Hr as [_ Hr].
  change wB with (2 ^ 63) in Hb.
  assert (H1 : (inject_Z (Z.pos p) < inject_Z (2 ^ 63))%Q) by (rewrite <- Zlt_Qlt; lia).
  rewrite <- bpow_Z in H1 by lia.
  pose proof (bpow_le 63 970 ltac:(lia)). lra.
Qed.

Lemma fast_entry_correct (ipp : PrimFloat.float) (i : Uint63.int)
    (p : Uint63.int * Uint63.int) :
  1 <= Uint63.to_Z i ->
  fast_entry ipp i = Some p ->
  task_entry (Prim2SF ipp) (Uint63.to_Z i) = Ok (to_Z2 p).
Proof.
  intros Hi. unfold fast_entry, task_entry.
  destruct (fast_trunc (PrimFloat.add _ _)) as [s|] eqn:Es; [|discriminate].
  destruct (fast_trunc (PrimFloat.mul _ _)) as [e|] eqn:Ee; [|discriminate].
  intros [= <-].
  apply fast_trunc_correct in Es. apply fast_trunc_correct in Ee.
  rewrite FloatAxioms.add_spec, FloatAxioms.mul_spec in Es.
  rewrite FloatAxioms.mul_spec in Ee.
  pose proof (Uint63.to_Z_bounded i) as Hb.
  assert (E1 : Uint63.to_Z (Uint63.sub i 1) = Uint63.to_Z i - 1).
  { rewrite Uint63.sub_spec. change (Uint63.to_Z 1) with 1. apply Z.mod_small. lia. }
  pose proof (float_of_int_uint63 1) as H1. change (Uint63.to_Z 1) with 1 in H1.
  unfold int_mul_float, float_add_int.
  rewrite <- E1, !float_of_int_uint63, H1. cbn [bind].
  unfold float_add, float_mul.
  unfold SF64add, SF64mul in Es, Ee. rewrite Es, Ee. reflexivity.
Qed.

Lemma fast_plan_correct (n : nat) (ipp : PrimFloat.float) :
  forall (i : Uint63.int) (l : list (Uint63.int * Uint63.int)),
  1 <= Uint63.to_Z i -> Uint63.to_Z i + Z.of_nat n < wB ->
  fast_plan n ipp i = Some l ->
  mapM (task_entry (Prim2SF ipp))
       (map (fun k => Uint63.to_Z i + Z.of_nat k) (seq 0 n))
  = Ok (map to_Z2 l).
Proof.
  induction n as [|n IH]; intros i l Hi Hn; cbn [fast_plan].
  - intros [= <-]. reflexivity.
  - destruct (fast_entry ipp i) as [p|] eqn:Ep; [|discriminate].
    destruct (fast_plan n ipp (Uint63.add i 1)) as [l'|] eqn:El; [|discriminate].
    intros [= <-].
    assert (E1 : Uint63.to_Z (Uint63.add i 1) = Uint63.to_Z i + 1).
    { rewrite Uint63.add_spec. change (Uint63.to_Z 1) with 1. apply Z.mod_small. lia. }
    apply IH in El; [|lia|lia].
    cbn [seq map mapM]. rewrite Z.add_0_r.
    rewrite (fast_entry_correct _ _ _ Hi Ep). cbn [bind].
    rewrite <- seq_shift, map_map.
    rewrite (map_ext _ (fun k => Uint63.to_Z (Uint63.add i 1) + Z.of_nat k)).
    + rewrite El. reflexivity.
    + intros k. rewrite E1. lia.
Qed.

Lemma fast_tasks_correct (num_train_images cpu_count : Z)
    (l : list (Uint63.int * Uint63.int)) :
  0 < num_train_images -> 0 < cpu_count < 2 ^ 62 ->
  fast_tasks num_train_images cpu_count = Some l ->
  multiprocess_tasks num_train_images cpu_count = Ok (map to_Z2 l).
Proof.
  intros Ht Hc. change (2 ^ 62) with 4611686018427387904 in Hc.
  rewrite multiprocess_tasks_entries. unfold fast_tasks.
  cbv zeta.
  remember (if cpu_count >? num_train_images then num_train_images else cpu_count)
    as n eqn:En.
  assert (Hn : 0 < n < 4611686018427387904)
    by (rewrite En, Z.gtb_ltb;
        destruct (Z.ltb_spec num_train_images cpu_count); lia).
  clear En.
  destruct (int_truediv num_train_images n) as [ipp|] eqn:Ei; [|discriminate].
  destruct (SpecFloat.valid_binary prec emax ipp) eqn:Hv; [|discriminate].
  intros Hp. cbn [bind].
  apply fast_plan_correct in Hp.
  - rewrite (Prim2SF_SF2Prim _ Hv) in Hp.
    unfold range. replace (n + 1 - 1) with n by lia. exact Hp.
  - change (Uint63.to_Z 1) with 1. lia.
  - change (Uint63.to_Z 1) with 1. change wB with 9223372036854775808.
    rewrite Z2Nat.id by lia. lia.
Qed.

(** ** What is checked of a computed plan *)

Definition length_of (p : Z * Z) : Z := snd p - fst p + 1.

(** Every range of [l] starts right after the end of the one before it
    ([prev] before the first), is not empty, and holds [lo] or [lo + 1]
    slides. *)
Fixpoint chained (lo prev : Z) (l : list (Z * Z)) : Prop :=
  match l with
  | [] => True
  | p :: l' =>
      fst p = prev + 1 /\ fst p <= snd p /\ lo <= length_of p <= lo + 1
      /\ chained lo (snd p) l'
  end.

(** The end of the last range of [l], [prev] when there is none. *)
Fixpoint last_end (prev : Z) (l : list (Z * Z)) : Z :=
  match l with
  | [] => prev
  | p :: l' => last_end (snd p) l'
  end.

(** The same on machine integers; the last end is [total], or [total - 1]
    when [exact] is off. *)
Fixpoint chain_check (exact : bool) (lo total prev : Uint63.int)
    (l : list (Uint63.int * Uint63.int)) : bool :=
  match l with
  | [] =>
      (Uint63.eqb prev total
       || negb exact && Uint63.eqb (Uint63.add prev 1) total)%bool
  | (s, e) :: l' =>
      (Uint63.eqb s (Uint63.add prev 1) && Uint63.leb s e
       && Uint63.ltb e 1048576
       && Uint63.leb (Uint63.add lo s) (Uint63.add e 1)
       && Uint63.leb e (Uint63.add lo s)
       && chain_check exact lo total e l')%bool
  end.

Lemma chain_check_correct (exact : bool) (lo total : Uint63.int) :
  Uint63.to_Z lo < 1048576 ->
  forall (l : list (Uint63.int * Uint63.int)) (prev : Uint63.int),
  Uint63.to_Z prev < 1048576 ->
  chain_check exact lo total prev l = true ->
  chained (Uint63.to_Z lo) (Uint63.to_Z prev) (map to_Z2 l)
  /\ (last_end (Uint63.to_Z prev) (map to_Z2 l) = Uint63.to_Z total
      \/ exact = false
         /\ last_end (Uint63.to_Z prev) (map to_Z2 l) = Uint63.to_Z total - 1).
Proof.
  intros Hlo.
  assert (Hadd : forall a b : Uint63.int,
             Uint63.to_Z a < 1048576 -> Uint63.to_Z b < 1048576 ->
             Uint63.to_Z (Uint63.add a b) = Uint63.to_Z a + Uint63.to_Z b).
  { intros a b Ha Hb. rewrite Uint63.add_spec. apply Z.mod_small.
    pose proof (Uint63.to_Z_bounded a). pose proof (Uint63.to_Z_bounded b).
    change wB with 9223372036854775808. lia. }
  assert (H1 : Uint63.to_Z 1 = 1) by reflexivity.
  induction l as [|[s e] l IH]; intros prev Hprev; cbn [chain_check map chained last_end].
  - intros H. split; [exact I|].
    apply orb_true_iff in H as [H|H].
    + apply Uint63.eqb_spec in H. left. now subst.
    + apply andb_true_iff in H as [Hx H]. apply Uint63.eqb_spec in H.
      right. split; [now destruct exact|].
      subst total. rewrite Hadd by (rewrite ?H1; lia). rewrite H1. lia.
  - intros H.
    apply andb_true_iff in H as [H Hr]. apply andb_true_iff in H as [H H6].
    apply andb_true_iff in H as [H H5]. apply andb_true_iff in H as [H H4].
    apply andb_true_iff in H as [H2 H3].
    apply Uint63.eqb_spec in H2. apply Uint63.leb_spec in H3.
    apply Uint63.ltb_spec in H4. apply Uint63.leb_spec in H5.
    apply Uint63.leb_spec in H6. change (Uint63.to_Z 1048576) with 1048576 in H4.
    pose proof (Uint63.to_Z_bounded prev) as Hp0.
    assert (Es : Uint63.to_Z s = Uint63.to_Z prev + 1).
    { rewrite H2, Hadd by (rewrite ?H1; lia). rewrite H1. reflexivity. }
    rewrite !Hadd in H5 by (rewrite ?H1; lia).
    rewrite Hadd in H6 by lia. rewrite H1 in H5.
    destruct (IH e H4 Hr) as [Hc Hl].
    unfold to_Z2 at 1 2 3 4 5 6. unfold length_of. cbn [fst snd].
    repeat split; try assumption; try lia.
Qed.

(** The ranges of a chained plan differ in length by at most one slide. *)
Lemma chained_lengths (lo : Z) (l : list (Z * Z)) :
  forall prev, chained lo prev l ->
  forall p, In p l -> lo <= length_of p <= lo + 1.
Proof.
  induction l as [|q l IH]; intros prev H p Hin; [destruct Hin|].
  cbn [chained] in H. destruct H as (_ & _ & Hq & Hc).
  destruct Hin as [<-|Hin]; [exact Hq|]. exact (IH _ Hc _ Hin).
Qed.

Definition plan_check (num_train_images cpu_count : Z) : bool :=
  match fast_tasks num_train_images cpu_count with
  | Some l =>
      let num_processes :=
        if cpu_count >? num_train_images then num_train_images else cpu_count in
      chain_check (num_train_images mod num_processes =? 0)
                  (Uint63.of_Z (num_train_images / num_processes))
                  (Uint63.of_Z num_train_images) 0%uint63 l
  | None => false
  end.

Lemma domain_checked :
  forallb (fun t => forallb (plan_check t) (range 1 65)) (range 1 1001) = true.
Proof. vm_compute. reflexivity. Qed.

Lemma In_range (a b k : Z) : a <= k < b -> In k (range a b).
Proof.
  intros H. unfold range. apply in_map_iff. exists (Z.to_nat (k - a)). split.
  - rewrite Z2Nat.id by lia. lia.
  - apply in_seq. lia.
Qed.

Lemma length_mapM {A B} (f : A -> result B) (l : list A) (r : list B) :
  mapM f l = Ok r -> List.length r = List.length l.
Proof.
  revert r. induction l as [|a l IH]; intros r; cbn [mapM].
  - intros [= <-]. reflexivity.
  - destruct (f a) as [b|]; [|discriminate]. cbn [bind].
    destruct (mapM f l) as [bs|]; [|discriminate]. cbn [bind].
    intros [= <-]. cbn [List.length]. now rewrite (IH bs).
Qed.

(** On the domain the plan exists, its ranges follow one another from 1
    without a gap, none is empty, each holds the integer quotient of the
    slides by the processes or one more, and the last one ends at the
    last slide, or one short of it when the processes do not divide the
    slides. *)
Lemma plan_on_domain (total workers : Z) :
  1 <= total <= 1000 -> 1 <= workers <= 64 ->
  exists plan,
    multiprocess_tasks total workers = Ok plan
    /\ chained (total / Z.min workers total) 0 plan
    /\ (last_end 0 plan = total
        \/ total mod Z.min workers total <> 0 /\ last_end 0 plan = total - 1).
Proof.
  intros Ht Hw.
  pose proof domain_checked as H.
  rewrite forallb_forall in H. specialize (H total (In_range 1 1001 total ltac:(lia))).
  rewrite forallb_forall in H. specialize (H workers (In_range 1 65 workers ltac:(lia))).
  unfold plan_check in H.
  destruct (fast_tasks total workers) as [l|] eqn:El; [|discriminate].
  cbv zeta in H.
  assert (En : (if workers >? total then total else workers) = Z.min workers total).
  { rewrite Z.gtb_ltb. destruct (Z.ltb_spec total workers); lia. }
  rewrite En in H.
  remember (Z.min workers total) as n eqn:Hn.
  assert (Hn' : 1 <= n <= 64) by lia. clear Hn En.
  assert (Hq : 0 <= total / n <= 1000).
  { split; [apply Z.div_pos; lia|].
    apply Z.le_trans with (total / 1); [|rewrite Z.div_1_r; lia].
    apply Z.div_le_compat_l; lia. }
  apply chain_check_correct in H.
  - rewrite !Uint63.of_Z_spec in H.
    rewrite (Z.mod_small (total / n)) in H by (change wB with 9223372036854775808; lia).
    rewrite (Z.mod_small total) in H by (change wB with 9223372036854775808; lia).
    change (Uint63.to_Z 0) with 0 in H.
    exists (map to_Z2 l). split; [|split].
    + apply fast_tasks_correct; [lia| |exact El].
      change (2 ^ 62) with 4611686018427387904. lia.
    + apply H.
    + destruct H as [_ [H|[Hx H]]]; [now left|right]. split; [|exact H].
      apply Z.eqb_neq. exact Hx.
  - rewrite Uint63.of_Z_spec, Z.mod_small by (change wB with 9223372036854775808; lia).
    lia.
  - change (Uint63.to_Z 0) with 0. lia.
Qed.

(** C9.  For every number of slides from 1 to 1000 and every number of
    processes from 1 to 64 the plan exists, and no two of its ranges differ
    in length (end - start + 1) by more than one. *)
Theorem partition_fairness (total workers : Z) :
  1 <= total <= 1000 -> 1 <= workers <= 64 ->
  exists plan,
    multiprocess_tasks total workers = Ok plan
    /\ forall p q, In p plan -> In q plan ->
         Z.abs (length_of p - length_of q) <= 1.
Proof.
  intros Ht Hw. destruct (plan_on_domain total workers Ht Hw) as (plan & Hp & Hc & _).
  exists plan. split; [exact Hp|]. intros p q Hi Hj.
  pose proof (chained_lengths _ _ _ Hc p Hi).
  pose proof (chained_lengths _ _ _ Hc q Hj). lia.
Qed.

Lemma partition_fairness_witness :
  exists plan,
    multiprocess_tasks 15 11 = Ok plan
    /\ forall p q, In p plan -> In q plan ->
         Z.abs (length_of p - length_of q) <= 1.
Proof. apply (partition_fairness 15 11); lia. Defined.

(** A plan covers the slides [1..total] when every slide number lies in
    one of its ranges and every range lies within the slide numbers. *)
Definition covers (total : Z) (plan : list (Z * Z)) : Prop :=
  forall k, 1 <= k <= total <-> exists p, In p plan /\ fst p <= k <= snd p.

(** C2.  With 15 slides and 11 processes the last range ends at slide 14:
    slide 15 is in no range, so the ranges do not cover the slides. *)
Theorem partition_coverage_fails :
  multiprocess_tasks 15 11
  = Ok [(1, 1); (2, 2); (3, 4); (5, 5); (6, 6); (7, 8); (9, 9); (10, 10);
        (11, 12); (13, 13); (14, 14)]
  /\ forall plan, multiprocess_tasks 15 11 = Ok plan -> ~ covers 15 plan.
Proof.
  assert (E : multiprocess_tasks 15 11
              = Ok [(1, 1); (2, 2); (3, 4); (5, 5); (6, 6); (7, 8); (9, 9);
                    (10, 10); (11, 12); (13, 13); (14, 14)])
    by (vm_compute; reflexivity).
  split; [exact E|]. intros plan Hp Hc. rewrite E in Hp. injection Hp as <-.
  destruct (proj1 (Hc 15) ltac:(lia)) as (p & Hin & Hlo & Hhi).
  cbn [In] in Hin.
  repeat (destruct Hin as [<-|Hin]; [cbn [fst snd] in Hlo, Hhi; lia|]).
  exact Hin.
Qed.

(* ================================================================== *)
(** * The partition: what holds of every plan *)

Lemma length_range (a b : Z) : List.length (range a b) = Z.to_nat (b - a).
Proof. unfold range. now rewrite length_map, length_seq. Qed.

Lemma plan_length (total workers : Z) (plan : list (Z * Z)) :
  0 < total -> 0 < workers ->
  multiprocess_tasks total workers = Ok plan ->
  Z.of_nat (List.length plan) = Z.min workers total.
Proof.
  intros Ht Hw. rewrite multiprocess_tasks_entries. cbv zeta.
  assert (En : (if workers >? total then total else workers) = Z.min workers total).
  { rewrite Z.gtb_ltb. destruct (Z.ltb_spec total workers); lia. }
  rewrite En.
  destruct (int_truediv total (Z.min workers total)) as [ipp|]; [|discriminate].
  cbn [bind]. intros H. apply length_mapM in H.
  rewrite H, length_range. lia.
Qed.

(** X1. The plan has as many ranges as there are processes, or slides when
    there are fewer slides than processes. *)
Theorem partition_count (total workers : Z) (plan : list (Z * Z)) :
  0 < total -> 0 < workers ->
  multiprocess_tasks total workers = Ok plan ->
  Z.of_nat (List.length plan) = Z.min workers total.
Proof. exact (plan_length total workers plan). Qed.

Lemma partition_count_witness :
  Z.of_nat (List.length [(1, 2); (3, 5)]) = Z.min 2 5.
Proof.
  apply (partition_count 5 2 [(1, 2); (3, 5)]); [lia | lia |].
  vm_compute. reflexivity.
Defined.

Lemma chained_nonempty (lo : Z) (l : list (Z * Z)) :
  forall prev, chained lo prev l -> forall p, In p l -> fst p <= snd p.
Proof.
  induction l as [|q l IH]; intros prev H p Hin; [destruct Hin|].
  cbn [chained] in H. destruct H as (_ & Hq & _ & Hc).
  destruct Hin as [<-|Hin]; [exact Hq|]. exact (IH _ Hc _ Hin).
Qed.

Lemma chained_next (lo : Z) (l : list (Z * Z)) :
  forall prev i p q, chained lo prev l ->
  nth_error l i = Some p -> nth_error l (S i) = Some q -> fst q = snd p + 1.
Proof.
  induction l as [|a l IH]; intros prev i p q H Hp Hq; [destruct i; discriminate|].
  cbn [chained] in H. destruct H as (_ & _ & _ & Hc).
  destruct i as [|i].
  - cbn [nth_error] in Hp, Hq. injection Hp as <-.
    destruct l as [|b l]; [discriminate|]. cbn [nth_error] in Hq. injection Hq as <-.
    cbn [chained] in Hc. apply Hc.
  - cbn [nth_error] in Hp, Hq. exact (IH _ _ _ _ Hc Hp Hq).
Qed.

Lemma chained_after (lo : Z) (l : list (Z * Z)) :
  forall prev, chained lo prev l -> forall q, In q l -> prev < fst q.
Proof.
  induction l as [|a l IH]; intros prev H q Hin; [destruct Hin|].
  cbn [chained] in H. destruct H as (Ha & Hne & _ & Hc).
  destruct Hin as [<-|Hin]; [lia|].
  pose proof (IH _ Hc _ Hin). lia.
Qed.

Lemma chained_sorted (lo : Z) (l : list (Z * Z)) :
  forall prev i j p q, chained lo prev l -> (i < j)%nat ->
  nth_error l i = Some p -> nth_error l j = Some q -> snd p < fst q.
Proof.
  induction l as [|a l IH]; intros prev i j p q H Hij Hp Hq;
    [destruct i; discriminate|].
  cbn [chained] in H. destruct H as (_ & _ & _ & Hc).
  destruct j as [|j]; [lia|]. cbn [nth_error] in Hq.
  destruct i as [|i].
  - cbn [nth_error] in Hp. injection Hp as <-.
    apply (chained_after _ _ _ Hc). exact (nth_error_In _ _ Hq).
  - cbn [nth_error] in Hp. apply (IH _ i j p q Hc); [lia | exact Hp | exact Hq].
Qed.

Lemma chained_last_end (lo : Z) (l : list (Z * Z)) :
  forall prev, chained lo prev l -> prev <= last_end prev l.
Proof.
  induction l as [|a l IH]; intros prev H; cbn [last_end]; [lia|].
  cbn [chained] in H. destruct H as (Ha & Hne & _ & Hc).
  pose proof (IH _ Hc). lia.
Qed.

(** The ranges of a chained plan hold exactly the numbers after [prev] up
    to the last end. *)
Lemma chained_cover (lo : Z) (l : list (Z * Z)) :
  forall prev, chained lo prev l ->
  forall k, prev < k <= last_end prev l
            <-> exists p, In p l /\ fst p <= k <= snd p.
Proof.
  induction l as [|a l IH]; intros prev H k; cbn [last_end].
  - split; [lia|]. intros (p & [] & _).
  - cbn [chained] in H. destruct H as (Ha & Hne & _ & Hc).
    pose proof (chained_last_end _ _ _ Hc) as Hle.
    specialize (IH _ Hc k). split.
    + intros Hk. destruct (Z_le_gt_dec k (snd a)) as [Hka|Hka].
      * exists a. split; [now left | lia].
      * destruct (proj1 IH ltac:(lia)) as (p & Hin & Hp).
        exists p. split; [now right | exact Hp].
    + intros (p & [<-|Hin] & Hp); [lia|].
      pose proof (proj2 IH (ex_intro _ p (conj Hin Hp))). lia.
Qed.

Lemma last_end_last (l : list (Z * Z)) :
  forall prev d, l <> [] -> last_end prev l = snd (last l d).
Proof.
  induction l as [|a l IH]; intros prev d Hl; [congruence|].
  cbn [last_end]. destruct l as [|b l]; [reflexivity|].
  rewrite (IH (snd a) d) by discriminate. reflexivity.
Qed.

(** X2. On the domain, the first range starts at slide 1, no range is empty,
    and each range starts right after the end of the one before it. *)
Theorem partition_contiguous (total workers : Z) :
  1 <= total <= 1000 -> 1 <= workers <= 64 ->
  exists plan,
    multiprocess_tasks total workers = Ok plan
    /\ (exists e rest, plan = (1, e) :: rest)
    /\ (forall p, In p plan -> fst p <= snd p)
    /\ (forall i p q, nth_error plan i = Some p -> nth_error plan (S i) = Some q ->
          fst q = snd p + 1).
Proof.
  intros Ht Hw. destruct (plan_on_domain total workers Ht Hw) as (plan & Hp & Hc & _).
  exists plan. split; [exact Hp|]. split; [|split].
  - pose proof (plan_length total workers plan ltac:(lia) ltac:(lia) Hp) as Hn.
    destruct plan as [|[s e] rest]; [cbn in Hn; lia|].
    exists e, rest. cbn [chained fst] in Hc. destruct Hc as (-> & _). reflexivity.
  - exact (chained_nonempty _ _ _ Hc).
  - intros i p q. exact (chained_next _ _ _ _ _ _ Hc).
Qed.

Lemma partition_contiguous_witness :
  exists plan,
    multiprocess_tasks 15 11 = Ok plan
    /\ (exists e rest, plan = (1, e) :: rest)
    /\ (forall p, In p plan -> fst p <= snd p)
    /\ (forall i p q, nth_error plan i = Some p -> nth_error plan (S i) = Some q ->
          fst q = snd p + 1).
Proof. apply (partition_contiguous 15 11); lia. Defined.

(** X3. On the domain, the ranges are in increasing order and pairwise
    disjoint: a range ends before any later one starts. *)
Theorem partition_sorted_disjoint (total workers : Z) :
  1 <= total <= 1000 -> 1 <= workers <= 64 ->
  exists plan,
    multiprocess_tasks total workers = Ok plan
    /\ forall i j p q, (i < j)%nat ->
         nth_error plan i = Some p -> nth_error plan j = Some q -> snd p < fst q.
Proof.
  intros Ht Hw. destruct (plan_on_domain total workers Ht Hw) as (plan & Hp & Hc & _).
  exists plan. split; [exact Hp|].
  intros i j p q. exact (chained_sorted _ _ _ _ _ _ _ Hc).
Qed.

Lemma partition_sorted_disjoint_witness :
  exists plan,
    multiprocess_tasks 1000 64 = Ok plan
    /\ forall i j p q, (i < j)%nat ->
         nth_error plan i = Some p -> nth_error plan j = Some q -> snd p < fst q.
Proof. apply (partition_sorted_disjoint 1000 64); lia. Defined.

(** X4. On the domain, the last range ends at the last slide or one slide
    before it. *)
Theorem partition_last_end (total workers : Z) :
  1 <= total <= 1000 -> 1 <= workers <= 64 ->
  exists plan,
    multiprocess_tasks total workers = Ok plan
    /\ (snd (last plan (0, 0)) = total \/ snd (last plan (0, 0)) = total - 1).
Proof.
  intros Ht Hw. destruct (plan_on_domain total workers Ht Hw) as (plan & Hp & Hc & Hl).
  exists plan. split; [exact Hp|].
  pose proof (plan_length total workers plan ltac:(lia) ltac:(lia) Hp) as Hn.
  rewrite <- (last_end_last plan 0 (0, 0)) by (intros ->; cbn in Hn; lia).
  destruct Hl as [Hl|[_ Hl]]; [now left | now right].
Qed.

Lemma partition_last_end_witness :
  exists plan,
    multiprocess_tasks 61 28 = Ok plan
    /\ (snd (last plan (0, 0)) = 61 \/ snd (last plan (0, 0)) = 61 - 1).
Proof. apply (partition_last_end 61 28); lia. Defined.

(** X5. On the domain, when the number of processes in use divides the number
    of slides, the ranges cover the slides: every slide is in a range and
    every range is within the slides. *)
Theorem partition_covers_when_divisible (total workers : Z) :
  1 <= total <= 1000 -> 1 <= workers <= 64 ->
  total mod Z.min workers total = 0 ->
  exists plan,
    multiprocess_tasks total workers = Ok plan /\ covers total plan.
Proof.
  intros Ht Hw Hd. destruct (plan_on_domain total workers Ht Hw) as (plan & Hp & Hc & Hl).
  exists plan. split; [exact Hp|].
  destruct Hl as [Hl|[Hx _]]; [|contradiction].
  intros k. rewrite <- (chained_cover _ _ _ Hc k), Hl. lia.
Qed.

Lemma partition_covers_when_divisible_witness :
  exists plan, multiprocess_tasks 1000 8 = Ok plan /\ covers 1000 plan.
Proof. apply (partition_covers_when_divisible 1000 8); [lia | lia | reflexivity]. Defined.

(** X6. On the domain, every slide but possibly the last is in a range, and
    no range holds a number that is not a slide. *)
Theorem partition_misses_at_most_the_last (total workers : Z) :
  1 <= total <= 1000 -> 1 <= workers <= 64 ->
  exists plan,
    multiprocess_tasks total workers = Ok plan
    /\ (forall k, 1 <= k <= total - 1 -> exists p, In p plan /\ fst p <= k <= snd p)
    /\ (forall p k, In p plan -> fst p <= k <= snd p -> 1 <= k <= total).
Proof.
  intros Ht Hw. destruct (plan_on_domain total workers Ht Hw) as (plan & Hp & Hc & Hl).
  exists plan. split; [exact Hp|]. split.
  - intros k Hk. apply (chained_cover _ _ _ Hc k).
    destruct Hl as [Hl|[_ Hl]]; lia.
  - intros p k Hin Hk.
    pose proof (proj2 (chained_cover _ _ _ Hc k) (ex_intro _ p (conj Hin Hk))).
    destruct Hl as [Hl|[_ Hl]]; lia.
Qed.

Lemma partition_misses_at_most_the_last_witness :
  exists plan,
    multiprocess_tasks 15 11 = Ok plan
    /\ (forall k, 1 <= k <= 15 - 1 -> exists p, In p plan /\ fst p <= k <= snd p)
    /\ (forall p k, In p plan -> fst p <= k <= snd p -> 1 <= k <= 15).
Proof. apply (partition_misses_at_most_the_last 15 11); lia. Defined.

(* ================================================================== *)
(** * Floating point: integers below [2^53] are exact *)

(** Rounding an integer below [2^53] gives the float of that value. *)
Lemma rounded_integer (d : Z) (x : Q) (f : float) :
  0 < d < 2 ^ 53 -> (x == inject_Z d)%Q -> rounded x f ->
  exists p e, f = S754_finite false p e /\ (F2Q (Z.pos p) e == inject_Z d)%Q.
Proof.
  intros Hd Hx Hr. apply (rounded_comp _ _ _ Hx) in Hr.
  assert (H1 : (1 <= inject_Z d)%Q).
  { change 1%Q with (inject_Z 1). rewrite <- Zle_Qle. lia. }
  assert (H53 : (inject_Z d < bpow 53)%Q) by (rewrite bpow_53, <- Zlt_Qlt; lia).
  destruct f as [s|s| |s p e'].
  - exfalso. exact (rounded_not_zero _ _ H1 Hr).
  - exfalso. destruct Hr as [_ Hr]. pose proof (bpow_lt 53 970 ltac:(lia)). lra.
  - destruct Hr.
  - assert (Es : s = false) by apply Hr. subst s.
    exists p, e'. split; [reflexivity|].
    destruct Hr as (_ & _ & m & e & Hv & Hm & He & Herr1 & Herr2 & Hx53 & H4).
    rewrite Hv. destruct H4 as [H4|H4]; [exact H4|].
    assert (He0 : e <= 0).
    { destruct H4 as [->|H4]; [lia|].
      assert (e + 52 < 53); [|lia]. apply bpow_lt_inv. lra. }
    apply Qle_antisym.
    + apply (grid_le m e d (inject_Z d) He0); [lra | assumption].
    + apply (grid_ge m e d (inject_Z d) He0); [lra | assumption].
Qed.

(** Rounding does not cross an integer below [2^53]. *)
Lemma rounded_le_integer (z : Z) (x : Q) (p : positive) (e' : Z) :
  0 < z < 2 ^ 53 -> (x <= inject_Z z)%Q -> rounded x (S754_finite false p e') ->
  (F2Q (Z.pos p) e' <= inject_Z z)%Q.
Proof.
  intros Hz Hx (_ & _ & m & e & Hv & Hm & He & Herr1 & Herr2 & Hx53 & H4).
  rewrite Hv. destruct H4 as [H4|H4]; [rewrite H4; exact Hx|].
  assert (H53 : (inject_Z z < bpow 53)%Q) by (rewrite bpow_53, <- Zlt_Qlt; lia).
  assert (He0 : e <= 0).
  { destruct H4 as [->|H4]; [lia|].
    assert (e + 52 < 53); [|lia]. apply bpow_lt_inv. lra. }
  apply (grid_le m e z x He0); assumption.
Qed.

Lemma int_of_float_integer (p : positive) (e d : Z) :
  (F2Q (Z.pos p) e == inject_Z d)%Q -> int_of_float (S754_finite false p e) = Ok d.
Proof.
  intros H. cbn [int_of_float]. f_equal.
  apply (floor_unique _ _ (F2Q (Z.pos p) e)); [apply shiftl_floor|].
  rewrite H, inject_Z_plus. change (inject_Z 1) with 1%Q. lra.
Qed.

Lemma math_floor_integer (p : positive) (e d : Z) :
  (F2Q (Z.pos p) e == inject_Z d)%Q -> math_floor (S754_finite false p e) = Ok d.
Proof. exact (int_of_float_integer p e d). Qed.

Lemma py_round_integer (p : positive) (e d : Z) :
  (F2Q (Z.pos p) e == inject_Z d)%Q -> py_round (S754_finite false p e) = Ok d.
Proof.
  intros H. destruct (py_round_near p e) as (z & -> & H1 & H2). f_equal.
  rewrite H in H1, H2.
  assert (2 * (z - d) <= 1).
  { unfold Z.sub. rewrite Zle_Qle, inject_Z_mult, inject_Z_plus, inject_Z_opp.
    exact H1. }
  assert (2 * (d - z) <= 1).
  { unfold Z.sub. rewrite Zle_Qle, inject_Z_mult, inject_Z_plus, inject_Z_opp.
    exact H2. }
  lia.
Qed.

(** The quotient of an exact multiple is exact. *)
Lemma int_truediv_multiple (k b : Z) :
  0 < k < 2 ^ 53 -> 0 < b -> 0 < k * b ->
  exists p e, int_truediv (k * b) b = Ok (S754_finite false p e)
              /\ (F2Q (Z.pos p) e == inject_Z k)%Q.
Proof.
  intros Hk Hb Hkb.
  pose proof (int_truediv_rounded (k * b) b Hkb Hb) as H.
  pose proof (inject_Z_pos b Hb) as HbQ.
  assert (Ex : (inject_Z (k * b) / inject_Z b == inject_Z k)%Q).
  { rewrite inject_Z_mult. field. lra. }
  destruct (int_truediv (k * b) b) as [f|err].
  - destruct (rounded_integer k _ f Hk Ex H) as (p & e & -> & Hv).
    exists p, e. split; [reflexivity | exact Hv].
  - exfalso. destruct H as [_ H]. rewrite Ex in H.
    assert (inject_Z k < bpow 53)%Q by (rewrite bpow_53, <- Zlt_Qlt; lia).
    pose proof (bpow_lt 53 970 ltac:(lia)). lra.
Qed.

(** The product of two floats that hold integers, when it is below
    [2^53], is exact. *)
Lemma float_mul_integers (p1 p2 : positive) (e1 e2 a b : Z) :
  (F2Q (Z.pos p1) e1 == inject_Z a)%Q -> (F2Q (Z.pos p2) e2 == inject_Z b)%Q ->
  0 < a * b < 2 ^ 53 ->
  exists p e, float_mul (S754_finite false p1 e1) (S754_finite false p2 e2)
              = S754_finite false p e
              /\ (F2Q (Z.pos p) e == inject_Z (a * b))%Q.
Proof.
  intros Ha Hb Hab. unfold float_mul.
  pose proof (SFmul_rounded p1 p2 e1 e2) as H.
  refine (rounded_integer (a * b) _ _ Hab _ H).
  rewrite Ha, Hb, inject_Z_mult. reflexivity.
Qed.

Lemma float_one : float_of_int 1 = Ok (S754_finite false 4503599627370496 (-52)).
Proof. vm_compute. reflexivity. Qed.

Lemma float_one_value : (F2Q 4503599627370496 (-52) == inject_Z 1)%Q.
Proof. vm_compute. reflexivity. Qed.

(** X7. With one process the plan is the single range of all the slides. *)
Theorem partition_single_process (total : Z) :
  0 < total < 2 ^ 53 -> multiprocess_tasks total 1 = Ok [(1, total)].
Proof.
  intros Ht. rewrite multiprocess_tasks_entries. cbv zeta.
  replace (1 >? total) with false
    by (symmetry; rewrite Z.gtb_ltb; apply Z.ltb_ge; lia).
  destruct (int_truediv_multiple total 1 Ht ltac:(lia) ltac:(lia))
    as (p & e & E & Hv).
  rewrite Z.mul_1_r in E. rewrite E. cbn [bind].
  change (range 1 (1 + 1)) with [1]. cbn [mapM]. unfold task_entry.
  change (1 - 1) with 0. unfold int_mul_float, float_add_int.
  rewrite float_one.
  change (float_of_int 0) with (Ok (S754_zero false)). cbn [bind].
  change (float_mul (S754_zero false) (S754_finite false p e))
    with (S754_zero false).
  change (float_add (S754_zero false) (S754_finite false 4503599627370496 (-52)))
    with (S754_finite false 4503599627370496 (-52)).
  destruct (float_mul_integers _ _ _ _ 1 total float_one_value Hv ltac:(lia))
    as (p' & e' & -> & Hv').
  rewrite Z.mul_1_l in Hv'.
  rewrite (int_of_float_integer _ _ 1 float_one_value).
  rewrite (int_of_float_integer _ _ total Hv'). reflexivity.
Qed.

Lemma partition_single_process_witness :
  multiprocess_tasks 1000 1 = Ok [(1, 1000)].
Proof. apply (partition_single_process 1000). lia. Defined.

(** One axis of the mapper on a large dimension that is a multiple of the
    scale factor: the small coordinate is multiplied by the scale factor. *)
Lemma mapped_multiple (SCALE_FACTOR k small : Z) :
  0 < SCALE_FACTOR -> 0 < k -> k * SCALE_FACTOR < 2 ^ 53 ->
  0 <= small -> SCALE_FACTOR * small < 2 ^ 53 ->
  mapped SCALE_FACTOR (k * SCALE_FACTOR) small = Ok (SCALE_FACTOR * small).
Proof.
  intros HS Hk Hks Hx Hsx. unfold mapped.
  assert (Hk53 : 0 < k < 2 ^ 53) by nia.
  destruct (int_truediv_multiple k SCALE_FACTOR Hk53 HS ltac:(nia))
    as (p & e & E & Hv).
  rewrite E. cbn [bind]. rewrite (math_floor_integer _ _ k Hv). cbn [bind].
  unfold float_div_int.
  destruct (float_of_int_exact k Hk53) as (pk & ek & Ek & Hvk).
  rewrite Ek. cbn [bind]. unfold float_truediv. cbn [is_zero bind].
  assert (Hq : rounded 1 (SFdiv prec emax (S754_finite false p e)
                            (S754_finite false pk ek))).
  { apply SFdiv_rounded. rewrite Hv, Hvk. ring. }
  destruct (rounded_integer 1 _ _ ltac:(lia) ltac:(reflexivity) Hq)
    as (pc & ec & Ec & Hvc).
  rewrite Ec. unfold float_mul_int.
  destruct (Z.eq_dec small 0) as [->|Hne].
  - rewrite Z.mul_0_r. change (float_of_int 0) with (Ok (S754_zero false)).
    reflexivity.
  - destruct (float_of_int_exact (SCALE_FACTOR * small) ltac:(nia))
      as (px & ex & Ex & Hvx).
    rewrite Ex. cbn [bind].
    destruct (float_mul_integers _ _ _ _ 1 (SCALE_FACTOR * small) Hvc Hvx ltac:(nia))
      as (pr & er & -> & Hvr).
    rewrite Z.mul_1_l in Hvr. exact (py_round_integer _ _ _ Hvr).
Qed.

(** X8. On large dimensions that are multiples of the scale factor the mapper
    multiplies both coordinates by the scale factor, exactly. *)
Theorem mapping_exact_on_multiples (SCALE_FACTOR kw kh x y : Z) :
  0 < SCALE_FACTOR -> 0 < kw -> 0 < kh ->
  kw * SCALE_FACTOR < 2 ^ 53 -> kh * SCALE_FACTOR < 2 ^ 53 ->
  0 <= x -> 0 <= y -> SCALE_FACTOR * x < 2 ^ 53 -> SCALE_FACTOR * y < 2 ^ 53 ->
  small_to_large_mapping SCALE_FACTOR (x, y) (kw * SCALE_FACTOR, kh * SCALE_FACTOR)
  = Ok (SCALE_FACTOR * x, SCALE_FACTOR * y).
Proof.
  intros HS Hkw Hkh Hw Hh Hx Hy Hsx Hsy.
  rewrite small_to_large_mapping_axes.
  rewrite (mapped_multiple SCALE_FACTOR kw x) by assumption.
  rewrite (mapped_multiple SCALE_FACTOR kh y) by assumption.
  reflexivity.
Qed.

Lemma mapping_exact_on_multiples_witness :
  small_to_large_mapping 32 (700, 20) (1560 * 32, 3384 * 32)
  = Ok (32 * 700, 32 * 20).
Proof. apply (mapping_exact_on_multiples 32 1560 3384 700 20); lia. Defined.

(** One axis of the mapper returns a result, and a non-negative one, for
    every small coordinate whose product with the scale factor is below
    [2^53]; the coordinate 0 is mapped to 0. *)
Lemma mapped_total (SCALE_FACTOR w small : Z) :
  0 < SCALE_FACTOR -> SCALE_FACTOR <= w < 2 ^ 53 ->
  0 <= small -> SCALE_FACTOR * small < 2 ^ 53 ->
  exists z, mapped SCALE_FACTOR w small = Ok z /\ 0 <= z /\ (small = 0 -> z = 0).
Proof.
  intros HS Hw Hx Hsx. unfold mapped.
  remember (w / SCALE_FACTOR) as q eqn:Eq.
  assert (Hq1 : 1 <= q) by (rewrite Eq; apply Z.div_le_lower_bound; lia).
  assert (Hqw : SCALE_FACTOR * q <= w) by (rewrite Eq; apply Z.mul_div_le; lia).
  assert (Hq53 : q < 2 ^ 53) by nia.
  destruct (int_truediv_floor w SCALE_FACTOR ltac:(lia) HS) as (f1 & E1 & Efl).
  rewrite <- Eq in Efl.
  pose proof (int_truediv_rounded w SCALE_FACTOR ltac:(lia) HS) as Hr1.
  pose proof (int_truediv_not_infinity _ _ _ E1) as Hni1.
  rewrite E1 in Hr1 |- *. cbn [bind]. rewrite Efl. cbn [bind].
  pose proof (quotient_ge_1 w SCALE_FACTOR ltac:(lia)) as Hx1.
  remember (inject_Z w / inject_Z SCALE_FACTOR)%Q as x1 eqn:Ex1.
  pose proof (inject_Z_pos SCALE_FACTOR HS) as HSQ.
  assert (HSQ1 : (1 <= inject_Z SCALE_FACTOR)%Q).
  { change 1%Q with (inject_Z 1). rewrite <- Zle_Qle. lia. }
  assert (HW1 : (1 <= inject_Z w)%Q).
  { change 1%Q with (inject_Z 1). rewrite <- Zle_Qle. lia. }
  assert (HW53 : (inject_Z w < bpow 53)%Q) by (rewrite bpow_53, <- Zlt_Qlt; lia).
  assert (A1 : (x1 * inject_Z SCALE_FACTOR == inject_Z w)%Q)
    by (rewrite Ex1; field; lra).
  assert (Hx1w : (x1 <= inject_Z w)%Q) by nra.
  destruct f1 as [s|s| |s p1 e1];
    [exfalso; exact (rounded_not_zero _ _ Hx1 Hr1) | destruct Hni1
     | destruct Hr1 | ].
  assert (Es : s = false) by apply Hr1. subst s.
  pose proof (rounded_le_integer w x1 p1 e1 ltac:(lia) Hx1w Hr1) as HF1w.
  destruct (math_floor_finite p1 e1) as (z0 & Ez0 & Hz0).
  rewrite Efl in Ez0. injection Ez0 as <-.
  remember (F2Q (Z.pos p1) e1) as F1 eqn:EF1.
  assert (HQ1 : (1 <= inject_Z q)%Q).
  { change 1%Q with (inject_Z 1). now rewrite <- Zle_Qle. }
  unfold float_div_int.
  destruct (float_of_int_exact q ltac:(lia)) as (pq & eq & Efq & Vq).
  rewrite Efq. cbn [bind]. unfold float_truediv. cbn [is_zero bind].
  remember (F1 / inject_Z q)%Q as x2 eqn:Ex2.
  assert (A4 : (x2 * inject_Z q == F1)%Q) by (rewrite Ex2; field; lra).
  assert (Hr2 : rounded x2 (SFdiv prec emax (S754_finite false p1 e1)
                              (S754_finite false pq eq))).
  { apply SFdiv_rounded. rewrite Vq, <- EF1. exact A4. }
  assert (Hx2 : (1 <= x2 /\ x2 <= inject_Z w)%Q) by (split; nra).
  pose proof (bpow_lt 53 970 ltac:(lia)) as Hbig.
  destruct (SFdiv prec emax (S754_finite false p1 e1) (S754_finite false pq eq))
    as [s|s| |s p2 e2];
    [exfalso; exact (rounded_not_zero _ _ (proj1 Hx2) Hr2)
    | exfalso; destruct Hr2 as [_ Hr2]; lra
    | destruct Hr2 | ].
  assert (Es : s = false) by apply Hr2. subst s.
  pose proof (rounded_ge_1 _ _ _ (proj1 Hx2) Hr2) as HF2.
  pose proof (rounded_le_integer w x2 p2 e2 ltac:(lia) (proj2 Hx2) Hr2) as HF2w.
  remember (F2Q (Z.pos p2) e2) as F2 eqn:EF2.
  unfold float_mul_int.
  destruct (Z.eq_dec small 0) as [->|Hne].
  { rewrite Z.mul_0_r. change (float_of_int 0) with (Ok (S754_zero false)).
    exists 0. split; [reflexivity|]. split; [lia | reflexivity]. }
  destruct (float_of_int_exact (SCALE_FACTOR * small) ltac:(nia))
    as (pp & ep & Efp & Vp).
  rewrite Efp. cbn [bind]. unfold float_mul.
  remember (inject_Z (SCALE_FACTOR * small)) as T eqn:ET.
  assert (HT1 : (1 <= T)%Q).
  { rewrite ET. change 1%Q with (inject_Z 1). rewrite <- Zle_Qle. nia. }
  assert (HT53 : (T < bpow 53)%Q) by (rewrite ET, bpow_53, <- Zlt_Qlt; lia).
  assert (Hr3 : rounded (F2 * T) (SFmul prec emax (S754_finite false p2 e2)
                                    (S754_finite false pp ep))).
  { apply (rounded_comp (F2Q (Z.pos p2) e2 * F2Q (Z.pos pp) ep));
      [|apply SFmul_rounded].
    rewrite Vp, <- EF2. reflexivity. }
  assert (Hx3 : (1 <= F2 * T)%Q) by nra.
  assert (Hx3b : (F2 * T < bpow 970)%Q).
  { pose proof (bpow_plus 53 53) as Hpp. change (53 + 53) with 106 in Hpp.
    pose proof (bpow_lt 106 970 ltac:(lia)). pose proof (bpow_pos 53). nra. }
  destruct (SFmul prec emax (S754_finite false p2 e2) (S754_finite false pp ep))
    as [s|s| |s p3 e3];
    [exfalso; exact (rounded_not_zero _ _ Hx3 Hr3)
    | exfalso; destruct Hr3 as [_ Hr3]; lra
    | destruct Hr3 | ].
  assert (Es : s = false) by apply Hr3. subst s.
  pose proof (rounded_ge_1 _ _ _ Hx3 Hr3) as HF3.
  destruct (py_round_near p3 e3) as (z & -> & H1 & H2).
  exists z. split; [reflexivity|]. split; [|intros; lia].
  assert (0 < 2 * z); [|lia].
  rewrite Zlt_Qlt, inject_Z_mult. change (inject_Z 0) with 0%Q.
  change (inject_Z 2) with 2%Q. lra.
Qed.

(** X9. On large dimensions of at least the scale factor and below [2^53] the
    mapper returns a pixel for every small pixel with non-negative
    coordinates whose products with the scale factor are below [2^53]:
    no error is raised; the coordinates of the result are not negative,
    and the origin is mapped to the origin. *)
Theorem mapping_returns (SCALE_FACTOR x y w h : Z) :
  0 < SCALE_FACTOR ->
  SCALE_FACTOR <= w < 2 ^ 53 -> SCALE_FACTOR <= h < 2 ^ 53 ->
  0 <= x -> 0 <= y -> SCALE_FACTOR * x < 2 ^ 53 -> SCALE_FACTOR * y < 2 ^ 53 ->
  exists x' y',
    small_to_large_mapping SCALE_FACTOR (x, y) (w, h) = Ok (x', y')
    /\ 0 <= x' /\ 0 <= y' /\ (x = 0 -> x' = 0) /\ (y = 0 -> y' = 0).
Proof.
  intros HS Hw Hh Hx Hy Hsx Hsy. rewrite small_to_large_mapping_axes.
  destruct (mapped_total SCALE_FACTOR w x HS Hw Hx Hsx) as (x' & -> & Hx' & Hx0).
  destruct (mapped_total SCALE_FACTOR h y HS Hh Hy Hsy) as (y' & -> & Hy' & Hy0).
  exists x', y'. cbn [bind]. auto.
Qed.

Lemma mapping_returns_witness :
  exists x' y',
    small_to_large_mapping 32 (0, 77) (49921, 108300) = Ok (x', y')
    /\ 0 <= x' /\ 0 <= y' /\ (0 = 0 -> x' = 0) /\ (77 = 0 -> y' = 0).
Proof. apply (mapping_returns 32 0 77 49921 108300); lia. Defined.

(* ================================================================== *)
(** * Thumbnails *)



Lemma ensure_dir_ok (dir : string) (w : World) :
  exists w', ensure_dir dir w = (w', Ok tt)
             /\ files w' = files w /\ slide_files w' = slide_files w
             /\ resize_ok w' = resize_ok w.
Proof.
  destruct (ensure_dir_files dir w) as (H1 & H2 & H3 & H4).
  destruct (ensure_dir dir w) as [w' r]. cbn [fst snd] in *. subst r.
  exists w'. auto.
Qed.


Definition demo_thumbnail_path : string := "../data/training_thumbnail_jpg/t.jpg".


(** X11. An image without pixels cannot be given a thumbnail: the scaling
    divides by its longer side, which is zero; nothing is written. *)
Theorem thumbnail_of_empty_image (img : Image) (size_ : Z) (path : string)
    (w : World) :
  size img = (0, 0) ->
  save_thumbnail img size_ path w = (w, Raise ZeroDivisionError).
Proof. intros H. unfold save_thumbnail. rewrite H. reflexivity. Qed.

Lemma thumbnail_of_empty_image_witness :
  save_thumbnail {| size := (0, 0); mode := "RGB" |} 300 demo_thumbnail_path
    demo_world
  = (demo_world, Raise ZeroDivisionError).
Proof. apply thumbnail_of_empty_image. reflexivity. Defined.

(* ================================================================== *)
(** * Opening slides, ranges of slides *)

Lemma open_slide_result (path : string) (w : World) :
  exists o, open_slide path w = (w, Ok o)
            /\ (o = None <-> cannot_be_opened w path).
Proof.
  unfold open_slide, openslide_open_slide, cannot_be_opened.
  destruct (lookup path (slide_files w)) as [[slide|]|].
  - exists (Some slide). split; [reflexivity|].
    split; [discriminate | intros [H|H]; discriminate H].
  - exists None. split; [reflexivity|]. split; auto.
  - exists None. split; [reflexivity|]. split; auto.
Qed.



Lemma range_empty (a b : Z) : b <= a -> range a b = [].
Proof. intros H. unfold range. now replace (Z.to_nat (b - a)) with 0%nat by lia. Qed.


(** X13. A range whose end is before its start converts nothing and still
    returns the two indices. *)
Theorem empty_range_converts_nothing (SCALE_FACTOR start_ind end_ind : Z)
    (w : World) :
  end_ind < start_ind ->
  training_slide_range_to_images SCALE_FACTOR start_ind end_ind w
  = (w, Ok (start_ind, end_ind)).
Proof.
  intros H. unfold training_slide_range_to_images.
  rewrite range_empty by lia. reflexivity.
Qed.

Lemma empty_range_converts_nothing_witness :
  training_slide_range_to_images 32 1 0 demo_world = (demo_world, Ok (1, 0)).
Proof. apply empty_range_converts_nothing. lia. Defined.







(** ** Counting the slides *)

Lemma glob1_star_names {A B} (dir suf : string) (l : list (string * A))
    (l' : list (string * B)) :
  map fst l = map fst l' -> glob1_star dir suf l = glob1_star dir suf l'.
Proof.
  intros H. unfold glob1_star. f_equal.
  revert l' H. induction l as [|[k a] l IH]; intros [|[k' b] l'] H;
    try discriminate; [reflexivity|].
  cbn [map fst] in H. injection H as -> H.
  cbn [flat_map fst]. f_equal. now apply IH.
Qed.

(** X15. The slides are counted by file name: two worlds with the same slide
    file names have the same count, readable or not; counting changes
    nothing. *)
Theorem slides_are_counted_by_name (w w' : World) :
  map fst (slide_files w) = map fst (slide_files w') ->
  snd (get_num_training_slides w) = snd (get_num_training_slides w')
  /\ fst (get_num_training_slides w) = w.
Proof.
  intros H. unfold get_num_training_slides. cbn [fst snd].
  split; [|reflexivity]. now rewrite (glob1_star_names _ _ _ _ H).
Qed.

(** A world like [demo_world] in which slide 6 can be read too. *)
Definition readable_world : World :=
  {| slide_files := [("../data/training_slides/TUPAC-TR-005.svs", Some demo_slide);
                     ("../data/training_slides/TUPAC-TR-006.svs", Some demo_slide)];
     files := []; dirs := [];
     resize_ok := fun sz => (1 <=? fst sz) && (1 <=? snd sz) |}.

Lemma slides_are_counted_by_name_witness :
  snd (get_num_training_slides demo_world) = snd (get_num_training_slides readable_world)
  /\ fst (get_num_training_slides demo_world) = demo_world.
Proof. apply slides_are_counted_by_name. reflexivity. Defined.

(** ** One process for all the slides *)

(** X16. Without slide files the single-process conversion does nothing. *)
Theorem singleprocess_without_slides (SCALE_FACTOR : Z) (w : World) :
  glob1_star SRC_TRAIN_DIR ("." ++ SRC_TRAIN_EXT) (slide_files w) = [] ->
  singleprocess_training_slides_to_images SCALE_FACTOR w = (w, Ok tt).
Proof.
  intros H. unfold singleprocess_training_slides_to_images, bindM,
    get_num_training_slides. rewrite H. reflexivity.
Qed.

Lemma singleprocess_without_slides_witness :
  singleprocess_training_slides_to_images 32
    {| slide_files := []; files := []; dirs := []; resize_ok := fun _ => true |}
  = ({| slide_files := []; files := []; dirs := []; resize_ok := fun _ => true |},
     Ok tt).
Proof. apply singleprocess_without_slides. reflexivity. Defined.



(* ================================================================== *)
(** * More names that carry the dimensions *)

(** X18. The thumbnail path encoded from four positive dimensions is decoded to
    them, like the image path. *)
Theorem thumbnail_path_round_trip (s n lw lh sw sh : Z) (w : World) :
  0 < lw -> 0 < lh -> 0 < sw -> 0 < sh ->
  exists path,
    get_training_thumbnail_path s n (Some lw) (Some lh) (Some sw) (Some sh) w
    = (w, Ok path)
    /\ parse_dimensions_from_training_image_filename path
       = Ok (str lw, str lh, str sw, str sh).
Proof.
  intros Hlw Hlh Hsw Hsh.
  eexists. split; [apply thumbnail_path_with_dimensions|].
  rewrite parse_dimension_suffix; try (apply all_digits_str; lia);
    try reflexivity.
  - now rewrite append_nil_r.
  - rewrite !no_newline_app, no_newline_padded, no_newline_str. reflexivity.
Qed.

Lemma thumbnail_path_round_trip_witness :
  exists path,
    get_training_thumbnail_path 32 5 (Some 49920) (Some 108288) (Some 1560)
      (Some 3384) demo_world = (demo_world, Ok path)
    /\ parse_dimensions_from_training_image_filename path
       = Ok (str 49920, str 108288, str 1560, str 3384).
Proof.
  apply (thumbnail_path_round_trip 32 5 49920 108288 1560 3384 demo_world); lia.
Defined.

(** X19. The name of a tile summary is built from the dimensions parsed from
    the training image found for the slide; parsed in its turn, it gives
    the same first three values, and the small height followed by the
    tile summary suffix as the fourth. *)
Theorem tile_summary_name_decoding (s n lw lh sw sh : Z) (thumbnail : bool)
    (w : World) (tpath : string) :
  0 < lw -> 0 < lh -> 0 < sw -> 0 < sh ->
  get_training_image_path s n (Some lw) (Some lh) (Some sw) (Some sh) w
  = (w, Ok tpath) ->
  get_training_image_path s n None None None None w = (w, Ok tpath) ->
  exists name,
    get_tile_summary_image_filename s n thumbnail w = (w, Ok name)
    /\ name = TRAIN_PREFIX ++ zfill 3 (str n) ++ "-" ++ str s ++ "x-" ++ str lw
              ++ "x" ++ str lh ++ "-" ++ str sw ++ "x" ++ str sh ++ "-"
              ++ TILE_SUMMARY_SUFFIX ++ "."
              ++ (if thumbnail then THUMBNAIL_EXT else DEST_TRAIN_EXT)
    /\ parse_dimensions_from_training_image_filename name
       = Ok (str lw, str lh, str sw, str sh ++ "-" ++ TILE_SUMMARY_SUFFIX).
Proof.
  intros Hlw Hlh Hsw Hsh Henc Hglob.
  destruct (parse_encoded_training_path s n lw lh sw sh w Hlw Hlh Hsw Hsh)
    as (path & Hpath & Hparse).
  rewrite Henc in Hpath. injection Hpath as <-.
  eexists. split; [|split; [reflexivity|]].
  - unfold get_tile_summary_image_filename, bindM, lift, ret.
    rewrite Hglob, Hparse. reflexivity.
  - change (TRAIN_PREFIX ++ zfill 3 (str n) ++ "-" ++ str s ++ "x-" ++ str lw
            ++ "x" ++ str lh ++ "-" ++ str sw ++ "x" ++ str sh ++ "-"
            ++ TILE_SUMMARY_SUFFIX ++ "."
            ++ (if thumbnail then THUMBNAIL_EXT else DEST_TRAIN_EXT))
      with (TRAIN_PREFIX ++ zfill 3 (str n) ++ "-" ++ str s ++ "x-" ++ str lw
            ++ "x" ++ str lh ++ "-" ++ str sw ++ "x" ++ str sh
            ++ ("-" ++ TILE_SUMMARY_SUFFIX) ++ "."
            ++ (if thumbnail then THUMBNAIL_EXT else DEST_TRAIN_EXT)).
    replace (TRAIN_PREFIX ++ zfill 3 (str n) ++ "-" ++ str s ++ "x-" ++ str lw
             ++ "x" ++ str lh ++ "-" ++ str sw ++ "x" ++ str sh
             ++ ("-" ++ TILE_SUMMARY_SUFFIX) ++ "."
             ++ (if thumbnail then THUMBNAIL_EXT else DEST_TRAIN_EXT))
      with ((TRAIN_PREFIX ++ zfill 3 (str n) ++ "-" ++ str s ++ "x") ++ "-"
            ++ str lw ++ "x" ++ str lh ++ "-" ++ str sw ++ "x" ++ str sh
            ++ ("-" ++ TILE_SUMMARY_SUFFIX) ++ "."
            ++ (if thumbnail then THUMBNAIL_EXT else DEST_TRAIN_EXT))
      by (rewrite !append_assoc; reflexivity).
    rewrite parse_dimension_suffix; try (apply all_digits_str; lia);
      try reflexivity; try (destruct thumbnail; reflexivity).
    rewrite !no_newline_app, no_newline_padded, no_newline_str. reflexivity.
Qed.

Lemma tile_summary_name_decoding_witness :
  exists name,
    get_tile_summary_image_filename 32 5 true converted_world
    = (converted_world, Ok name)
    /\ name = TRAIN_PREFIX ++ zfill 3 (str 5) ++ "-" ++ str 32 ++ "x-" ++ str 49920
              ++ "x" ++ str 108288 ++ "-" ++ str 1560 ++ "x" ++ str 3384 ++ "-"
              ++ TILE_SUMMARY_SUFFIX ++ "." ++ (if true then THUMBNAIL_EXT else DEST_TRAIN_EXT)
    /\ parse_dimensions_from_training_image_filename name
       = Ok (str 49920, str 108288, str 1560, str 3384 ++ "-" ++ TILE_SUMMARY_SUFFIX).
Proof.
  apply (tile_summary_name_decoding 32 5 49920 108288 1560 3384 true
           converted_world
           "../data/training_png/TUPAC-TR-005-32x-49920x108288-1560x3384.png");
    try lia; reflexivity.
Defined.

Lemma filter_thumbnail_result_shape (s n : Z) (w : World)
    (tpath LW LH SW SH : string) :
  get_training_image_path s n None None None None w = (w, Ok tpath) ->
  parse_dimensions_from_training_image_filename tpath = Ok (LW, LH, SW, SH) ->
  get_filter_thumbnail_result s n w
  = (w, Ok ((FILTER_THUMBNAIL_DIR ++ os_sep ++ TRAIN_PREFIX ++ zfill 3 (str n)
             ++ "-" ++ str s ++ "x")
            ++ "-" ++ LW ++ "x" ++ LH ++ "-" ++ SW ++ "x" ++ SH
            ++ ("-" ++ FILTER_RESULT_TEXT) ++ "." ++ THUMBNAIL_EXT)).
Proof.
  intros Hg Hp. unfold get_filter_thumbnail_result, bindM, lift, ret.
  rewrite Hg, Hp. do 2 f_equal. rewrite !append_assoc. reflexivity.
Qed.

(** X20. The name of the filter result thumbnail carries the dimensions of the
    training image found for the slide; parsed in its turn it gives the
    same first three values, and the small height followed by the result
    text as the fourth. *)
Theorem filter_thumbnail_result_decoding (s n lw lh sw sh : Z) (w : World)
    (tpath : string) :
  0 < lw -> 0 < lh -> 0 < sw -> 0 < sh ->
  get_training_image_path s n (Some lw) (Some lh) (Some sw) (Some sh) w
  = (w, Ok tpath) ->
  get_training_image_path s n None None None None w = (w, Ok tpath) ->
  exists fpath,
    get_filter_thumbnail_result s n w = (w, Ok fpath)
    /\ parse_dimensions_from_training_image_filename fpath
       = Ok (str lw, str lh, str sw, str sh ++ "-" ++ FILTER_RESULT_TEXT).
Proof.
  intros Hlw Hlh Hsw Hsh Henc Hglob.
  destruct (parse_encoded_training_path s n lw lh sw sh w Hlw Hlh Hsw Hsh)
    as (path & Hpath & Hparse).
  rewrite Henc in Hpath. injection Hpath as <-.
  eexists. split; [exact (filter_thumbnail_result_shape _ _ _ _ _ _ _ _ Hglob Hparse)|].
  rewrite parse_dimension_suffix; try (apply all_digits_str; lia);
    try reflexivity.
  rewrite !no_newline_app, no_newline_padded, no_newline_str. reflexivity.
Qed.

Lemma filter_thumbnail_result_decoding_witness :
  exists fpath,
    get_filter_thumbnail_result 32 5 converted_world = (converted_world, Ok fpath)
    /\ parse_dimensions_from_training_image_filename fpath
       = Ok (str 49920, str 108288, str 1560, str 3384 ++ "-" ++ FILTER_RESULT_TEXT).
Proof.
  apply (filter_thumbnail_result_decoding 32 5 49920 108288 1560 3384
           converted_world
           "../data/training_png/TUPAC-TR-005-32x-49920x108288-1560x3384.png");
    try lia; reflexivity.
Defined.

(* ================================================================== *)
(** * Directories are made once *)

Lemma ensure_dir_idempotent (dir : string) (w : World) :
  exists w',
    ensure_dir dir w = (w', Ok tt)
    /\ ensure_dir dir w' = (w', Ok tt)
    /\ os_path_exists dir w' = (w', Ok true)
    /\ files w' = files w /\ slide_files w' = slide_files w.
Proof.
  unfold ensure_dir, bindM, os_path_exists, os_makedirs, ret.
  destruct (existsb (String.eqb dir) (dirs w)
            || existsb (fun f => String.eqb dir (fst f)) (files w)
            || existsb (fun f => String.eqb dir (fst f)) (slide_files w))%bool
    eqn:E.
  - exists w. rewrite E. auto.
  - eexists. split; [reflexivity|]. cbn [dirs files slide_files existsb].
    rewrite String.eqb_refl. cbn [orb]. auto.
Qed.

(** X21. The path functions of the filter images make their directory when it
    is missing and touch nothing else; called again they change nothing
    and give the same path. *)
Theorem filter_paths_make_directory_once (slide_number filter_number : Z)
    (filter_name_info : string) (w : World) :
  (exists w',
     get_filter_image_path slide_number filter_number filter_name_info w
     = (w', Ok (FILTER_DIR ++ os_sep
                ++ get_filter_image_filename slide_number filter_number
                     filter_name_info false))
     /\ get_filter_image_path slide_number filter_number filter_name_info w'
        = (w', Ok (FILTER_DIR ++ os_sep
                   ++ get_filter_image_filename slide_number filter_number
                        filter_name_info false))
     /\ os_path_exists FILTER_DIR w' = (w', Ok true)
     /\ files w' = files w /\ slide_files w' = slide_files w)
  /\ (exists w',
        get_filter_thumbnail_path slide_number filter_number filter_name_info w
        = (w', Ok (FILTER_THUMBNAIL_DIR ++ os_sep
                   ++ get_filter_image_filename slide_number filter_number
                        filter_name_info true))
        /\ get_filter_thumbnail_path slide_number filter_number filter_name_info w'
           = (w', Ok (FILTER_THUMBNAIL_DIR ++ os_sep
                      ++ get_filter_image_filename slide_number filter_number
                           filter_name_info true))
        /\ os_path_exists FILTER_THUMBNAIL_DIR w' = (w', Ok true)
        /\ files w' = files w /\ slide_files w' = slide_files w).
Proof.
  split.
  - destruct (ensure_dir_idempotent FILTER_DIR w) as (w' & E1 & E2 & E3 & Hf & Hs).
    exists w'. unfold get_filter_image_path.
    rewrite (bindM_ok _ _ _ _ _ E1), (bindM_ok _ _ _ _ _ E2). auto.
  - destruct (ensure_dir_idempotent FILTER_THUMBNAIL_DIR w)
      as (w' & E1 & E2 & E3 & Hf & Hs).
    exists w'. unfold get_filter_thumbnail_path.
    rewrite (bindM_ok _ _ _ _ _ E1), (bindM_ok _ _ _ _ _ E2). auto.
Qed.

(** ** The paths of the tile summaries *)





(* ================================================================== *)
(** * Converting a slide, then looking its image up *)

(** The test that [glob_star] applies to a path. *)
Definition glob_match (dir pre suf path : string) : bool :=
  match strip_prefix (dir ++ os_sep) path with
  | Some name => negb (has_char "/" name) && fnmatch_star pre suf name
  | None => false
  end.

Lemma glob_star_match {A} (dir pre suf : string) (l : list (string * A)) :
  glob_star dir pre suf l
  = map fst (filter (fun f => glob_match dir pre suf (fst f)) l).
Proof. reflexivity. Qed.

Lemma glob_write_other {A} (dir pre suf k : string) (a : A) (l : list (string * A)) :
  glob_match dir pre suf k = false ->
  glob_star dir pre suf (write_file k a l) = glob_star dir pre suf l.
Proof.
  intros Hk. rewrite !glob_star_match.
  induction l as [|[k' a'] l IH]; cbn [write_file filter fst map].
  - now rewrite Hk.
  - destruct (String.eqb_spec k k') as [<-|Hne]; cbn [filter fst].
    + now rewrite Hk.
    + destruct (glob_match dir pre suf k'); cbn [map]; now rewrite IH.
Qed.

Lemma glob_write_new {A} (dir pre suf k : string) (a : A) (l : list (string * A)) :
  glob_match dir pre suf k = true ->
  glob_star dir pre suf l = [] ->
  glob_star dir pre suf (write_file k a l) = [k].
Proof.
  intros Hk. rewrite !glob_star_match.
  induction l as [|[k' a'] l IH]; cbn [write_file filter fst map].
  - now rewrite Hk.
  - destruct (glob_match dir pre suf k') eqn:Ek'; [discriminate|].
    intros Hl. destruct (String.eqb_spec k k') as [<-|Hne]; [congruence|].
    cbn [filter fst]. rewrite Ek'. exact (IH Hl).
Qed.

Lemma strip_prefix_app (a b : string) : strip_prefix a (a ++ b) = Some b.
Proof.
  induction a as [|c a IH]; cbn [strip_prefix append]; [now destruct b|].
  now rewrite Ascii.eqb_refl.
Qed.

Lemma has_char_app (c : ascii) (a b : string) :
  has_char c (a ++ b) = (has_char c a || has_char c b)%bool.
Proof.
  induction a as [|x a IH]; cbn [has_char append]; [reflexivity|].
  now rewrite IH, orb_assoc.
Qed.

Lemma ends_with_refl (s : string) : ends_with s s = true.
Proof. destruct s; cbn [ends_with]; now rewrite String.eqb_refl. Qed.

Lemma ends_with_app (suf a : string) : ends_with suf (a ++ suf) = true.
Proof.
  induction a as [|c a IH]; cbn [append]; [apply ends_with_refl|].
  cbn [ends_with]. rewrite IH. apply orb_true_r.
Qed.

Lemma all_digits_zeros (k : nat) : all_digits (zeros k) = true.
Proof. induction k; cbn [zeros all_digits is_digit]; auto. Qed.

Lemma all_digits_app (a b : string) :
  all_digits (a ++ b) = (all_digits a && all_digits b)%bool.
Proof.
  induction a as [|x a IH]; cbn [all_digits append]; [reflexivity|].
  now rewrite IH, andb_assoc.
Qed.

Lemma all_digits_zfill (w : nat) (s : string) :
  all_digits s = true -> all_digits (zfill w s) = true.
Proof.
  intros H. unfold zfill.
  destruct (w <=? String.length s)%nat; [exact H|].
  destruct s as [|c r]; [apply all_digits_zeros|].
  pose proof H as H'. cbn [all_digits] in H'. apply andb_true_iff in H' as [Hc Hr].
  assert (E : (Ascii.eqb c "+" || Ascii.eqb c "-")%bool = false).
  { destruct (Ascii.eqb_spec c "+") as [->|]; [discriminate Hc|].
    destruct (Ascii.eqb_spec c "-") as [->|]; [discriminate Hc | reflexivity]. }
  rewrite E, all_digits_app, all_digits_zeros. exact H.
Qed.

(** The encoded image path of a slide passes the test of the lookup for
    that slide. *)
Lemma encoded_path_matches (s n lw lh sw sh : Z) :
  0 <= s -> 0 <= n -> 0 <= lw -> 0 <= lh -> 0 <= sw -> 0 <= sh ->
  glob_match DEST_TRAIN_DIR (TRAIN_PREFIX ++ zfill 3 (str n)) ("." ++ DEST_TRAIN_EXT)
    ((DEST_TRAIN_DIR ++ os_sep ++ TRAIN_PREFIX ++ zfill 3 (str n) ++ "-"
      ++ str s ++ "x")
     ++ "-" ++ str lw ++ "x" ++ str lh ++ "-" ++ str sw ++ "x" ++ str sh
     ++ "" ++ "." ++ DEST_TRAIN_EXT)
  = true.
Proof.
  intros Hs Hn Hlw Hlh Hsw Hsh. unfold glob_match.
  replace ((DEST_TRAIN_DIR ++ os_sep ++ TRAIN_PREFIX ++ zfill 3 (str n) ++ "-"
            ++ str s ++ "x")
           ++ "-" ++ str lw ++ "x" ++ str lh ++ "-" ++ str sw ++ "x" ++ str sh
           ++ "" ++ "." ++ DEST_TRAIN_EXT)
    with ((DEST_TRAIN_DIR ++ os_sep)
          ++ (TRAIN_PREFIX ++ zfill 3 (str n))
          ++ ("-" ++ str s ++ "x-" ++ str lw ++ "x" ++ str lh ++ "-" ++ str sw
              ++ "x" ++ str sh) ++ "." ++ DEST_TRAIN_EXT)
    by (rewrite !append_assoc; reflexivity).
  rewrite strip_prefix_app. apply andb_true_iff. split.
  - apply negb_true_iff. rewrite !has_char_app.
    rewrite (has_char_digits "/" (zfill 3 (str n)))
      by (first [apply all_digits_zfill, all_digits_str; lia | reflexivity]).
    rewrite !(has_char_digits "/" (str _))
      by (first [apply all_digits_str; lia | reflexivity]).
    reflexivity.
  - unfold fnmatch_star. rewrite strip_prefix_app. apply ends_with_app.
Qed.

Lemma encoded_thumbnail_path_no_match (pre suf rest : string) :
  glob_match DEST_TRAIN_DIR pre suf (DEST_TRAIN_THUMBNAIL_DIR ++ rest) = false.
Proof. reflexivity. Qed.

(** What a successful conversion leaves behind. *)
Lemma conversion_files (SCALE_FACTOR n lw lh : Z) (w : World) (slide : Slide)
    (level_dims : Z * Z) :
  0 < SCALE_FACTOR -> 0 < lw < 2 ^ 53 -> 0 < lh < 2 ^ 53 ->
  lookup (get_training_slide_path n) (slide_files w) = Some (Some slide) ->
  dimensions slide = (lw, lh) ->
  nth_error (level_dimensions slide)
    (get_best_level_for_downsample slide SCALE_FACTOR) = Some level_dims ->
  resize_ok w (lw / SCALE_FACTOR, lh / SCALE_FACTOR) = true ->
  let new_w := lw / SCALE_FACTOR in
  let new_h := lh / SCALE_FACTOR in
  let img := {| size := (new_w, new_h); mode := "RGB" |} in
  exists img_path thumbnail_path,
    get_training_image_path SCALE_FACTOR n (Some lw) (Some lh) (Some new_w)
      (Some new_h) w = (w, Ok img_path)
    /\ get_training_thumbnail_path SCALE_FACTOR n (Some lw) (Some lh)
         (Some new_w) (Some new_h) w = (w, Ok thumbnail_path)
    /\ let after := fst (training_slide_to_image SCALE_FACTOR n w) in
       files after = write_file img_path img (files w)
       \/ exists timg,
            files after
            = write_file thumbnail_path timg (write_file img_path img (files w)).
Proof.
  intros HS Hlw Hlh Hopen Hdims Hlevel Eok new_w new_h img.
  eexists. eexists.
  split; [apply training_image_path_with_dimensions|].
  split; [apply thumbnail_path_with_dimensions|].
  cbn zeta. unfold training_slide_to_image.
  assert (Hopen' : open_slide (get_training_slide_path n) w = (w, Ok (Some slide))).
  { unfold open_slide, openslide_open_slide. now rewrite Hopen. }
  rewrite (bindM_ok _ _ _ _ _ Hopen').
  erewrite bindM_ok by (unfold lift; cbn [attr]; rewrite Hdims; reflexivity).
  cbv beta iota.
  erewrite bindM_ok by (unfold lift; rewrite floor_truediv by assumption; reflexivity).
  erewrite bindM_ok by (unfold lift; rewrite floor_truediv by assumption; reflexivity).
  erewrite bindM_ok by (unfold lift; cbn [attr]; reflexivity).
  erewrite bindM_ok
    by (unfold lift; cbn [attr bind]; unfold index; rewrite Hlevel; reflexivity).
  erewrite bindM_ok by (unfold lift; cbn [attr]; reflexivity).
  fold new_w new_h. fold new_w new_h in Eok.
  erewrite bindM_ok by (unfold image_resize; rewrite Eok; reflexivity).
  rewrite (bindM_ok _ _ _ _ _ (training_image_path_with_dimensions _ _ _ _ _ _ _)).
  destruct (ensure_dir_files DEST_TRAIN_DIR w) as (Hf & _ & _ & Hr).
  destruct (ensure_dir DEST_TRAIN_DIR w) as [w1 r1] eqn:Edir.
  cbn [fst snd] in *. subst r1.
  rewrite (bindM_ok _ _ _ _ _ Edir).
  erewrite bindM_ok by (unfold image_save; reflexivity).
  rewrite (bindM_ok _ _ _ _ _ (thumbnail_path_with_dimensions _ _ _ _ _ _ _)).
  match goal with
  | |- context [save_thumbnail ?i ?s ?p ?w2] =>
      destruct (save_thumbnail_files i s p w2) as [Ht|(timg & Ht & _)]
  end.
  - left. rewrite Ht. cbn [files]. now rewrite Hf.
  - right. exists timg. rewrite Ht. cbn [files]. now rewrite Hf.
Qed.

(** X23. After a slide is converted, the lookup of its image path without
    dimensions finds the path that was encoded with them, and the
    dimensions are read back from it, provided no image of that slide was
    there before. *)
Theorem converted_image_is_found (SCALE_FACTOR n lw lh : Z) (w : World)
    (slide : Slide) (level_dims : Z * Z) :
  0 < SCALE_FACTOR -> 0 <= n ->
  SCALE_FACTOR <= lw < 2 ^ 53 -> SCALE_FACTOR <= lh < 2 ^ 53 ->
  lookup (get_training_slide_path n) (slide_files w) = Some (Some slide) ->
  dimensions slide = (lw, lh) ->
  nth_error (level_dimensions slide)
    (get_best_level_for_downsample slide SCALE_FACTOR) = Some level_dims ->
  resize_ok w (lw / SCALE_FACTOR, lh / SCALE_FACTOR) = true ->
  glob_star DEST_TRAIN_DIR (TRAIN_PREFIX ++ zfill 3 (str n)) ("." ++ DEST_TRAIN_EXT)
    (files w) = [] ->
  let after := fst (training_slide_to_image SCALE_FACTOR n w) in
  exists img_path,
    get_training_image_path SCALE_FACTOR n (Some lw) (Some lh)
      (Some (lw / SCALE_FACTOR)) (Some (lh / SCALE_FACTOR)) w = (w, Ok img_path)
    /\ get_training_image_path SCALE_FACTOR n None None None None after
       = (after, Ok img_path)
    /\ parse_dimensions_from_training_image_filename img_path
       = Ok (str lw, str lh, str (lw / SCALE_FACTOR), str (lh / SCALE_FACTOR)).
Proof.
  intros HS Hn Hlw Hlh Hopen Hdims Hlevel Eok Hnone after.
  assert (Hqw : 0 < lw / SCALE_FACTOR) by (apply Z.div_str_pos; lia).
  assert (Hqh : 0 < lh / SCALE_FACTOR) by (apply Z.div_str_pos; lia).
  destruct (conversion_files SCALE_FACTOR n lw lh w slide level_dims HS
              ltac:(lia) ltac:(lia) Hopen Hdims Hlevel Eok)
    as (img_path & thumbnail_path & Hip & Htp & Hfiles).
  destruct (parse_encoded_training_path SCALE_FACTOR n lw lh (lw / SCALE_FACTOR)
              (lh / SCALE_FACTOR) w ltac:(lia) ltac:(lia) Hqw Hqh)
    as (path & Hpath & Hparse).
  rewrite Hip in Hpath. injection Hpath as <-.
  exists img_path. split; [exact Hip|]. split; [|exact Hparse].
  pose proof Hip as Hshape. rewrite training_image_path_with_dimensions in Hshape.
  injection Hshape as Hshape.
  pose proof Htp as Htshape. rewrite thumbnail_path_with_dimensions in Htshape.
  injection Htshape as Htshape.
  assert (Hm : glob_match DEST_TRAIN_DIR (TRAIN_PREFIX ++ zfill 3 (str n))
                 ("." ++ DEST_TRAIN_EXT) img_path = true).
  { rewrite <- Hshape. apply encoded_path_matches; lia. }
  assert (Ht : glob_match DEST_TRAIN_DIR (TRAIN_PREFIX ++ zfill 3 (str n))
                 ("." ++ DEST_TRAIN_EXT) thumbnail_path = false).
  { rewrite <- Htshape. reflexivity. }
  assert (Hglob : glob_star DEST_TRAIN_DIR (TRAIN_PREFIX ++ zfill 3 (str n))
                    ("." ++ DEST_TRAIN_EXT) (files after) = [img_path]).
  { cbv zeta in Hfiles. fold after in Hfiles.
    destruct Hfiles as [-> | (timg & ->)].
    - now apply glob_write_new.
    - rewrite (glob_write_other _ _ _ _ _ _ Ht). now apply glob_write_new. }
  unfold get_training_image_path. cbn [is_None andb].
  unfold bindM, glob_images, lift. rewrite Hglob. reflexivity.
Qed.

Lemma converted_image_is_found_witness :
  let after := fst (training_slide_to_image 32 5 demo_world) in
  exists img_path,
    get_training_image_path 32 5 (Some 49920) (Some 108288)
      (Some (49920 / 32)) (Some (108288 / 32)) demo_world
    = (demo_world, Ok img_path)
    /\ get_training_image_path 32 5 None None None None after
       = (after, Ok img_path)
    /\ parse_dimensions_from_training_image_filename img_path
       = Ok (str 49920, str 108288, str (49920 / 32), str (108288 / 32)).
Proof.
  apply (converted_image_is_found 32 5 49920 108288 demo_world demo_slide
           (3120, 6768)); first [lia | reflexivity].
Defined.

(* ================================================================== *)
(** * Statistics of the slides

    [slide_stats] up to the statistics it displays; the text it prints and
    writes and the plots it draws are not modelled. *)

Definition STATS_DIR : string := BASE_DIR ++ os_sep ++ "svs_stats".

(** [sys.maxsize] *)
Definition sys_maxsize : Z := 9223372036854775807.

(** The variables of the statistics loop. *)
Record Stats : Type :=
  { max_width : Z; max_height : Z; min_width : Z; min_height : Z;
    total_width : Z; total_height : Z; total_size : Z;
    which_max_width : Z; which_max_height : Z;
    which_min_width : Z; which_min_height : Z;
    max_size : Z; min_size : Z; which_max_size : Z; which_min_size : Z }.

Definition stats_init : Stats :=
  {| max_width := 0; max_height := 0;
     min_width := sys_maxsize; min_height := sys_maxsize;
     total_width := 0; total_height := 0; total_size := 0;
     which_max_width := 0; which_max_height := 0;
     which_min_width := 0; which_min_height := 0;
     max_size := 0; min_size := sys_maxsize;
     which_max_size := 0; which_min_size := 0 |}.

(** The body of the loop, for the index [z] and the dimensions read at it. *)
Definition stats_step (z : Z) (dims : Z * Z) (st : Stats) : Stats :=
  let '(width, height) := dims in
  let size_ := width * height in
  {| max_width := if width >? max_width st then width else max_width st;
     which_max_width := if width >? max_width st then z + 1 else which_max_width st;
     min_width := if width <? min_width st then width else min_width st;
     which_min_width := if width <? min_width st then z + 1 else which_min_width st;
     max_height := if height >? max_height st then height else max_height st;
     which_max_height :=
       if height >? max_height st then z + 1 else which_max_height st;
     min_height := if height <? min_height st then height else min_height st;
     which_min_height :=
       if height <? min_height st then z + 1 else which_min_height st;
     max_size := if size_ >? max_size st then size_ else max_size st;
     which_max_size := if size_ >? max_size st then z + 1 else which_max_size st;
     min_size := if size_ <? min_size st then size_ else min_size st;
     which_min_size := if size_ <? min_size st then z + 1 else which_min_size st;
     total_width := total_width st + width;
     total_height := total_height st + height;
     total_size := total_size st + size_ |}.

(** [for z in range(0, num_train_images)], reading [slide_stats[z]]. *)
Fixpoint slide_stats_loop (zs : list Z) (slide_stats : list (Z * Z)) (st : Stats)
  : result Stats :=
  match zs with
  | [] => Ok st
  | z :: zs' =>
      (dims <- index slide_stats (Z.to_nat z) ;;
       slide_stats_loop zs' slide_stats (stats_step z dims st))%res
  end.

(** The first loop: the dimensions of the slides 1 to [num_train_images]. *)
Fixpoint slide_dimensions (slide_nums : list Z) : M (list (Z * Z)) :=
  match slide_nums with
  | [] => ret []
  | slide_num :: rest =>
      (slide <- open_slide (get_training_slide_path slide_num) ;;
       dims <- lift (attr slide dimensions) ;;
       more <- slide_dimensions rest ;;
       ret (dims :: more))%world
  end.

(** The statistics, and the three rounded averages. *)
Definition slide_stats : M (Stats * (Z * Z * Z)) :=
  (ensure_dir STATS_DIR ;;;
   num_train_images <- get_num_training_slides ;;
   slide_stats <- slide_dimensions (range 1 (num_train_images + 1)) ;;
   st <- lift (slide_stats_loop (range 0 num_train_images) slide_stats stats_init) ;;
   avg_width <- lift (int_truediv (total_width st) num_train_images) ;;
   avg_height <- lift (int_truediv (total_height st) num_train_images) ;;
   avg_size <- lift (int_truediv (total_size st) num_train_images) ;;
   rw <- lift (py_round avg_width) ;;
   rh <- lift (py_round avg_height) ;;
   rs <- lift (py_round avg_size) ;;
   ret (st, (rw, rh, rs)))%world.

(** The loop as a fold over the list, counting the index from [z]. *)
Fixpoint stats_from (z : Z) (l : list (Z * Z)) (st : Stats) : Stats :=
  match l with
  | [] => st
  | dims :: l' => stats_from (z + 1) l' (stats_step z dims st)
  end.

Lemma slide_stats_loop_from (l2 : list (Z * Z)) :
  forall (l1 : list (Z * Z)) (st : Stats),
  slide_stats_loop (map Z.of_nat (seq (List.length l1) (List.length l2)))
    (l1 ++ l2)%list st
  = Ok (stats_from (Z.of_nat (List.length l1)) l2 st).
Proof.
  induction l2 as [|d l2 IH]; intros l1 st; [reflexivity|].
  cbn [List.length seq map slide_stats_loop stats_from].
  unfold index. rewrite Nat2Z.id, nth_error_app2 by lia.
  rewrite Nat.sub_diag. cbn [nth_error bind].
  specialize (IH (l1 ++ [d])%list (stats_step (Z.of_nat (List.length l1)) d st)).
  rewrite <- app_assoc, length_app in IH. cbn [List.length app] in IH.
  replace (List.length l1 + 1)%nat with (S (List.length l1)) in IH by lia.
  rewrite IH. do 2 f_equal. lia.
Qed.

Lemma slide_stats_loop_all (l : list (Z * Z)) :
  slide_stats_loop (range 0 (Z.of_nat (List.length l))) l stats_init
  = Ok (stats_from 0 l stats_init).
Proof.
  pose proof (slide_stats_loop_from l [] stats_init) as H.
  cbn [List.length app] in H. change (Z.of_nat 0) with 0 in H.
  rewrite <- H. f_equal.
  unfold range. rewrite Z.sub_0_r, Nat2Z.id. apply map_ext. intros k. lia.
Qed.

(** A quantity tracked with its slide: [best] holds the largest [key] seen
    so far and [which] the number of the slide that first reached it. *)
Section Tracker.
Variables (key : Z * Z -> Z) (best which : Stats -> Z).
Hypothesis step_best : forall z d st,
  best (stats_step z d st) = if key d >? best st then key d else best st.
Hypothesis step_which : forall z d st,
  which (stats_step z d st) = if key d >? best st then z + 1 else which st.

Lemma tracker_loop (l : list (Z * Z)) :
  forall z st,
  (best (stats_from z l st) = best st /\ which (stats_from z l st) = which st
   /\ forall d, In d l -> key d <= best st)
  \/ (exists i d,
        nth_error l i = Some d /\ best (stats_from z l st) = key d
        /\ which (stats_from z l st) = z + Z.of_nat i + 1
        /\ best st < key d
        /\ forall j d', nth_error l j = Some d' ->
             key d' <= key d /\ ((j < i)%nat -> key d' < key d)).
Proof.
  induction l as [|d0 l IH]; intros z st; cbn [stats_from].
  - left. split; [reflexivity|]. split; [reflexivity|]. intros d [].
  - specialize (IH (z + 1) (stats_step z d0 st)).
    rewrite step_best, step_which in IH.
    destruct (Z.gtb_spec (key d0) (best st)) as [Hgt|Hle].
    + right. destruct IH as [(Hb & Hw & Hall)|(i & d & Hn & Hb & Hw & Hlt & Hall)].
      * exists 0%nat, d0.
        split; [reflexivity|]. split; [exact Hb|]. split; [lia|]. split; [lia|].
        intros j d' Hj. destruct j as [|j]; cbn [nth_error] in Hj.
        -- injection Hj as <-. lia.
        -- pose proof (Hall d' (nth_error_In _ _ Hj)). lia.
      * exists (S i), d.
        split; [exact Hn|]. split; [exact Hb|]. split; [lia|]. split; [lia|].
        intros j d' Hj. destruct j as [|j]; cbn [nth_error] in Hj.
        -- injection Hj as <-. lia.
        -- pose proof (Hall j d' Hj). lia.
    + destruct IH as [(Hb & Hw & Hall)|(i & d & Hn & Hb & Hw & Hlt & Hall)].
      * left. split; [exact Hb|]. split; [exact Hw|].
        intros d [<-|Hin]; [lia | now apply Hall].
      * right. exists (S i), d.
        split; [exact Hn|]. split; [exact Hb|]. split; [lia|]. split; [lia|].
        intros j d' Hj. destruct j as [|j]; cbn [nth_error] in Hj.
        -- injection Hj as <-. lia.
        -- pose proof (Hall j d' Hj). lia.
Qed.

End Tracker.

(** The sum of a list of integers. *)
Definition list_sum_Z (l : list Z) : Z := fold_right Z.add 0 l.

Lemma gtb_opp (a b : Z) : (- a >? - b) = (a <? b).
Proof. rewrite Z.gtb_ltb. destruct (Z.ltb_spec a b), (Z.ltb_spec (- b) (- a)); lia. Qed.

Lemma if_opp (c : bool) (a b : Z) : - (if c then a else b) = if c then - a else - b.
Proof. now destruct c. Qed.

(** X24. After the loop [max_width] is the largest width, and
    [which_max_width] the number of the first slide that has it; slides
    are numbered from 1, and the widths are positive. *)
Theorem stats_max_width (slide_stats : list (Z * Z)) :
  slide_stats <> [] -> (forall d, In d slide_stats -> 0 < fst d) ->
  exists st i d,
    slide_stats_loop (range 0 (Z.of_nat (List.length slide_stats))) slide_stats
      stats_init = Ok st
    /\ nth_error slide_stats i = Some d
    /\ max_width st = fst d /\ which_max_width st = Z.of_nat i + 1
    /\ forall j d', nth_error slide_stats j = Some d' ->
         fst d' <= fst d /\ ((j < i)%nat -> fst d' < fst d).
Proof.
  intros Hne Hpos. exists (stats_from 0 slide_stats stats_init).
  destruct (tracker_loop fst max_width which_max_width
              ltac:(intros z [w h] st; reflexivity)
              ltac:(intros z [w h] st; reflexivity) slide_stats 0 stats_init)
    as [(_ & _ & Hall)|(i & d & Hn & Hb & Hw & _ & Hall)].
  - exfalso. destruct slide_stats as [|d l]; [congruence|].
    pose proof (Hall d ltac:(now left)). pose proof (Hpos d ltac:(now left)).
    cbn [max_width stats_init] in *. lia.
  - exists i, d. split; [apply slide_stats_loop_all|].
    split; [exact Hn|]. split; [exact Hb|]. split; [lia | exact Hall].
Qed.

Lemma stats_max_width_witness :
  exists st i d,
    slide_stats_loop (range 0 (Z.of_nat (List.length [(3, 9); (7, 2); (7, 5)])))
      [(3, 9); (7, 2); (7, 5)] stats_init = Ok st
    /\ nth_error [(3, 9); (7, 2); (7, 5)] i = Some d
    /\ max_width st = fst d /\ which_max_width st = Z.of_nat i + 1
    /\ forall j d', nth_error [(3, 9); (7, 2); (7, 5)] j = Some d' ->
         fst d' <= fst d /\ ((j < i)%nat -> fst d' < fst d).
Proof.
  apply (stats_max_width [(3, 9); (7, 2); (7, 5)]); [discriminate|].
  intros d [<-|[<-|[<-|[]]]]; cbn [fst]; lia.
Defined.

(** X25. After the loop [min_size] is the smallest size (width times height),
    and [which_min_size] the number of the first slide that has it, as
    long as every size is below [sys.maxsize]. *)
Theorem stats_min_size (slide_stats : list (Z * Z)) :
  slide_stats <> [] ->
  (forall d, In d slide_stats -> fst d * snd d < sys_maxsize) ->
  exists st i d,
    slide_stats_loop (range 0 (Z.of_nat (List.length slide_stats))) slide_stats
      stats_init = Ok st
    /\ nth_error slide_stats i = Some d
    /\ min_size st = fst d * snd d /\ which_min_size st = Z.of_nat i + 1
    /\ forall j d', nth_error slide_stats j = Some d' ->
         fst d * snd d <= fst d' * snd d'
         /\ ((j < i)%nat -> fst d * snd d < fst d' * snd d').
Proof.
  intros Hne Hsmall. exists (stats_from 0 slide_stats stats_init).
  destruct (tracker_loop (fun d => - (fst d * snd d)) (fun st => - min_size st)
              which_min_size
              ltac:(intros z [w h] st; cbn [stats_step min_size fst snd];
                    rewrite gtb_opp; apply if_opp)
              ltac:(intros z [w h] st; cbn [stats_step which_min_size fst snd];
                    now rewrite gtb_opp)
              slide_stats 0 stats_init)
    as [(_ & _ & Hall)|(i & d & Hn & Hb & Hw & _ & Hall)].
  - exfalso. destruct slide_stats as [|d l]; [congruence|].
    pose proof (Hall d ltac:(now left)). pose proof (Hsmall d ltac:(now left)).
    cbn [min_size stats_init] in *. lia.
  - exists i, d. split; [apply slide_stats_loop_all|].
    split; [exact Hn|]. split; [lia|]. split; [lia|].
    intros j d' Hj. pose proof (Hall j d' Hj). lia.
Qed.

Lemma stats_min_size_witness :
  exists st i d,
    slide_stats_loop (range 0 (Z.of_nat (List.length [(3, 9); (7, 2); (2, 7)])))
      [(3, 9); (7, 2); (2, 7)] stats_init = Ok st
    /\ nth_error [(3, 9); (7, 2); (2, 7)] i = Some d
    /\ min_size st = fst d * snd d /\ which_min_size st = Z.of_nat i + 1
    /\ forall j d', nth_error [(3, 9); (7, 2); (2, 7)] j = Some d' ->
         fst d * snd d <= fst d' * snd d'
         /\ ((j < i)%nat -> fst d * snd d < fst d' * snd d').
Proof.
  apply (stats_min_size [(3, 9); (7, 2); (2, 7)]); [discriminate|].
  intros d [<-|[<-|[<-|[]]]]; cbn [fst snd]; reflexivity.
Defined.

Lemma stats_from_totals (l : list (Z * Z)) :
  forall z st,
  total_width (stats_from z l st) = total_width st + list_sum_Z (map fst l)
  /\ total_height (stats_from z l st) = total_height st + list_sum_Z (map snd l)
  /\ total_size (stats_from z l st)
     = total_size st + list_sum_Z (map (fun d => fst d * snd d) l).
Proof.
  unfold list_sum_Z.
  induction l as [|[w h] l IH]; intros z st; cbn [stats_from map fold_right].
  - lia.
  - destruct (IH (z + 1) (stats_step z (w, h) st)) as (H1 & H2 & H3).
    rewrite H1, H2, H3. cbn [stats_step total_width total_height total_size fst snd].
    lia.
Qed.

(** X26. The totals of the loop are the sums of the widths, of the heights and
    of the sizes. *)
Theorem stats_totals (slide_stats : list (Z * Z)) :
  exists st,
    slide_stats_loop (range 0 (Z.of_nat (List.length slide_stats))) slide_stats
      stats_init = Ok st
    /\ total_width st = list_sum_Z (map fst slide_stats)
    /\ total_height st = list_sum_Z (map snd slide_stats)
    /\ total_size st = list_sum_Z (map (fun d => fst d * snd d) slide_stats).
Proof.
  exists (stats_from 0 slide_stats stats_init).
  split; [apply slide_stats_loop_all|].
  destruct (stats_from_totals slide_stats 0 stats_init) as (H1 & H2 & H3).
  rewrite H1, H2, H3. cbn [stats_init total_width total_height total_size]. lia.
Qed.

Lemma slide_dimensions_world (l : list Z) (w : World) :
  fst (slide_dimensions l w) = w.
Proof.
  induction l as [|k l IH]; cbn [slide_dimensions]; [reflexivity|].
  destruct (open_slide_result (get_training_slide_path k) w) as (o & Ho & _).
  rewrite (bindM_ok _ _ _ _ _ Ho).
  destruct o as [slide|]; [|reflexivity].
  rewrite (bindM_ok _ _ _ _ (dimensions slide) eq_refl).
  unfold bindM, ret. destruct (slide_dimensions l w) as [w' [more|e]]; exact IH.
Qed.


(** X27. Without slide files the statistics fail when the averages divide by
    the number of slides; the statistics directory has been made. *)
Theorem slide_stats_without_slides (w : World) :
  glob1_star SRC_TRAIN_DIR ("." ++ SRC_TRAIN_EXT) (slide_files w) = [] ->
  slide_stats w = (fst (ensure_dir STATS_DIR w), Raise ZeroDivisionError).
Proof.
  intros H. unfold slide_stats.
  destruct (ensure_dir_ok STATS_DIR w) as (w1 & E1 & _ & Hs & _).
  rewrite (bindM_ok _ _ _ _ _ E1), E1. cbn [fst].
  unfold bindM at 1. unfold get_num_training_slides at 1. rewrite Hs, H.
  reflexivity.
Qed.

Lemma slide_stats_without_slides_witness :
  slide_stats {| slide_files := []; files := []; dirs := []; resize_ok := fun _ => true |}
  = (fst (ensure_dir STATS_DIR
            {| slide_files := []; files := []; dirs := []; resize_ok := fun _ => true |}),
     Raise ZeroDivisionError).
Proof. apply slide_stats_without_slides. reflexivity. Defined.



(* ================================================================== *)
(** * The slide files are read only *)















(* ================================================================== *)
(** * Slide numbers and slide paths *)

Lemma append_inj_l (a x y : string) : a ++ x = a ++ y -> x = y.
Proof. induction a as [|c a IH]; cbn [append]; [auto|]. intros [= H]. auto. Qed.

Lemma length_append (a b : string) :
  String.length (a ++ b) = (String.length a + String.length b)%nat.
Proof. induction a as [|c a IH]; cbn [append String.length]; [reflexivity | now rewrite IH]. Qed.

Lemma append_inj_r (s : string) : forall x y : string, x ++ s = y ++ s -> x = y.
Proof.
  induction x as [|c x IH]; intros [|d y] H; cbn [append] in H.
  - reflexivity.
  - exfalso. apply (f_equal String.length) in H.
    cbn [String.length] in H. rewrite length_append in H. lia.
  - exfalso. apply (f_equal String.length) in H.
    cbn [String.length] in H. rewrite length_append in H. lia.
  - injection H as -> H. f_equal. now apply IH.
Qed.

(** The number that a string of digits denotes. *)
Definition digits_value (s : string) : option Z :=
  option_map Z.of_uint (NilEmpty.uint_of_string s).

Lemma digits_value_zero (s : string) :
  digits_value (String "0" s) = digits_value s.
Proof.
  unfold digits_value. cbn [NilEmpty.uint_of_string].
  now destruct (NilEmpty.uint_of_string s).
Qed.

Lemma digits_value_zeros (k : nat) (s : string) :
  digits_value (zeros k ++ s) = digits_value s.
Proof.
  induction k as [|k IH]; cbn [zeros append]; [reflexivity|].
  now rewrite digits_value_zero.
Qed.

Lemma int_of_str_digits (c : ascii) (s : string) :
  is_digit c = true -> int_of_str (String c s) = digits_value (String c s).
Proof.
  intros Hc. unfold int_of_str, digits_value, NilZero.int_of_string.
  destruct (Ascii.eqb_spec c "-") as [->|_]; [discriminate Hc|].
  unfold NilZero.uint_of_string.
  destruct (NilEmpty.uint_of_string (String c s)); reflexivity.
Qed.

Lemma zfill_digits (w : nat) (s : string) :
  all_digits s = true -> zfill w s = zeros (w - String.length s) ++ s.
Proof.
  intros H. unfold zfill.
  destruct (Nat.leb_spec w (String.length s)) as [Hle|Hgt].
  - now replace (w - String.length s)%nat with 0%nat by lia.
  - destruct s as [|c r]; [now rewrite append_nil_r|].
    cbn [all_digits] in H. apply andb_true_iff in H as [Hc _].
    destruct (Ascii.eqb_spec c "+") as [->|]; [discriminate Hc|].
    destruct (Ascii.eqb_spec c "-") as [->|]; [discriminate Hc | reflexivity].
Qed.

(** The padded slide number reads back as the slide number. *)
Lemma padded_number_value (n : Z) :
  0 <= n -> digits_value (zfill 3 (str n)) = Some n.
Proof.
  intros Hn. rewrite zfill_digits by (apply all_digits_str; exact Hn).
  rewrite digits_value_zeros.
  pose proof (int_of_str_str n) as H. pose proof (all_digits_str n Hn) as Hd.
  destruct (str n) as [|c r]; [discriminate H|].
  cbn [all_digits] in Hd. apply andb_true_iff in Hd as [Hc _].
  now rewrite <- (int_of_str_digits c r Hc).
Qed.

(** X30. Different slide numbers have different slide paths. *)
Theorem slide_paths_differ (a b : Z) :
  0 <= a -> 0 <= b -> a <> b ->
  get_training_slide_path a <> get_training_slide_path b.
Proof.
  intros Ha Hb Hab H. apply Hab. unfold get_training_slide_path in H. cbv zeta in H.
  do 3 apply append_inj_l in H. apply append_inj_r in H.
  apply (f_equal digits_value) in H.
  rewrite !padded_number_value in H by assumption. now injection H.
Qed.

Lemma slide_paths_differ_witness :
  get_training_slide_path 5 <> get_training_slide_path 1005.
Proof. apply (slide_paths_differ 5 1005); lia. Defined.
